(** * WorkOS to Better Auth migration script: a shallow embedding

    This development embeds [scripts/migrate-workos.ts] in Rocq and proves
    properties of its pagination loops, per-record error isolation, field
    derivations and backup-code generation.  An earlier version of the
    script, without the organization phase, has the same
    [safeDateConversion] and [generateBackupCodes]; it is embedded in the
    module [Earlier].

    Modelling choices.
    - A JavaScript string is the list of its UTF-16 code units ([jsstring]);
      [length] is the JavaScript [.length].
    - Source records have the fields that the script reads, typed as the
      WorkOS SDK and the interfaces of the script declare them; a field is
      an [option] where the script tests it for absence or reads it through
      [?.] or [||].
    - The script talks to three external collaborators: the WorkOS SDK, the
      Better Auth adapter and the Better Auth crypto helpers.  They are
      gathered in the class [Env], with the JavaScript built-ins that depend
      on tables or on the clock: every call is a transition on an abstract
      world state [W], so an answer may depend on everything that happened
      before.
    - The script itself runs in a small monad [M] that threads the local
      variables of the running function (its frame) and the world, records
      the calls made in a trace, and propagates exceptions; [try_catch] is
      JavaScript's [try]/[catch].
    - The [Map] that [migrateOrganizations] builds and returns is a field of
      both frames; its [set] and [get] are recorded in the trace.
    - The two [while] loops need not terminate (the source may keep sending
      full pages), so they take a bound on the number of iterations and
      answer [OutOfFuel] when it is exceeded.
    - Console output, the check of the environment variables and the lookup
      of the adapter are not modelled: they come before the first call or
      never change the control flow. *)

From stdpp Require Import base numbers option list strings gmap.

(** ** JavaScript strings and the built-ins the script uses *)

Definition code_unit := N.

Definition jsstring := list N.

(** A string literal of the source, as code units. *)
Definition js (s : string) : jsstring :=
  map Ascii.N_of_ascii (String.list_ascii_of_string s).

Definition hyphen : code_unit := 45%N.

Definition at_sign : code_unit := 64%N.

Definition is_lower (c : code_unit) : bool := (97 <=? c)%N && (c <=? 122)%N.

Definition is_upper (c : code_unit) : bool := (65 <=? c)%N && (c <=? 90)%N.

Definition is_digit (c : code_unit) : bool := (48 <=? c)%N && (c <=? 57)%N.

(** The character class [[a-z0-9]]. *)
Definition in_a_z0_9 (c : code_unit) : bool := is_lower c || is_digit c.

(** The character class [[A-Za-z0-9]]. *)
Definition is_alnum (c : code_unit) : bool := is_upper c || is_lower c || is_digit c.

Definition jsstring_eqb (a b : jsstring) : bool := bool_decide (a = b).

(** Truthiness of a string: only the empty string is falsy. *)
Definition truthy (s : jsstring) : bool :=
  match s with
  | [] => false
  | _ :: _ => true
  end.

(** [v || d] where [v] is a string, [null] or [undefined]. *)
Definition or_else (v : option jsstring) (d : jsstring) : jsstring :=
  match v with
  | Some s => if truthy s then s else d
  | None => d
  end.

(** [v || undefined] where [v] is a string, [null] or [undefined]. *)
Definition or_undefined (v : option jsstring) : option jsstring :=
  match v with
  | Some s => if truthy s then Some s else None
  | None => None
  end.

(** [o?.p] where the property [p] may itself be absent. *)
Definition optional_chain {A B} (o : option A) (p : A -> option B) : option B :=
  match o with
  | Some a => p a
  | None => None
  end.

(** [s.replace(/[^...]/g, repl)] for a negated character class given by its
    membership test [keep]: without the [u] flag the regular expression
    matches one code unit at a time, and every match is replaced. *)
Definition replace_outside (keep : code_unit -> bool) (repl s : jsstring) : jsstring :=
  flat_map (fun c => if keep c then [c] else repl) s.

(** [s.split(sep)] for a separator of one code unit. *)
Fixpoint split (sep : code_unit) (s : jsstring) : list jsstring :=
  match s with
  | [] => [[]]
  | c :: s' =>
      if (c =? sep)%N then [] :: split sep s'
      else match split sep s' with
           | [] => [[c]]
           | piece :: pieces => (c :: piece) :: pieces
           end
  end.

(** [s.slice(i, j)] and [s.slice(i)] for indices within [0 .. ]. *)
Definition slice (i j : nat) (s : jsstring) : jsstring := take (j - i) (drop i s).

Definition slice_from (i : nat) (s : jsstring) : jsstring := drop i s.

(** White space and line terminators of ECMAScript, removed by [trim]. *)
Definition is_white_space (c : code_unit) : bool :=
  ((9 <=? c) && (c <=? 13) || (c =? 32) || (c =? 160) || (c =? 5760)
   || (8192 <=? c) && (c <=? 8202) || (c =? 8232) || (c =? 8233)
   || (c =? 8239) || (c =? 8287) || (c =? 12288) || (c =? 65279))%N.

Fixpoint trim_start (s : jsstring) : jsstring :=
  match s with
  | [] => []
  | c :: s' => if is_white_space c then trim_start s' else s
  end.

Definition trim (s : jsstring) : jsstring := reverse (trim_start (reverse (trim_start s))).

(** ** Dates *)

(** The argument of [safeDateConversion]: [string | number | null | undefined].
    Numbers are epoch milliseconds, taken as integers. *)
Inductive DateInput :=
| DUndefined
| DNull
| DStr (s : jsstring)
| DNum (n : Z).

(** A [Date] object is its time value, or the invalid date. *)
Inductive JsDate :=
| ValidDate (ms : Z)
| InvalidDate.

(** [TimeClip]: time values beyond 8.64e15 ms give the invalid date. *)
Definition TimeClip (n : Z) : JsDate :=
  if (Z.abs n <=? 8640000000000000)%Z then ValidDate n else InvalidDate.

(** ** Errors *)

Inductive Error :=
| TypeError
| ExternalError (message : jsstring).

(** The outcome of an awaited call to a collaborator. *)
Inductive Reply (A : Type) :=
| Resolved (a : A)
| Rejected (e : Error).

Arguments Resolved {A} a.
Arguments Rejected {A} e.

(** ** Source records (WorkOS)

    Each record has the fields the script reads, under their names in the
    source.  A field that may be [null] or [undefined] is an [option]. *)

Module ListMetadata.
Record t := { before : option jsstring; after : option jsstring }.
End ListMetadata.

Module ListResponse.
Record t (A : Type) := { data : list A; listMetadata : option ListMetadata.t }.
Arguments data {A} _.
Arguments listMetadata {A} _.
End ListResponse.

(** The options of a paginated list request. *)
Module ListOptions.
Record t := { limit : nat; before : option jsstring }.
End ListOptions.

Module Organization.
Record t := {
  id : jsstring;
  name : jsstring;
  createdAt : DateInput;
  updatedAt : DateInput
}.
End Organization.

Module WorkOSUser.
Record t := {
  id : jsstring;
  email : jsstring;
  emailVerified : bool;
  firstName : option jsstring;
  lastName : option jsstring;
  profilePictureUrl : option jsstring;
  createdAt : DateInput;
  updatedAt : DateInput
}.
End WorkOSUser.

Module TotpConfiguration.
Record t := { qr_code : jsstring; secret : jsstring }.
End TotpConfiguration.

Module SmsConfiguration.
Record t := { phoneNumber : option jsstring }.
End SmsConfiguration.

Module EmailConfiguration.
Record t := { email : jsstring; hashedPassword : option jsstring }.
End EmailConfiguration.

Module WorkOSAuthFactor.
Record t := {
  id : jsstring;
  type : jsstring;
  createdAt : DateInput;
  updatedAt : DateInput;
  totp_configuration : option TotpConfiguration.t;
  sms_configuration : option SmsConfiguration.t;
  email_configuration : option EmailConfiguration.t
}.
End WorkOSAuthFactor.

(** What [workos.sso.getConnection] resolves to. *)
Module Connection.
Record t := {
  id : jsstring;
  type : jsstring;
  createdAt : DateInput;
  updatedAt : DateInput
}.
End Connection.

Module Role.
Record t := { slug : option jsstring }.
End Role.

Module Membership.
Record t := {
  organizationId : jsstring;
  role : option Role.t;
  createdAt : DateInput;
  updatedAt : DateInput
}.
End Membership.

(** The answer of [listOrganizationMemberships]; the script tests [data]. *)
Module MembershipsResponse.
Record t := { data : option (list Membership.t) }.
End MembershipsResponse.

(** ** Destination records (Better Auth adapter) *)

Inductive Model :=
| organization
| user
| account
| member
| twoFactor.

#[global] Instance Model_eq_dec : EqDecision Model.
Proof. solve_decision. Defined.

Module OrganizationData.
Record t := {
  id : jsstring;
  name : jsstring;
  slug : jsstring;
  createdAt : JsDate;
  updatedAt : JsDate
}.
End OrganizationData.

Module UserData.
Record t := {
  id : jsstring;
  email : jsstring;
  emailVerified : bool;
  name : jsstring;
  image : option jsstring;
  createdAt : JsDate;
  updatedAt : JsDate;
  role : jsstring;
  banned : bool;
  twoFactorEnabled : bool;
  username : option jsstring;
  phoneNumber : option jsstring;
  phoneNumberVerified : bool
}.
End UserData.

Module AccountData.
Record t := {
  userId : jsstring;
  type : jsstring;
  provider : jsstring;
  providerAccountId : jsstring;
  password : option jsstring;
  createdAt : JsDate;
  updatedAt : JsDate
}.
End AccountData.

Module MemberData.
Record t := {
  userId : jsstring;
  organizationId : jsstring;
  role : jsstring;
  createdAt : JsDate;
  updatedAt : JsDate
}.
End MemberData.

Module TwoFactorData.
Record t := {
  userId : jsstring;
  secret : jsstring;
  backupCodes : jsstring
}.
End TwoFactorData.

Inductive Data :=
| OrganizationRow (d : OrganizationData.t)
| UserRow (d : UserData.t)
| AccountRow (d : AccountData.t)
| MemberRow (d : MemberData.t)
| TwoFactorRow (d : TwoFactorData.t).

(** The argument of [ctx.adapter.create]. *)
Module CreateArgs.
Record t := { model : Model; data : Data; forceAllowId : bool }.
End CreateArgs.

(** What [ctx.adapter.create] resolves to; the script reads its [id]. *)
Module Created.
Record t := { id : jsstring }.
End Created.

(** The argument of [symmetricEncrypt]. *)
Module EncryptArgs.
Record t := { data : jsstring; key : jsstring }.
End EncryptArgs.

(** ** The calls the script makes, with their outcomes *)

Inductive Event :=
| EvListOrganizations (options : ListOptions.t) (r : Reply (ListResponse.t Organization.t))
| EvListUsers (options : ListOptions.t) (r : Reply (ListResponse.t WorkOSUser.t))
| EvListAuthFactors (userId : jsstring) (r : Reply (ListResponse.t WorkOSAuthFactor.t))
| EvGetConnection (userId : jsstring) (r : Reply (option Connection.t))
| EvListOrganizationMemberships (userId : jsstring) (r : Reply MembershipsResponse.t)
| EvGetOrganization (organizationId : jsstring) (r : Reply Organization.t)
| EvCreate (args : CreateArgs.t) (r : Reply Created.t)
| EvSymmetricEncrypt (args : EncryptArgs.t) (r : Reply jsstring)
| EvMapSet (key value : jsstring)
| EvMapGet (key : jsstring) (value : option jsstring).

Definition Trace := list Event.

(** ** The collaborators *)

Class Env (W : Type) := {
  (* JavaScript built-ins *)
  toLowerCase : jsstring -> jsstring;
  Date_parse : jsstring -> JsDate;
  Date_now : W -> Z * W;
  JSON_stringify : list jsstring -> jsstring;
  (* better-auth/crypto *)
  generateRandomString : nat -> list jsstring -> W -> jsstring * W;
  symmetricEncrypt : EncryptArgs.t -> W -> Reply jsstring * W;
  (* @workos-inc/node *)
  listOrganizations : ListOptions.t -> W -> Reply (ListResponse.t Organization.t) * W;
  listUsers : ListOptions.t -> W -> Reply (ListResponse.t WorkOSUser.t) * W;
  listAuthFactors : jsstring -> W -> Reply (ListResponse.t WorkOSAuthFactor.t) * W;
  getConnection : jsstring -> W -> Reply (option Connection.t) * W;
  listOrganizationMemberships : jsstring -> W -> Reply MembershipsResponse.t * W;
  getOrganization : jsstring -> W -> Reply Organization.t * W;
  (* ctx.adapter *)
  adapter_create : CreateArgs.t -> W -> Reply Created.t * W
}.

(** ** The local variables of the two functions *)

(** [migrateOrganizations]: [orgMap] is the content of the [Map] object. *)
Module OrgFrame.
Record t := {
  totalOrgs : nat;
  migratedOrgs : nat;
  failedOrgs : nat;
  orgMap : gmap jsstring jsstring;
  hasMoreOrgs : bool;
  before : option jsstring
}.
Definition init : t :=
  {| totalOrgs := 0; migratedOrgs := 0; failedOrgs := 0; orgMap := ∅;
     hasMoreOrgs := true; before := None |}.
Definition set_totalOrgs (v : nat) (f : t) : t :=
  {| totalOrgs := v; migratedOrgs := migratedOrgs f; failedOrgs := failedOrgs f;
     orgMap := orgMap f; hasMoreOrgs := hasMoreOrgs f; before := before f |}.
Definition set_migratedOrgs (v : nat) (f : t) : t :=
  {| totalOrgs := totalOrgs f; migratedOrgs := v; failedOrgs := failedOrgs f;
     orgMap := orgMap f; hasMoreOrgs := hasMoreOrgs f; before := before f |}.
Definition set_failedOrgs (v : nat) (f : t) : t :=
  {| totalOrgs := totalOrgs f; migratedOrgs := migratedOrgs f; failedOrgs := v;
     orgMap := orgMap f; hasMoreOrgs := hasMoreOrgs f; before := before f |}.
Definition set_orgMap (v : gmap jsstring jsstring) (f : t) : t :=
  {| totalOrgs := totalOrgs f; migratedOrgs := migratedOrgs f; failedOrgs := failedOrgs f;
     orgMap := v; hasMoreOrgs := hasMoreOrgs f; before := before f |}.
Definition set_hasMoreOrgs (v : bool) (f : t) : t :=
  {| totalOrgs := totalOrgs f; migratedOrgs := migratedOrgs f; failedOrgs := failedOrgs f;
     orgMap := orgMap f; hasMoreOrgs := v; before := before f |}.
Definition set_before (v : option jsstring) (f : t) : t :=
  {| totalOrgs := totalOrgs f; migratedOrgs := migratedOrgs f; failedOrgs := failedOrgs f;
     orgMap := orgMap f; hasMoreOrgs := hasMoreOrgs f; before := v |}.
End OrgFrame.

(** [migrateFromWorkOS]: [orgMap] is the same [Map] object, returned by
    [migrateOrganizations]. *)
Module UserFrame.
Record t := {
  totalUsers : nat;
  migratedUsers : nat;
  failedUsers : nat;
  orgMap : gmap jsstring jsstring;
  hasMoreUsers : bool;
  before : option jsstring
}.
Definition init (orgMap : gmap jsstring jsstring) : t :=
  {| totalUsers := 0; migratedUsers := 0; failedUsers := 0; orgMap := orgMap;
     hasMoreUsers := true; before := None |}.
Definition set_totalUsers (v : nat) (f : t) : t :=
  {| totalUsers := v; migratedUsers := migratedUsers f; failedUsers := failedUsers f;
     orgMap := orgMap f; hasMoreUsers := hasMoreUsers f; before := before f |}.
Definition set_migratedUsers (v : nat) (f : t) : t :=
  {| totalUsers := totalUsers f; migratedUsers := v; failedUsers := failedUsers f;
     orgMap := orgMap f; hasMoreUsers := hasMoreUsers f; before := before f |}.
Definition set_failedUsers (v : nat) (f : t) : t :=
  {| totalUsers := totalUsers f; migratedUsers := migratedUsers f; failedUsers := v;
     orgMap := orgMap f; hasMoreUsers := hasMoreUsers f; before := before f |}.
Definition set_hasMoreUsers (v : bool) (f : t) : t :=
  {| totalUsers := totalUsers f; migratedUsers := migratedUsers f; failedUsers := failedUsers f;
     orgMap := orgMap f; hasMoreUsers := v; before := before f |}.
Definition set_before (v : option jsstring) (f : t) : t :=
  {| totalUsers := totalUsers f; migratedUsers := migratedUsers f; failedUsers := failedUsers f;
     orgMap := orgMap f; hasMoreUsers := hasMoreUsers f; before := v |}.
End UserFrame.

(** ** The monad of the script *)

Inductive Res (A : Type) :=
| Ok (a : A)
| Throw (e : Error)
| OutOfFuel.

Arguments Ok {A} a.
Arguments Throw {A} e.
Arguments OutOfFuel {A}.

(** How a [while] body ends: at its end, or at a [break]. *)
Inductive Completion :=
| Normal
| Break.

Record Run (W F A : Type) := MkRun {
  res : Res A;
  frame : F;
  world : W;
  trace : Trace
}.

Arguments MkRun {W F A} res frame world trace.
Arguments res {W F A} _.
Arguments frame {W F A} _.
Arguments world {W F A} _.
Arguments trace {W F A} _.

Definition M (W F A : Type) := F -> W -> Run W F A.

Definition of_reply {A} (r : Reply A) : Res A :=
  match r with
  | Resolved a => Ok a
  | Rejected e => Throw e
  end.

Section Monad.
Context {W F : Type}.

Definition ret {A} (a : A) : M W F A := fun f w => MkRun (Ok a) f w [].

Definition throw {A} (e : Error) : M W F A := fun f w => MkRun (Throw e) f w [].

Definition bind {A B} (m : M W F A) (k : A -> M W F B) : M W F B := fun f w =>
  let o := m f w in
  match res o with
  | Ok a =>
      let o' := k a (frame o) (world o) in
      MkRun (res o') (frame o') (world o') (trace o ++ trace o')
  | Throw e => MkRun (Throw e) (frame o) (world o) (trace o)
  | OutOfFuel => MkRun OutOfFuel (frame o) (world o) (trace o)
  end.

(** [try { m } catch (error) { h error }] *)
Definition try_catch {A} (m : M W F A) (h : Error -> M W F A) : M W F A := fun f w =>
  let o := m f w in
  match res o with
  | Throw e =>
      let o' := h e (frame o) (world o) in
      MkRun (res o') (frame o') (world o') (trace o ++ trace o')
  | _ => o
  end.

(** Reading and assigning local variables. *)
Definition gets {A} (p : F -> A) : M W F A := fun f w => MkRun (Ok (p f)) f w [].

Definition modify (g : F -> F) : M W F unit := fun f w => MkRun (Ok tt) (g f) w [].

Definition emit (ev : Event) : M W F unit := fun f w => MkRun (Ok tt) f w [ev].

(** [await op]: a call to a collaborator, recorded in the trace; a rejected
    promise is thrown. *)
Definition await {A} (op : W -> Reply A * W) (ev : Reply A -> Event) : M W F A := fun f w =>
  MkRun (of_reply (op w).1) f (op w).2 [ev (op w).1].

(** A synchronous built-in that reads or advances the world. *)
Definition builtin {A} (op : W -> A * W) : M W F A := fun f w =>
  MkRun (Ok (op w).1) f (op w).2 [].

(** A property access [o.p] where [o] may be [undefined]. *)
Definition member_of {A} (o : option A) : M W F A :=
  match o with
  | Some a => ret a
  | None => throw TypeError
  end.

End Monad.

Notation "x <- m ;; k" := (bind m (fun x => k))
  (at level 100, m at next level, right associativity).
Notation "m ;; k" := (bind m (fun _ => k))
  (at level 100, right associativity).

Section Loops.
Context {W F : Type}.

(** [for (const x of xs) { body x }] *)
Fixpoint for_of {A} (xs : list A) (body : A -> M W F unit) : M W F unit :=
  match xs with
  | [] => ret tt
  | x :: xs' => body x ;; for_of xs' body
  end.

(** [Array.from({ length: n }).fill(null).map(() => m)] *)
Fixpoint map_calls {A} (n : nat) (m : M W F A) : M W F (list A) :=
  match n with
  | 0 => ret []
  | S n' => a <- m ;; rest <- map_calls n' m ;; ret (a :: rest)
  end.

(** [while (cond) { body }], for at most [fuel] iterations. *)
Fixpoint while (fuel : nat) (cond : F -> bool) (body : M W F Completion) : M W F unit :=
  fun f w =>
  if cond f then
    match fuel with
    | 0 => MkRun OutOfFuel f w []
    | S fuel' =>
        (c <- body ;;
         match c with
         | Normal => while fuel' cond body
         | Break => ret tt
         end) f w
    end
  else MkRun (Ok tt) f w [].

End Loops.

(** ** The script *)

Section Script.
Context {W : Type} `{!Env W}.

(** [new Date(date)] *)
Definition new_Date (date : DateInput) : JsDate :=
  match date with
  | DUndefined => InvalidDate
  | DNull => ValidDate 0
  | DStr s => Date_parse s
  | DNum n => TimeClip n
  end.

(** [!date] *)
Definition falsy (date : DateInput) : bool :=
  match date with
  | DUndefined => true
  | DNull => true
  | DStr s => negb (truthy s)
  | DNum n => (n =? 0)%Z
  end.

(** [safeDateConversion], the same in both versions of the script:
    [if (!date) return new Date(); return new Date(date);] *)
Definition safeDateConversion {F} (date : DateInput) : M W F JsDate :=
  if falsy date then now <- builtin Date_now ;; ret (ValidDate now)
  else ret (new_Date date).

(** The constant [backupCodes] of [generateBackupCodes]. *)
Definition backupCodes {F} : M W F (list jsstring) :=
  codes <- map_calls 10 (builtin (generateRandomString 10 [js "a-z"; js "0-9"; js "A-Z"])) ;;
  ret (map (fun code => slice 0 5 code ++ js "-" ++ slice_from 5 code) codes).

Definition generateBackupCodes {F} (secret : jsstring) : M W F jsstring :=
  codes <- backupCodes ;;
  let args := {| EncryptArgs.data := JSON_stringify codes; EncryptArgs.key := secret |} in
  encCodes <- await (symmetricEncrypt args) (EvSymmetricEncrypt args) ;;
  ret encCodes.

Definition limit : nat := 100.

(** [ctx.adapter.create(args)] *)
Definition create {F} (args : CreateArgs.t) : M W F Created.t :=
  await (adapter_create args) (EvCreate args).

(** *** [migrateOrganizations] *)

(** [org.name.toLowerCase().replace(/[^a-z0-9]/g, '-')] *)
Definition slug_of_name (name : jsstring) : jsstring :=
  replace_outside in_a_z0_9 (js "-") (toLowerCase name).

Definition organization_args (org : Organization.t) (createdAt updatedAt : JsDate) : CreateArgs.t :=
  {| CreateArgs.model := organization;
     CreateArgs.data := OrganizationRow
       {| OrganizationData.id := Organization.id org;
          OrganizationData.name := Organization.name org;
          OrganizationData.slug := slug_of_name (Organization.name org);
          OrganizationData.createdAt := createdAt;
          OrganizationData.updatedAt := updatedAt |};
     CreateArgs.forceAllowId := true |}.

(** The body of [for (const org of orgs)]. *)
Definition migrate_organization (org : Organization.t) : M W OrgFrame.t unit :=
  try_catch
    (createdAt <- safeDateConversion (Organization.createdAt org) ;;
     updatedAt <- safeDateConversion (Organization.updatedAt org) ;;
     createdOrg <- create (organization_args org createdAt updatedAt) ;;
     orgMap <- gets OrgFrame.orgMap ;;
     modify (OrgFrame.set_orgMap (<[Organization.id org := Created.id createdOrg]> orgMap)) ;;
     emit (EvMapSet (Organization.id org) (Created.id createdOrg)) ;;
     migratedOrgs <- gets OrgFrame.migratedOrgs ;;
     modify (OrgFrame.set_migratedOrgs (S migratedOrgs)))
    (fun error =>
     failedOrgs <- gets OrgFrame.failedOrgs ;;
     modify (OrgFrame.set_failedOrgs (S failedOrgs))).

(** [response.listMetadata?.before || undefined] *)
Definition next_before {A} (response : ListResponse.t A) : option jsstring :=
  or_undefined (optional_chain (ListResponse.listMetadata response) ListMetadata.before).

(** The body of [while (hasMoreOrgs)]. *)
Definition organizations_page : M W OrgFrame.t Completion :=
  try_catch
    (before <- gets OrgFrame.before ;;
     let options := {| ListOptions.limit := limit; ListOptions.before := before |} in
     response <- await (listOrganizations options) (EvListOrganizations options) ;;
     let orgs := ListResponse.data response in
     modify (OrgFrame.set_before (next_before response)) ;;
     modify (OrgFrame.set_hasMoreOrgs (length orgs =? limit)) ;;
     totalOrgs <- gets OrgFrame.totalOrgs ;;
     modify (OrgFrame.set_totalOrgs (totalOrgs + length orgs)) ;;
     for_of orgs migrate_organization ;;
     ret Normal)
    (fun error => ret Break).

Definition migrateOrganizations_from (fuel : nat) : M W OrgFrame.t (gmap jsstring jsstring) :=
  while fuel OrgFrame.hasMoreOrgs organizations_page ;;
  gets OrgFrame.orgMap.

Definition migrateOrganizations (fuel : nat) (w : W) : Run W OrgFrame.t (gmap jsstring jsstring) :=
  migrateOrganizations_from fuel OrgFrame.init w.

(** *** [migrateFromWorkOS] *)

Definition has_type (type : string) (f : WorkOSAuthFactor.t) : bool :=
  jsstring_eqb (WorkOSAuthFactor.type f) (js type).

(** [`${workosUser.firstName || ''} ${workosUser.lastName || ''}`.trim() || workosUser.email] *)
Definition user_name (workosUser : WorkOSUser.t) : jsstring :=
  let full := trim (or_else (WorkOSUser.firstName workosUser) []
                    ++ js " " ++ or_else (WorkOSUser.lastName workosUser) []) in
  if truthy full then full else WorkOSUser.email workosUser.

Definition user_args (workosUser : WorkOSUser.t) (authFactors : list WorkOSAuthFactor.t)
    (createdAt updatedAt : JsDate) : CreateArgs.t :=
  {| CreateArgs.model := user;
     CreateArgs.data := UserRow
       {| UserData.id := WorkOSUser.id workosUser;
          UserData.email := WorkOSUser.email workosUser;
          UserData.emailVerified := WorkOSUser.emailVerified workosUser;
          UserData.name := user_name workosUser;
          UserData.image := WorkOSUser.profilePictureUrl workosUser;
          UserData.createdAt := createdAt;
          UserData.updatedAt := updatedAt;
          UserData.role := js "user";
          UserData.banned := false;
          UserData.twoFactorEnabled := existsb (has_type "totp") authFactors;
          UserData.username := split at_sign (WorkOSUser.email workosUser) !! 0;
          UserData.phoneNumber :=
            optional_chain
              (optional_chain (List.find (has_type "sms") authFactors)
                              WorkOSAuthFactor.sms_configuration)
              SmsConfiguration.phoneNumber;
          UserData.phoneNumberVerified :=
            bool_decide (is_Some (List.find (has_type "sms") authFactors)) |};
     CreateArgs.forceAllowId := true |}.

(** "Create credential account for email/password users" *)
Definition create_credentials_account (workosUser : WorkOSUser.t)
    (authFactors : list WorkOSAuthFactor.t) (createdUser : Created.t) : M W UserFrame.t unit :=
  let emailFactor :=
    List.find (fun f => has_type "email" f
                        && bool_decide (is_Some (WorkOSAuthFactor.email_configuration f)))
              authFactors in
  match emailFactor with
  | Some emailFactor =>
      email_configuration <- member_of (WorkOSAuthFactor.email_configuration emailFactor) ;;
      createdAt <- safeDateConversion (WorkOSAuthFactor.createdAt emailFactor) ;;
      updatedAt <- safeDateConversion (WorkOSAuthFactor.updatedAt emailFactor) ;;
      create
        {| CreateArgs.model := account;
           CreateArgs.data := AccountRow
             {| AccountData.userId := Created.id createdUser;
                AccountData.type := js "credentials";
                AccountData.provider := js "credentials";
                AccountData.providerAccountId := WorkOSUser.id workosUser;
                AccountData.password := EmailConfiguration.hashedPassword email_configuration;
                AccountData.createdAt := createdAt;
                AccountData.updatedAt := updatedAt |};
           CreateArgs.forceAllowId := true |} ;;
      ret tt
  | None => ret tt
  end.

(** "Create OAuth provider accounts" *)
Definition create_oauth_account (workosUser : WorkOSUser.t) (createdUser : Created.t)
    : M W UserFrame.t unit :=
  try_catch
    (connection <- await (getConnection (WorkOSUser.id workosUser))
                         (EvGetConnection (WorkOSUser.id workosUser)) ;;
     match connection with
     | Some connection =>
         let provider := toLowerCase (Connection.type connection) in
         createdAt <- safeDateConversion (Connection.createdAt connection) ;;
         updatedAt <- safeDateConversion (Connection.updatedAt connection) ;;
         create
           {| CreateArgs.model := account;
              CreateArgs.data := AccountRow
                {| AccountData.userId := Created.id createdUser;
                   AccountData.type := js "oauth";
                   AccountData.provider := provider;
                   AccountData.providerAccountId := Connection.id connection;
                   AccountData.password := None;
                   AccountData.createdAt := createdAt;
                   AccountData.updatedAt := updatedAt |};
              CreateArgs.forceAllowId := true |} ;;
         ret tt
     | None => ret tt
     end)
    (fun error => ret tt).

(** [membership.role.slug || "member"]; reading [slug] of an absent [role]
    throws. *)
Definition role_of {F} (membership : Membership.t) : M W F jsstring :=
  role <- member_of (Membership.role membership) ;;
  ret (or_else (Role.slug role) (js "member")).

Definition member_args (createdUser : Created.t) (orgId role : jsstring)
    (createdAt updatedAt : JsDate) : CreateArgs.t :=
  {| CreateArgs.model := member;
     CreateArgs.data := MemberRow
       {| MemberData.userId := Created.id createdUser;
          MemberData.organizationId := orgId;
          MemberData.role := role;
          MemberData.createdAt := createdAt;
          MemberData.updatedAt := updatedAt |};
     CreateArgs.forceAllowId := true |}.

(** The body of [for (const membership of membershipsResponse.data)]. *)
Definition migrate_membership (createdUser : Created.t) (membership : Membership.t)
    : M W UserFrame.t unit :=
  orgMap <- gets UserFrame.orgMap ;;
  let orgId := orgMap !! Membership.organizationId membership in
  emit (EvMapGet (Membership.organizationId membership) orgId) ;;
  match orgId with
  | Some orgId =>
      if truthy orgId then
        org <- await (getOrganization (Membership.organizationId membership))
                     (EvGetOrganization (Membership.organizationId membership)) ;;
        role <- role_of membership ;;
        createdAt <- safeDateConversion (Membership.createdAt membership) ;;
        updatedAt <- safeDateConversion (Membership.updatedAt membership) ;;
        create (member_args createdUser orgId role createdAt updatedAt) ;;
        ret tt
      else ret tt
  | None => ret tt
  end.

(** "Create organization memberships" *)
Definition create_memberships (workosUser : WorkOSUser.t) (createdUser : Created.t)
    : M W UserFrame.t unit :=
  try_catch
    (membershipsResponse <-
       await (listOrganizationMemberships (WorkOSUser.id workosUser))
             (EvListOrganizationMemberships (WorkOSUser.id workosUser)) ;;
     match MembershipsResponse.data membershipsResponse with
     | Some memberships => for_of memberships (migrate_membership createdUser)
     | None => ret tt
     end)
    (fun error => ret tt).

(** The body of [for (const factor of authFactors)], "Handle 2FA settings". *)
Definition migrate_factor (createdUser : Created.t) (factor : WorkOSAuthFactor.t)
    : M W UserFrame.t unit :=
  if has_type "totp" factor then
    match WorkOSAuthFactor.totp_configuration factor with
    | Some totp_configuration =>
        codes <- generateBackupCodes (TotpConfiguration.secret totp_configuration) ;;
        create
          {| CreateArgs.model := twoFactor;
             CreateArgs.data := TwoFactorRow
               {| TwoFactorData.userId := Created.id createdUser;
                  TwoFactorData.secret := TotpConfiguration.secret totp_configuration;
                  TwoFactorData.backupCodes := codes |};
             CreateArgs.forceAllowId := true |} ;;
        ret tt
    | None => ret tt
    end
  else ret tt.

(** The rest of the [try] block of a user, once the user row is created. *)
Definition after_user_row (workosUser : WorkOSUser.t) (authFactors : list WorkOSAuthFactor.t)
    (createdUser : Created.t) : M W UserFrame.t unit :=
  create_credentials_account workosUser authFactors createdUser ;;
  create_oauth_account workosUser createdUser ;;
  create_memberships workosUser createdUser ;;
  for_of authFactors (migrate_factor createdUser) ;;
  migratedUsers <- gets UserFrame.migratedUsers ;;
  modify (UserFrame.set_migratedUsers (S migratedUsers)).

(** The [try] block of [for (const workosUser of workosUsers)]. *)
Definition process_user (workosUser : WorkOSUser.t) : M W UserFrame.t unit :=
  authFactorsResponse <- await (listAuthFactors (WorkOSUser.id workosUser))
                               (EvListAuthFactors (WorkOSUser.id workosUser)) ;;
  let authFactors := ListResponse.data authFactorsResponse in
  createdAt <- safeDateConversion (WorkOSUser.createdAt workosUser) ;;
  updatedAt <- safeDateConversion (WorkOSUser.updatedAt workosUser) ;;
  createdUser <- create (user_args workosUser authFactors createdAt updatedAt) ;;
  after_user_row workosUser authFactors createdUser.

(** The body of [for (const workosUser of workosUsers)]. *)
Definition migrate_user (workosUser : WorkOSUser.t) : M W UserFrame.t unit :=
  try_catch
    (process_user workosUser)
    (fun error =>
     failedUsers <- gets UserFrame.failedUsers ;;
     modify (UserFrame.set_failedUsers (S failedUsers))).

(** The body of [while (hasMoreUsers)]. *)
Definition users_page : M W UserFrame.t Completion :=
  try_catch
    (before <- gets UserFrame.before ;;
     let options := {| ListOptions.limit := limit; ListOptions.before := before |} in
     response <- await (listUsers options) (EvListUsers options) ;;
     let workosUsers := ListResponse.data response in
     modify (UserFrame.set_before (next_before response)) ;;
     modify (UserFrame.set_hasMoreUsers (length workosUsers =? limit)) ;;
     totalUsers <- gets UserFrame.totalUsers ;;
     modify (UserFrame.set_totalUsers (totalUsers + length workosUsers)) ;;
     for_of workosUsers migrate_user ;;
     ret Normal)
    (fun error => ret Break).

(** The user phase: the [while] loop of [migrateFromWorkOS]. *)
Definition migrateUsers (fuel : nat) : M W UserFrame.t unit :=
  while fuel UserFrame.hasMoreUsers users_page.

(** [migrateFromWorkOS]: the organization phase, then the user phase.  The
    final frame holds the counters of the summary. *)
Definition migrateFromWorkOS (fuel : nat) (w : W) : Run W UserFrame.t unit :=
  let o := migrateOrganizations fuel w in
  match res o with
  | Ok orgMap =>
      let o' := migrateUsers fuel (UserFrame.init orgMap) (world o) in
      MkRun (res o') (frame o') (world o') (trace o ++ trace o')
  | Throw e => MkRun (Throw e) (UserFrame.init ∅) (world o) (trace o)
  | OutOfFuel => MkRun OutOfFuel (UserFrame.init ∅) (world o) (trace o)
  end.

End Script.

(** ** The earlier version of the script

    The first version of [migrateFromWorkOS] has no organization phase and
    creates neither accounts nor memberships; it reads the cursor of a page
    without guarding against an absent [listMetadata].  Its
    [safeDateConversion], its [generateBackupCodes] and its user row are
    those of the current version. *)

Module EarlierFrame.
Record t := {
  totalUsers : nat;
  migratedUsers : nat;
  failedUsers : nat;
  hasMoreUsers : bool;
  before : option jsstring
}.
Definition init : t :=
  {| totalUsers := 0; migratedUsers := 0; failedUsers := 0;
     hasMoreUsers := true; before := None |}.
Definition set_totalUsers (v : nat) (f : t) : t :=
  {| totalUsers := v; migratedUsers := migratedUsers f; failedUsers := failedUsers f;
     hasMoreUsers := hasMoreUsers f; before := before f |}.
Definition set_migratedUsers (v : nat) (f : t) : t :=
  {| totalUsers := totalUsers f; migratedUsers := v; failedUsers := failedUsers f;
     hasMoreUsers := hasMoreUsers f; before := before f |}.
Definition set_failedUsers (v : nat) (f : t) : t :=
  {| totalUsers := totalUsers f; migratedUsers := migratedUsers f; failedUsers := v;
     hasMoreUsers := hasMoreUsers f; before := before f |}.
Definition set_hasMoreUsers (v : bool) (f : t) : t :=
  {| totalUsers := totalUsers f; migratedUsers := migratedUsers f; failedUsers := failedUsers f;
     hasMoreUsers := v; before := before f |}.
Definition set_before (v : option jsstring) (f : t) : t :=
  {| totalUsers := totalUsers f; migratedUsers := migratedUsers f; failedUsers := failedUsers f;
     hasMoreUsers := hasMoreUsers f; before := v |}.
End EarlierFrame.

Module Earlier.
Section EarlierScript.
Context {W : Type} `{!Env W}.

(** [response.listMetadata.before || undefined]: reading [before] of an
    absent [listMetadata] throws. *)
Definition next_before {A F} (response : ListResponse.t A) : M W F (option jsstring) :=
  listMetadata <- member_of (ListResponse.listMetadata response) ;;
  ret (or_undefined (ListMetadata.before listMetadata)).

(** The body of [for (const factor of authFactors)]. *)
Definition migrate_factor (createdUser : Created.t) (factor : WorkOSAuthFactor.t)
    : M W EarlierFrame.t unit :=
  if has_type "totp" factor then
    match WorkOSAuthFactor.totp_configuration factor with
    | Some totp_configuration =>
        codes <- generateBackupCodes (TotpConfiguration.secret totp_configuration) ;;
        create
          {| CreateArgs.model := twoFactor;
             CreateArgs.data := TwoFactorRow
               {| TwoFactorData.userId := Created.id createdUser;
                  TwoFactorData.secret := TotpConfiguration.secret totp_configuration;
                  TwoFactorData.backupCodes := codes |};
             CreateArgs.forceAllowId := true |} ;;
        ret tt
    | None => ret tt
    end
  else ret tt.

(** The [try] block of [for (const workosUser of workosUsers)]. *)
Definition process_user (workosUser : WorkOSUser.t) : M W EarlierFrame.t unit :=
  authFactorsResponse <- await (listAuthFactors (WorkOSUser.id workosUser))
                               (EvListAuthFactors (WorkOSUser.id workosUser)) ;;
  let authFactors := ListResponse.data authFactorsResponse in
  createdAt <- safeDateConversion (WorkOSUser.createdAt workosUser) ;;
  updatedAt <- safeDateConversion (WorkOSUser.updatedAt workosUser) ;;
  createdUser <- create (user_args workosUser authFactors createdAt updatedAt) ;;
  for_of authFactors (migrate_factor createdUser) ;;
  migratedUsers <- gets EarlierFrame.migratedUsers ;;
  modify (EarlierFrame.set_migratedUsers (S migratedUsers)).

(** The body of [for (const workosUser of workosUsers)]. *)
Definition migrate_user (workosUser : WorkOSUser.t) : M W EarlierFrame.t unit :=
  try_catch
    (process_user workosUser)
    (fun error =>
     failedUsers <- gets EarlierFrame.failedUsers ;;
     modify (EarlierFrame.set_failedUsers (S failedUsers))).

(** The body of [while (hasMoreUsers)]. *)
Definition users_page : M W EarlierFrame.t Completion :=
  try_catch
    (before <- gets EarlierFrame.before ;;
     let options := {| ListOptions.limit := limit; ListOptions.before := before |} in
     response <- await (listUsers options) (EvListUsers options) ;;
     let workosUsers := ListResponse.data response in
     before <- next_before response ;;
     modify (EarlierFrame.set_before before) ;;
     modify (EarlierFrame.set_hasMoreUsers (length workosUsers =? limit)) ;;
     totalUsers <- gets EarlierFrame.totalUsers ;;
     modify (EarlierFrame.set_totalUsers (totalUsers + length workosUsers)) ;;
     for_of workosUsers migrate_user ;;
     ret Normal)
    (fun error => ret Break).

(** [migrateFromWorkOS]; the final frame holds the counters of the summary. *)
Definition migrateFromWorkOS (fuel : nat) (w : W) : Run W EarlierFrame.t unit :=
  while fuel EarlierFrame.hasMoreUsers users_page EarlierFrame.init w.

End EarlierScript.
End Earlier.

(** ** Reading a trace *)

(** The outcome of a page request for organizations: the length of the page,
    or [None] when the request was rejected. *)
Definition org_fetch (ev : Event) : option (option nat) :=
  match ev with
  | EvListOrganizations _ (Resolved response) => Some (Some (length (ListResponse.data response)))
  | EvListOrganizations _ (Rejected _) => Some None
  | _ => None
  end.

Definition user_fetch (ev : Event) : option (option nat) :=
  match ev with
  | EvListUsers _ (Resolved response) => Some (Some (length (ListResponse.data response)))
  | EvListUsers _ (Rejected _) => Some None
  | _ => None
  end.

(** The page requests of a trace, in order, with their outcomes. *)
Definition org_fetches (t : Trace) : list (option nat) := omap org_fetch t.

Definition user_fetches (t : Trace) : list (option nat) := omap user_fetch t.

(** The rows of a given model that the adapter accepted. *)
Definition created_row (m : Model) (ev : Event) : option Data :=
  match ev with
  | EvCreate args (Resolved _) =>
      if bool_decide (CreateArgs.model args = m) then Some (CreateArgs.data args) else None
  | _ => None
  end.

Definition created_rows (m : Model) (t : Trace) : list Data := omap (created_row m) t.

Definition is_map_set (ev : Event) : bool :=
  match ev with
  | EvMapSet _ _ => true
  | _ => false
  end.

Definition is_map_get (ev : Event) : bool :=
  match ev with
  | EvMapGet _ _ => true
  | _ => false
  end.

(** The pattern [[A-Za-z0-9]{5}-[A-Za-z0-9]{5}], anchored at both ends. *)
Definition matches_code_pattern (code : jsstring) : bool :=
  match code with
  | [c1; c2; c3; c4; c5; h; d1; d2; d3; d4; d5] =>
      forallb is_alnum [c1; c2; c3; c4; c5] && (h =? hyphen)%N
      && forallb is_alnum [d1; d2; d3; d4; d5]
  | _ => false
  end.

(** What the script relies on from [generateRandomString] of
    better-auth/crypto: a string of the requested length over the requested
    alphabets. *)
Definition generateRandomString_contract {W} `{!Env W} : Prop :=
  forall (n : nat) (w : W),
    let s := (generateRandomString n [js "a-z"; js "0-9"; js "A-Z"] w).1 in
    length s = n /\ Forall (fun c => is_alnum c = true) s.

(** The rows of a given model that the adapter rejected. *)
Definition rejected_row (m : Model) (ev : Event) : option Data :=
  match ev with
  | EvCreate args (Rejected _) =>
      if bool_decide (CreateArgs.model args = m) then Some (CreateArgs.data args) else None
  | _ => None
  end.

Definition rejected_rows (m : Model) (t : Trace) : list Data := omap (rejected_row m) t.

(** What a page request asked for, with the cursor that its answer gives
    for the next request, or [None] when it was rejected. *)
Definition org_request (ev : Event) : option (ListOptions.t * option (option jsstring)) :=
  match ev with
  | EvListOrganizations options (Resolved response) => Some (options, Some (next_before response))
  | EvListOrganizations options (Rejected _) => Some (options, None)
  | _ => None
  end.

Definition user_request (ev : Event) : option (ListOptions.t * option (option jsstring)) :=
  match ev with
  | EvListUsers options (Resolved response) => Some (options, Some (next_before response))
  | EvListUsers options (Rejected _) => Some (options, None)
  | _ => None
  end.

(** What an accepted organization row makes of a [Map] from source ids to
    destination ids, and what the rows of a trace make of it, in order. *)
Definition map_step (m : gmap jsstring jsstring) (ev : Event) : gmap jsstring jsstring :=
  match ev with
  | EvCreate args (Resolved created) =>
      match CreateArgs.data args with
      | OrganizationRow d => <[OrganizationData.id d := Created.id created]> m
      | _ => m
      end
  | _ => m
  end.

Definition map_after (m : gmap jsstring jsstring) (t : Trace) : gmap jsstring jsstring :=
  foldl map_step m t.

(** The user that an account, member or two-factor row belongs to. *)
Definition row_userId (d : Data) : option jsstring :=
  match d with
  | AccountRow d => Some (AccountData.userId d)
  | MemberRow d => Some (MemberData.userId d)
  | TwoFactorRow d => Some (TwoFactorData.userId d)
  | _ => None
  end.

(** The rejected calls that no [try] inside the [try] block of a user
    catches: the fetch of the factors, the user row, the credentials
    account, the encryption of the backup codes and the two-factor rows. *)
Definition fatal (ev : Event) : bool :=
  match ev with
  | EvListAuthFactors _ (Rejected _) => true
  | EvSymmetricEncrypt _ (Rejected _) => true
  | EvCreate args (Rejected _) =>
      match CreateArgs.data args with
      | UserRow _ => true
      | TwoFactorRow _ => true
      | AccountRow d => jsstring_eqb (AccountData.type d) (js "credentials")
      | _ => false
      end
  | _ => false
  end.

(** ** Stating properties of runs *)

(** A property of traces that holds of the empty trace and is kept by
    concatenation holds of every run built from pieces that have it. *)
Class Monoidal (Q : Trace -> Prop) := {
  monoidal_nil : Q [];
  monoidal_app : forall t1 t2, Q t1 -> Q t2 -> Q (t1 ++ t2)
}.

(** Every run of [m] leaves a trace that has [Q]. *)
Definition emits {W F A} (Q : Trace -> Prop) (m : M W F A) : Prop :=
  forall f w, Q (trace (m f w)).

(** A computation keeps [R] when it relates the frame it starts from to the
    one it ends in, and never runs out of fuel. *)
Definition keeps {W F A} (R : relation F) (m : M W F A) : Prop :=
  forall f w, R f (frame (m f w)) /\ res (m f w) <> OutOfFuel.

(** What one iteration of a pagination loop does: it starts with the page
    request and makes no other; a rejected request ends the loop at once; a
    page of [n] records adds [n] to the total and asks for another page
    exactly when [n] is the page size. *)
Definition page_spec {W F} (hasMore : F -> bool) (total : F -> nat)
    (fetch : Event -> option (option nat)) (page : M W F Completion) : Prop :=
  forall f w,
    let o := page f w in
    exists ev t,
      trace o = ev :: t /\ omap fetch t = [] /\
      match fetch ev with
      | Some None => res o = Ok Break /\ t = [] /\ frame o = f
      | Some (Some n) =>
          res o = Ok Normal /\ hasMore (frame o) = (n =? limit) /\
          total (frame o) = total f + n
      | None => False
      end.

(** The calls that [migrate_organization org] can make. *)
Definition organization_event {W} `{!Env W} (org : Organization.t) (ev : Event) : Prop :=
  match ev with
  | EvCreate args _ => exists createdAt updatedAt, args = organization_args org createdAt updatedAt
  | EvMapSet key _ => key = Organization.id org
  | _ => False
  end.

(** The calls that the script can make for a user after the user row. *)
Definition association_event (workosUser : WorkOSUser.t) (ev : Event) : Prop :=
  match ev with
  | EvGetConnection userId _ => userId = WorkOSUser.id workosUser
  | EvListOrganizationMemberships userId _ => userId = WorkOSUser.id workosUser
  | EvGetOrganization _ _ => True
  | EvMapGet _ _ => True
  | EvSymmetricEncrypt _ _ => True
  | EvCreate args _ =>
      CreateArgs.forceAllowId args = true /\
      (CreateArgs.model args = account \/ CreateArgs.model args = member
       \/ CreateArgs.model args = twoFactor)
  | _ => False
  end.

(** The calls that [migrate_user workosUser] can make. *)
Definition user_event (workosUser : WorkOSUser.t) (ev : Event) : Prop :=
  match ev with
  | EvListAuthFactors userId _ => userId = WorkOSUser.id workosUser
  | EvCreate args _ =>
      (exists authFactors createdAt updatedAt,
         args = user_args workosUser authFactors createdAt updatedAt)
      \/ association_event workosUser ev
  | _ => association_event workosUser ev
  end.

(** The events of the organization phase. *)
Definition is_org_phase_event (ev : Event) : bool :=
  match ev with
  | EvListOrganizations _ _ => true
  | EvMapSet _ _ => true
  | EvCreate args _ => bool_decide (CreateArgs.model args = organization)
  | _ => false
  end.

(** An event that records a rejected call: an exception is raised. *)
Definition raised (ev : Event) : bool :=
  match ev with
  | EvListOrganizations _ (Rejected _) => true
  | EvListUsers _ (Rejected _) => true
  | EvListAuthFactors _ (Rejected _) => true
  | EvGetConnection _ (Rejected _) => true
  | EvListOrganizationMemberships _ (Rejected _) => true
  | EvGetOrganization _ (Rejected _) => true
  | EvCreate _ (Rejected _) => true
  | EvSymmetricEncrypt _ (Rejected _) => true
  | _ => false
  end.

(** The fields of the organization frame that drive the pagination. *)
Definition same_org_page (f f' : OrgFrame.t) : Prop :=
  OrgFrame.totalOrgs f' = OrgFrame.totalOrgs f /\
  OrgFrame.hasMoreOrgs f' = OrgFrame.hasMoreOrgs f /\
  OrgFrame.before f' = OrgFrame.before f.

(** The fields of the user frame that the processing of users leaves alone. *)
Definition same_user_page (f f' : UserFrame.t) : Prop :=
  UserFrame.totalUsers f' = UserFrame.totalUsers f /\
  UserFrame.hasMoreUsers f' = UserFrame.hasMoreUsers f /\
  UserFrame.before f' = UserFrame.before f /\
  UserFrame.orgMap f' = UserFrame.orgMap f.

(** How the [try] block of a user ends: normally with [migratedUsers]
    incremented, or by an exception with the local variables as they were. *)
Definition user_try_post (f : UserFrame.t) (r : Res unit) (f' : UserFrame.t) : Prop :=
  match r with
  | Ok _ => f' = UserFrame.set_migratedUsers (S (UserFrame.migratedUsers f)) f
  | Throw _ => f' = f
  | OutOfFuel => False
  end.

(** Every row of a kind [is_row] that the trace asks the adapter to create
    is justified by what precedes the request. *)
Definition rows_justified (is_row : CreateArgs.t -> Prop)
    (just : Trace -> CreateArgs.t -> Prop) (t : Trace) : Prop :=
  forall t1 args r t2, t = t1 ++ EvCreate args r :: t2 -> is_row args -> just t1 args.

Definition is_user_row (args : CreateArgs.t) : Prop := CreateArgs.model args = user.

Definition is_organization_row (args : CreateArgs.t) : Prop :=
  CreateArgs.model args = organization.

(** A user row is justified within its page when the request follows at once
    the resolved fetch of the factors of a user of the page, from whom and
    from which it is built. *)
Definition user_row_in_page (workosUsers : list WorkOSUser.t)
    (t1 : Trace) (args : CreateArgs.t) : Prop :=
  exists workosUser response createdAt updatedAt t0,
    args = user_args workosUser (ListResponse.data response) createdAt updatedAt /\
    t1 = t0 ++ [EvListAuthFactors (WorkOSUser.id workosUser) (Resolved response)] /\
    workosUser ∈ workosUsers.

(** The same within a run: the user is in a page that was fetched before. *)
Definition user_row_in_run (t1 : Trace) (args : CreateArgs.t) : Prop :=
  exists workosUser response createdAt updatedAt options page ta tb,
    args = user_args workosUser (ListResponse.data response) createdAt updatedAt /\
    t1 = ta ++ EvListUsers options (Resolved page)
            :: tb ++ [EvListAuthFactors (WorkOSUser.id workosUser) (Resolved response)] /\
    workosUser ∈ ListResponse.data page.

(** An organization row is justified when it is built from an organization
    of a page that was fetched before. *)
Definition organization_row_in_page {W} `{!Env W} (orgs : list Organization.t)
    (t1 : Trace) (args : CreateArgs.t) : Prop :=
  exists org createdAt updatedAt,
    args = organization_args org createdAt updatedAt /\ org ∈ orgs.

Definition organization_row_in_run {W} `{!Env W} (t1 : Trace) (args : CreateArgs.t) : Prop :=
  exists org createdAt updatedAt options page ta tb,
    args = organization_args org createdAt updatedAt /\
    t1 = ta ++ EvListOrganizations options (Resolved page) :: tb /\
    org ∈ ListResponse.data page.




(** The second: whenever an exception is raised while a user is processed,
    the failure counter is incremented. *)
Definition every_exception_counts {W} `{!Env W} (workosUser : WorkOSUser.t)
    (f : UserFrame.t) (w : W) : Prop :=
  existsb raised (trace (migrate_user workosUser f w)) = true ->
  UserFrame.failedUsers (frame (migrate_user workosUser f w)) = S (UserFrame.failedUsers f).

(** A relation between the frame a computation starts from, its trace and
    the frame it ends in, that holds of doing nothing and is kept by
    sequencing, holds of every run built from pieces that have it. *)
Class Composable {F} (R : F -> Trace -> F -> Prop) := {
  composable_nil : forall f, R f [] f;
  composable_app : forall f t1 f1 t2 f2, R f t1 f1 -> R f1 t2 f2 -> R f (t1 ++ t2) f2
}.

(** Every run of [m] relates its frames and its trace by [R]. *)
Definition runs {W F A} (R : F -> Trace -> F -> Prop) (m : M W F A) : Prop :=
  forall f w, R f (trace (m f w)) (frame (m f w)).

(** The counters of the organization phase add up. *)
Definition counted_orgs (f : OrgFrame.t) : Prop :=
  OrgFrame.totalOrgs f = OrgFrame.migratedOrgs f + OrgFrame.failedOrgs f.

(** The [Map] follows the accepted organization rows. *)
Definition replays (f : OrgFrame.t) (t : Trace) (f' : OrgFrame.t) : Prop :=
  OrgFrame.orgMap f' = map_after (OrgFrame.orgMap f) t.

(** The [Map] grows by at most one entry for each migrated organization. *)
Definition grows (f : OrgFrame.t) (t : Trace) (f' : OrgFrame.t) : Prop :=
  size (OrgFrame.orgMap f') + OrgFrame.migratedOrgs f
  <= size (OrgFrame.orgMap f) + OrgFrame.migratedOrgs f'.

(** The counters of [migrateOrganizations] count the organization rows. *)
Definition counts_org_rows (f : OrgFrame.t) (t : Trace) (f' : OrgFrame.t) : Prop :=
  OrgFrame.migratedOrgs f' = OrgFrame.migratedOrgs f + length (created_rows organization t) /\
  OrgFrame.failedOrgs f' = OrgFrame.failedOrgs f + length (rejected_rows organization t).

(** The counters of [migrateFromWorkOS] bound the accepted user rows. *)
Definition bounds_user_rows (f : UserFrame.t) (t : Trace) (f' : UserFrame.t) : Prop :=
  UserFrame.migratedUsers f' <= UserFrame.migratedUsers f + length (created_rows user t) /\
  length (created_rows user t) + UserFrame.migratedUsers f + UserFrame.failedUsers f
  <= UserFrame.migratedUsers f' + UserFrame.failedUsers f'.

(** How an event of the user phase depends on the [Map]: a [get] answers
    what the map holds, an organization is looked up only when the map
    sends it to a non-empty destination id, and a member row carries such a
    destination id. *)
Definition uses_map (orgMap : gmap jsstring jsstring) (ev : Event) : Prop :=
  match ev with
  | EvMapGet key value => value = orgMap !! key
  | EvGetOrganization organizationId _ =>
      exists orgId, orgMap !! organizationId = Some orgId /\ truthy orgId = true
  | EvCreate args _ =>
      forall d, CreateArgs.data args = MemberRow d ->
        truthy (MemberData.organizationId d) = true /\
        exists organizationId, orgMap !! organizationId = Some (MemberData.organizationId d)
  | _ => True
  end.

Definition follows_map (f : UserFrame.t) (t : Trace) (f' : UserFrame.t) : Prop :=
  UserFrame.orgMap f' = UserFrame.orgMap f /\ Forall (uses_map (UserFrame.orgMap f)) t.

(** The requests of a pagination loop that starts with the cursor [before]:
    each one asks for [limit] records before the cursor that the answer to
    the previous one gave, and none follows a rejected one. *)
Fixpoint cursor_chain (before : option jsstring)
    (requests : list (ListOptions.t * option (option jsstring))) : Prop :=
  match requests with
  | [] => True
  | (options, next) :: requests' =>
      options = {| ListOptions.limit := limit; ListOptions.before := before |} /\
      match next with
      | Some before' => cursor_chain before' requests'
      | None => requests' = []
      end
  end.

(** What one iteration of a pagination loop does with the cursor. *)
Definition cursor_spec {W F} (before : F -> option jsstring)
    (request : Event -> option (ListOptions.t * option (option jsstring)))
    (page : M W F Completion) : Prop :=
  forall f w,
    let o := page f w in
    exists ev t next,
      trace o = ev :: t /\ omap request t = [] /\
      request ev = Some ({| ListOptions.limit := limit; ListOptions.before := before f |}, next) /\
      match next with
      | Some before' => before (frame o) = before'
      | None => res o = Ok Break
      end.

(** A run that ends normally without a fatal event, or by an exception at
    its first fatal event. *)
Definition stops_at_fatal {W F A} (o : Run W F A) : Prop :=
  match res o with
  | Ok _ => Forall (fun ev => fatal ev = false) (trace o)
  | Throw _ =>
      exists t ev,
        trace o = t ++ [ev] /\ fatal ev = true /\ Forall (fun ev => fatal ev = false) t
  | OutOfFuel => False
  end.

Definition ends_at_fatal {W F A} (m : M W F A) : Prop :=
  forall f w, stops_at_fatal (m f w).

(** The account row of a user for a provider. *)
Definition account_args (createdUser : Created.t) (type provider providerAccountId : jsstring)
    (password : option jsstring) (createdAt updatedAt : JsDate) : CreateArgs.t :=
  {| CreateArgs.model := account;
     CreateArgs.data := AccountRow
       {| AccountData.userId := Created.id createdUser;
          AccountData.type := type;
          AccountData.provider := provider;
          AccountData.providerAccountId := providerAccountId;
          AccountData.password := password;
          AccountData.createdAt := createdAt;
          AccountData.updatedAt := updatedAt |};
     CreateArgs.forceAllowId := true |}.

(** [f.type === "email" && f.email_configuration] *)
Definition has_email_configuration (factor : WorkOSAuthFactor.t) : bool :=
  has_type "email" factor
  && bool_decide (is_Some (WorkOSAuthFactor.email_configuration factor)).



Definition is_association_row (args : CreateArgs.t) : Prop :=
  CreateArgs.model args = account \/ CreateArgs.model args = member
  \/ CreateArgs.model args = twoFactor.

(** The calls that the script can make for a user once the adapter has
    answered [createdUser] for the user row. *)
Definition association_event_of (createdUser : Created.t) (ev : Event) : Prop :=
  match ev with
  | EvCreate args _ =>
      is_association_row args /\ CreateArgs.forceAllowId args = true /\
      row_userId (CreateArgs.data args) = Some (Created.id createdUser)
  | _ => True
  end.

(** An account, member or two-factor row is justified when the last user
    row requested before it was accepted, and the row carries the id that
    the adapter returned for it. *)
Definition association_row_in_run (t1 : Trace) (args : CreateArgs.t) : Prop :=
  exists workosUser authFactors createdAt updatedAt createdUser ta tb,
    t1 = ta ++ EvCreate (user_args workosUser authFactors createdAt updatedAt)
                        (Resolved createdUser) :: tb /\
    Forall (fun ev => forall a r, ev = EvCreate a r -> ~ is_user_row a) tb /\
    row_userId (CreateArgs.data args) = Some (Created.id createdUser) /\
    CreateArgs.forceAllowId args = true.

(** Two code units that the slug cannot tell apart. *)
Definition same_in_slug (c1 c2 : code_unit) : Prop :=
  c1 = c2 \/ (in_a_z0_9 c1 = false /\ in_a_z0_9 c2 = false).

(** The calls that the earlier version makes. *)
Definition earlier_event (ev : Event) : Prop :=
  match ev with
  | EvListUsers options _ => ListOptions.limit options = limit
  | EvListAuthFactors _ _ => True
  | EvSymmetricEncrypt _ _ => True
  | EvCreate args _ =>
      CreateArgs.forceAllowId args = true /\
      (CreateArgs.model args = user \/ CreateArgs.model args = twoFactor)
  | _ => False
  end.

(** The fields of the frame of the earlier version that the processing of
    users leaves alone. *)
Definition earlier_same_page (f f' : EarlierFrame.t) : Prop :=
  EarlierFrame.totalUsers f' = EarlierFrame.totalUsers f /\
  EarlierFrame.hasMoreUsers f' = EarlierFrame.hasMoreUsers f /\
  EarlierFrame.before f' = EarlierFrame.before f.

(** How the [try] block of a user ends in the earlier version. *)
Definition earlier_try_post (f : EarlierFrame.t) (r : Res unit) (f' : EarlierFrame.t) : Prop :=
  match r with
  | Ok _ => f' = EarlierFrame.set_migratedUsers (S (EarlierFrame.migratedUsers f)) f
  | Throw _ => f' = f
  | OutOfFuel => False
  end.

(** ** A scripted environment, to run the script on concrete inputs

    The world counts the page requests made so far and holds a clock and a
    seed; a scenario fixes what the source and the adapter answer. *)

Module Demo.

Record World := {
  clock : Z;
  org_calls : nat;
  user_calls : nat;
  seed : nat
}.

Definition start : World := {| clock := 1000; org_calls := 0; user_calls := 0; seed := 0 |}.

Record Scenario := {
  org_pages : list (Reply (ListResponse.t Organization.t));
  user_pages : list (Reply (ListResponse.t WorkOSUser.t));
  factors_of : jsstring -> Reply (ListResponse.t WorkOSAuthFactor.t);
  connection_of : jsstring -> Reply (option Connection.t);
  memberships_of : jsstring -> Reply MembershipsResponse.t;
  organization_of : jsstring -> Reply Organization.t;
  create_rejects : CreateArgs.t -> bool
}.

Definition page {A} (l : list A) : Reply (ListResponse.t A) :=
  Resolved {| ListResponse.data := l; ListResponse.listMetadata := None |}.

Definition alphabet : jsstring :=
  js "abcdefghijklmnopqrstuvwxyz0123456789ABCDEFGHIJKLMNOPQRSTUVWXYZ".

Definition pick (k : nat) : code_unit := nth (k mod 62) alphabet 97%N.

Definition ascii_lower (c : code_unit) : code_unit :=
  if is_upper c then (c + 32)%N else c.

Definition quoted (s : jsstring) : jsstring := 34%N :: s ++ [34%N].

Fixpoint join_with (sep : jsstring) (l : list jsstring) : jsstring :=
  match l with
  | [] => []
  | [s] => s
  | s :: l' => s ++ sep ++ join_with sep l'
  end.

Definition row_id (d : Data) : jsstring :=
  match d with
  | OrganizationRow d => OrganizationData.id d
  | UserRow d => UserData.id d
  | _ => js "generated"
  end.

Definition tick (w : World) : World :=
  {| clock := clock w + 1; org_calls := org_calls w; user_calls := user_calls w; seed := seed w |}.

Definition env (sc : Scenario) : Env World :=
  {| toLowerCase := map ascii_lower;
     Date_parse := fun _ => ValidDate 1719792000000;
     Date_now := fun w => (clock w, tick w);
     JSON_stringify := fun l => js "[" ++ join_with (js ",") (map quoted l) ++ js "]";
     generateRandomString := fun n _ w =>
       (map (fun i => pick (seed w + 7 * i)) (seq 0 n),
        {| clock := clock w; org_calls := org_calls w; user_calls := user_calls w;
           seed := seed w + 13 * n |});
     symmetricEncrypt := fun args w =>
       (Resolved (EncryptArgs.key args ++ js ":" ++ EncryptArgs.data args), w);
     listOrganizations := fun _ w =>
       (nth (org_calls w) (org_pages sc) (page []),
        {| clock := clock w; org_calls := S (org_calls w); user_calls := user_calls w;
           seed := seed w |});
     listUsers := fun _ w =>
       (nth (user_calls w) (user_pages sc) (page []),
        {| clock := clock w; org_calls := org_calls w; user_calls := S (user_calls w);
           seed := seed w |});
     listAuthFactors := fun userId w => (factors_of sc userId, tick w);
     getConnection := fun userId w => (connection_of sc userId, tick w);
     listOrganizationMemberships := fun userId w => (memberships_of sc userId, tick w);
     getOrganization := fun organizationId w => (organization_of sc organizationId, tick w);
     adapter_create := fun args w =>
       (if create_rejects sc args then Rejected (ExternalError (js "create failed"))
        else Resolved {| Created.id := row_id (CreateArgs.data args) |}, tick w) |}.

(** Two organizations and two users. *)
Definition acme : Organization.t :=
  {| Organization.id := js "org_01"; Organization.name := js "Acme Inc.";
     Organization.createdAt := DStr (js "2024-01-01T00:00:00Z");
     Organization.updatedAt := DNum 0 |}.

Definition globex : Organization.t :=
  {| Organization.id := js "org_02"; Organization.name := js "Globex 42";
     Organization.createdAt := DNum 0; Organization.updatedAt := DUndefined |}.

Definition ada : WorkOSUser.t :=
  {| WorkOSUser.id := js "user_01"; WorkOSUser.email := js "ada@example.com";
     WorkOSUser.emailVerified := true; WorkOSUser.firstName := Some (js "Ada");
     WorkOSUser.lastName := Some (js "Lovelace"); WorkOSUser.profilePictureUrl := None;
     WorkOSUser.createdAt := DStr (js "2024-02-01T00:00:00Z");
     WorkOSUser.updatedAt := DStr (js "2024-02-02T00:00:00Z") |}.

Definition bob : WorkOSUser.t :=
  {| WorkOSUser.id := js "user_02"; WorkOSUser.email := js "bob@example.com";
     WorkOSUser.emailVerified := false; WorkOSUser.firstName := None;
     WorkOSUser.lastName := None; WorkOSUser.profilePictureUrl := None;
     WorkOSUser.createdAt := DNum 0; WorkOSUser.updatedAt := DStr [] |}.

Definition totp_factor : WorkOSAuthFactor.t :=
  {| WorkOSAuthFactor.id := js "auth_factor_01"; WorkOSAuthFactor.type := js "totp";
     WorkOSAuthFactor.createdAt := DNull; WorkOSAuthFactor.updatedAt := DNull;
     WorkOSAuthFactor.totp_configuration :=
       Some {| TotpConfiguration.qr_code := js "data:image/png"; TotpConfiguration.secret := js "S3CR3T" |};
     WorkOSAuthFactor.sms_configuration := None;
     WorkOSAuthFactor.email_configuration := None |}.

Definition membership_in (organizationId : string) (role : option Role.t) : Membership.t :=
  {| Membership.organizationId := js organizationId; Membership.role := role;
     Membership.createdAt := DNull; Membership.updatedAt := DNull |}.

Definition with_slug (slug : option jsstring) : option Role.t :=
  Some {| Role.slug := slug |}.

(** Ada has a TOTP factor and three memberships: an administrator of the
    first organization, a member without a role slug of the second one, and
    a member of an organization that was not migrated. *)
Definition ada_memberships : list Membership.t :=
  [membership_in "org_01" (with_slug (Some (js "admin")));
   membership_in "org_02" (with_slug None);
   membership_in "org_99" (with_slug (Some (js "owner")))].

Definition no_connection : jsstring -> Reply (option Connection.t) :=
  fun _ => Rejected (ExternalError (js "not found")).

Definition sunny : Scenario :=
  {| org_pages := [page [acme; globex]];
     user_pages := [page [ada; bob]];
     factors_of := fun userId =>
       if jsstring_eqb userId (js "user_01") then page [totp_factor] else page [];
     connection_of := no_connection;
     memberships_of := fun userId =>
       if jsstring_eqb userId (js "user_01")
       then Resolved {| MembershipsResponse.data := Some ada_memberships |}
       else Resolved {| MembershipsResponse.data := None |};
     organization_of := fun organizationId =>
       if jsstring_eqb organizationId (js "org_01") then Resolved acme else Resolved globex;
     create_rejects := fun _ => false |}.



Definition is_user_row_of (id : string) (args : CreateArgs.t) : bool :=
  match CreateArgs.data args with
  | UserRow d => jsstring_eqb (UserData.id d) (js id)
  | _ => false
  end.

(** As [sunny], but the adapter rejects the user row of Ada, and the second
    page of users cannot be fetched. *)
Definition stormy : Scenario :=
  {| org_pages := [Rejected (ExternalError (js "rate limited"))];
     user_pages := [page (replicate 99 bob ++ [ada]); Rejected (ExternalError (js "timeout"))];
     factors_of := factors_of sunny; connection_of := connection_of sunny;
     memberships_of := memberships_of sunny; organization_of := organization_of sunny;
     create_rejects := is_user_row_of "user_01" |}.

(** A source with three full pages of users and nothing else. *)
Definition crowded : Scenario :=
  {| org_pages := [];
     user_pages := replicate 3 (page (replicate 100 bob));
     factors_of := fun _ => page [];
     connection_of := no_connection;
     memberships_of := fun _ => Resolved {| MembershipsResponse.data := None |};
     organization_of := fun _ => Rejected (ExternalError (js "not found"));
     create_rejects := fun _ => false |}.

(** The runs of the script used as examples, with fuel for five pages. *)
Definition run (sc : Scenario) : Run World UserFrame.t unit :=
  migrateFromWorkOS (Env0 := env sc) 5 start.

Definition org_run (sc : Scenario) : Run World OrgFrame.t (gmap jsstring jsstring) :=
  migrateOrganizations (Env0 := env sc) 5 start.

(** The map after the organization phase of [sunny]. *)
Definition both_orgs : gmap jsstring jsstring :=
  <[js "org_02" := js "org_02"]> (<[js "org_01" := js "org_01"]> ∅).

Definition created_ada : Created.t := {| Created.id := js "user_01" |}.

(** The rows of the first organization and of the first user in [sunny]. *)
Definition acme_args : CreateArgs.t :=
  organization_args (Env0 := env sunny) acme (ValidDate 1719792000000) (ValidDate 1000).

Definition ada_args : CreateArgs.t :=
  user_args ada [totp_factor]
            (ValidDate 1719792000000) (ValidDate 1719792000000).

(** A source that answers a full page to every request. *)
Definition endless : Env World :=
  {| toLowerCase := toLowerCase (Env := env crowded);
     Date_parse := Date_parse (Env := env crowded);
     Date_now := Date_now (Env := env crowded);
     JSON_stringify := JSON_stringify (Env := env crowded);
     generateRandomString := generateRandomString (Env := env crowded);
     symmetricEncrypt := symmetricEncrypt (Env := env crowded);
     listOrganizations := fun _ w => (page (replicate 100 acme), tick w);
     listUsers := fun _ w => (page (replicate 100 bob), tick w);
     listAuthFactors := listAuthFactors (Env := env crowded);
     getConnection := getConnection (Env := env crowded);
     listOrganizationMemberships := listOrganizationMemberships (Env := env crowded);
     getOrganization := getOrganization (Env := env crowded);
     adapter_create := adapter_create (Env := env crowded) |}.

(** A source that is down: the first request of each phase is rejected. *)
Definition down : Scenario :=
  {| org_pages := [Rejected (ExternalError (js "unavailable"))];
     user_pages := [Rejected (ExternalError (js "unavailable"))];
     factors_of := factors_of crowded; connection_of := connection_of crowded;
     memberships_of := memberships_of crowded; organization_of := organization_of crowded;
     create_rejects := fun _ => false |}.

(** Two pages of users, the first one full and with a cursor. *)
Definition chained : Scenario :=
  {| org_pages := [];
     user_pages :=
       [Resolved {| ListResponse.data := replicate 100 bob;
                    ListResponse.listMetadata :=
                      Some {| ListMetadata.before := Some (js "user_00");
                              ListMetadata.after := None |} |};
        page [ada]];
     factors_of := factors_of crowded; connection_of := connection_of crowded;
     memberships_of := memberships_of crowded; organization_of := organization_of crowded;
     create_rejects := fun _ => false |}.

(** More factors: a TOTP factor without its configuration, an email factor
    with a hashed password, and two SMS factors, the first one without its
    configuration. *)
Definition factor_of (type : string) : WorkOSAuthFactor.t :=
  {| WorkOSAuthFactor.id := js "auth_factor_02"; WorkOSAuthFactor.type := js type;
     WorkOSAuthFactor.createdAt := DNull; WorkOSAuthFactor.updatedAt := DNull;
     WorkOSAuthFactor.totp_configuration := None;
     WorkOSAuthFactor.sms_configuration := None;
     WorkOSAuthFactor.email_configuration := None |}.

Definition ada_email_configuration : EmailConfiguration.t :=
  {| EmailConfiguration.email := js "ada@example.com";
     EmailConfiguration.hashedPassword := Some (js "$2b$10$hash") |}.

Definition email_factor : WorkOSAuthFactor.t :=
  {| WorkOSAuthFactor.id := js "auth_factor_03"; WorkOSAuthFactor.type := js "email";
     WorkOSAuthFactor.createdAt := DNull; WorkOSAuthFactor.updatedAt := DNull;
     WorkOSAuthFactor.totp_configuration := None;
     WorkOSAuthFactor.sms_configuration := None;
     WorkOSAuthFactor.email_configuration := Some ada_email_configuration |}.

Definition sms_factor : WorkOSAuthFactor.t :=
  {| WorkOSAuthFactor.id := js "auth_factor_04"; WorkOSAuthFactor.type := js "sms";
     WorkOSAuthFactor.createdAt := DNull; WorkOSAuthFactor.updatedAt := DNull;
     WorkOSAuthFactor.totp_configuration := None;
     WorkOSAuthFactor.sms_configuration :=
       Some {| SmsConfiguration.phoneNumber := Some (js "+15550100") |};
     WorkOSAuthFactor.email_configuration := None |}.

(** The member row of Ada in the first organization, in [sunny]. *)
Definition ada_member_args : CreateArgs.t :=
  member_args created_ada (js "org_01") (js "admin") (ValidDate 1010) (ValidDate 1011).

(** A source whose only page of users has 101 records. *)
Definition overfull : Scenario :=
  {| org_pages := [];
     user_pages := [page (replicate 101 bob)];
     factors_of := factors_of crowded; connection_of := connection_of crowded;
     memberships_of := memberships_of crowded; organization_of := organization_of crowded;
     create_rejects := fun _ => false |}.
End Demo.

(** * Properties *)

(** ** Lists and strings *)

Lemma app_cons_split {A} (a b t1 t2 : list A) (x : A) :
  a ++ b = t1 ++ x :: t2 ->
  (exists t2', a = t1 ++ x :: t2' /\ t2 = t2' ++ b)
  \/ (exists t1', b = t1' ++ x :: t2 /\ t1 = a ++ t1').
Proof.
  revert t1. induction a as [|y a IH]; intros t1 H; simpl in *.
  - right. exists t1. auto.
  - destruct t1 as [|z t1]; simpl in *.
    + injection H as -> <-. left. exists a. auto.
    + injection H as -> H. destruct (IH _ H) as [(t2' & -> & ->)|(t1' & -> & ->)].
      * left. exists t2'. auto.
      * right. exists t1'. auto.
Qed.

Lemma omap_cons' {A B} (g : A -> option B) (x : A) (l : list A) :
  omap g (x :: l) = match g x with Some y => y :: omap g l | None => omap g l end.
Proof. reflexivity. Qed.

Lemma omap_nil_Forall {A B} (g : A -> option B) (l : list A) :
  Forall (fun x => g x = None) l -> omap g l = [].
Proof.
  induction 1 as [|x l Hx _ IH]; simpl; [reflexivity |]. rewrite Hx. exact IH.
Qed.

Lemma omap_nil_inv {A B} (g : A -> option B) (l : list A) :
  omap g l = [] -> Forall (fun x => g x = None) l.
Proof.
  induction l as [|x l IH]; simpl; [constructor |].
  destruct (g x) eqn:E; [discriminate |]. intros H. constructor; auto.
Qed.

Lemma created_rows_app m t1 t2 :
  created_rows m (t1 ++ t2) = created_rows m t1 ++ created_rows m t2.
Proof. apply omap_app. Qed.

Lemma replace_outside_single keep r s :
  replace_outside keep [r] s = map (fun c => if keep c then c else r) s.
Proof.
  unfold replace_outside. induction s as [|c s IH]; simpl; [reflexivity |].
  rewrite IH. destruct (keep c); reflexivity.
Qed.

Lemma in_a_z0_9_or_hyphen c :
  let c' := if in_a_z0_9 c then c else hyphen in
  is_lower c' = true \/ is_digit c' = true \/ c' = hyphen.
Proof.
  simpl. destruct (in_a_z0_9 c) eqn:E; [| auto].
  unfold in_a_z0_9 in E. apply orb_true_iff in E. tauto.
Qed.

(** The first piece of [split sep s] is what precedes the first [sep]. *)
Lemma split_first sep s :
  exists piece pieces,
    split sep s = piece :: pieces /\ (sep ∉ piece) /\
    (s = piece \/ exists rest, s = piece ++ sep :: rest).
Proof.
  induction s as [|c s (piece & pieces & Hs & Hnot & Hrest)]; simpl.
  - exists [], []. split; [reflexivity |]. split; [apply not_elem_of_nil | left; reflexivity].
  - destruct (N.eqb_spec c sep) as [->|Hne].
    + exists [], (split sep s). split; [reflexivity |].
      split; [apply not_elem_of_nil | right; exists s; reflexivity].
    + rewrite Hs. exists (c :: piece), pieces. split; [reflexivity |]. split.
      * rewrite not_elem_of_cons. split; [congruence | exact Hnot].
      * destruct Hrest as [->|[rest ->]]; [left; reflexivity | right; exists rest; reflexivity].
Qed.

Lemma code_format code :
  length code = 10 -> Forall (fun c => is_alnum c = true) code ->
  matches_code_pattern (slice 0 5 code ++ js "-" ++ slice_from 5 code) = true.
Proof.
  intros Hlen Hall.
  do 10 (destruct code as [|? code]; [discriminate Hlen |]).
  destruct code; [| discriminate Hlen].
  repeat match goal with H : Forall _ (_ :: _) |- _ => apply Forall_cons in H as [? H] end.
  cbn -[is_alnum]. repeat match goal with H : is_alnum _ = true |- _ => rewrite H; clear H end.
  reflexivity.
Qed.

(** [Array.prototype.find] answers the first element that passes the test. *)
Lemma find_first {A} (p : A -> bool) (l : list A) :
  match List.find p l with
  | Some x => exists l1 l2, l = l1 ++ x :: l2 /\ p x = true /\ Forall (fun y => p y = false) l1
  | None => Forall (fun y => p y = false) l
  end.
Proof.
  induction l as [|y l IH]; simpl; [constructor |].
  destruct (p y) eqn:Hy.
  - exists [], l. split; [reflexivity |]. split; [exact Hy | constructor].
  - destruct (List.find p l) as [x|].
    + destruct IH as (l1 & l2 & -> & Hx & Hl1).
      exists (y :: l1), l2. split; [reflexivity |]. split; [exact Hx |]. constructor; assumption.
    + constructor; assumption.
Qed.

Lemma find_first_unique {A} (p : A -> bool) (l1 l2 : list A) x :
  p x = true -> Forall (fun y => p y = false) l1 -> List.find p (l1 ++ x :: l2) = Some x.
Proof.
  intros Hx Hl1. induction Hl1 as [|y l1 Hy _ IH]; simpl.
  - rewrite Hx. reflexivity.
  - rewrite Hy. exact IH.
Qed.

(** ** The monad: runs *)

Section RunFacts.
Context {W F : Type}.
Implicit Types (f : F) (w : W).

Lemma run_ok_eta {A} (o : Run W F A) a :
  res o = Ok a -> o = MkRun (Ok a) (frame o) (world o) (trace o).
Proof. destruct o. simpl. intros ->. reflexivity. Qed.

Lemma bind_run {A B} (m : M W F A) (k : A -> M W F B) f w a f' w' t :
  m f w = MkRun (Ok a) f' w' t ->
  bind m k f w =
  MkRun (res (k a f' w')) (frame (k a f' w')) (world (k a f' w')) (t ++ trace (k a f' w')).
Proof. intros H. unfold bind. rewrite H. reflexivity. Qed.

Lemma bind_run_throw {A B} (m : M W F A) (k : A -> M W F B) f w e f' w' t :
  m f w = MkRun (Throw e) f' w' t -> bind m k f w = MkRun (Throw e) f' w' t.
Proof. intros H. unfold bind. rewrite H. reflexivity. Qed.

Lemma try_catch_run_ok {A} (m : M W F A) h f w a f' w' t :
  m f w = MkRun (Ok a) f' w' t -> try_catch m h f w = MkRun (Ok a) f' w' t.
Proof. intros H. unfold try_catch. rewrite H. reflexivity. Qed.

Lemma try_catch_run_throw {A} (m : M W F A) h f w e f' w' t :
  m f w = MkRun (Throw e) f' w' t ->
  try_catch m h f w =
  MkRun (res (h e f' w')) (frame (h e f' w')) (world (h e f' w')) (t ++ trace (h e f' w')).
Proof. intros H. unfold try_catch. rewrite H. reflexivity. Qed.

(** A [try] whose handler cannot throw ends normally. *)
Lemma try_catch_ok (m : M W F unit) (h : Error -> M W F unit) f w :
  res (m f w) <> OutOfFuel ->
  (forall e f' w', res (h e f' w') = Ok tt) ->
  res (try_catch m h f w) = Ok tt.
Proof.
  intros Hm Hh. unfold try_catch. destruct (res (m f w)) as [[]|e|] eqn:E; simpl.
  - exact E.
  - apply Hh.
  - congruence.
Qed.

Lemma await_resolved {A} (op : W -> Reply A * W) ev f w a w' :
  op w = (Resolved a, w') -> await op ev f w = MkRun (Ok a) f w' [ev (Resolved a)].
Proof. intros H. unfold await. rewrite H. reflexivity. Qed.

Lemma await_rejected {A} (op : W -> Reply A * W) ev f w e w' :
  op w = (Rejected e, w') -> await op ev f w = MkRun (Throw e) f w' [ev (Rejected e)].
Proof. intros H. unfold await. rewrite H. reflexivity. Qed.

Lemma trace_bind {A B} (m : M W F A) (k : A -> M W F B) f w :
  trace (bind m k f w) =
  trace (m f w) ++
  match res (m f w) with
  | Ok a => trace (k a (frame (m f w)) (world (m f w)))
  | _ => []
  end.
Proof.
  unfold bind. destruct (res (m f w)); simpl; rewrite ?app_nil_r; reflexivity.
Qed.

Lemma trace_try_catch {A} (m : M W F A) (h : Error -> M W F A) f w :
  trace (try_catch m h f w) =
  trace (m f w) ++
  match res (m f w) with
  | Throw e => trace (h e (frame (m f w)) (world (m f w)))
  | _ => []
  end.
Proof.
  unfold try_catch. destruct (res (m f w)); simpl; rewrite ?app_nil_r; reflexivity.
Qed.

Lemma map_calls_builtin {A} (op : W -> A * W) n f w :
  exists l w',
    map_calls n (builtin op) f w = MkRun (Ok l) f w' [] /\
    length l = n /\ Forall (fun a => exists w0, a = (op w0).1) l.
Proof.
  revert w. induction n as [|n IH]; intros w; simpl.
  - exists [], w. split; [reflexivity |]. split; [reflexivity | constructor].
  - destruct (IH (op w).2) as (l & w' & Hrun & Hlen & Hall).
    exists ((op w).1 :: l), w'. split.
    + erewrite bind_run by reflexivity. erewrite bind_run by exact Hrun. reflexivity.
    + split; [simpl; congruence |]. constructor; [eauto | exact Hall].
Qed.

End RunFacts.

Ltac run_ok := erewrite bind_run by reflexivity; cbn [res frame world trace app].

(** ** The monad: traces *)

#[global] Instance Forall_monoidal (P : Event -> Prop) : Monoidal (Forall P).
Proof.
  split.
  - constructor.
  - intros t1 t2 H1 H2. apply Forall_app. auto.
Qed.

Section EmitsFacts.
Context {W F : Type} (Q : Trace -> Prop) `{!Monoidal Q}.
Implicit Types (f : F) (w : W).

Lemma emits_ret {A} (a : A) : emits Q (ret (W:=W) (F:=F) a).
Proof. intros f w. apply monoidal_nil. Qed.

Lemma emits_throw {A} e : emits Q (throw (W:=W) (F:=F) (A:=A) e).
Proof. intros f w. apply monoidal_nil. Qed.

Lemma emits_gets {A} (p : F -> A) : emits Q (gets (W:=W) p).
Proof. intros f w. apply monoidal_nil. Qed.

Lemma emits_modify (g : F -> F) : emits Q (modify (W:=W) g).
Proof. intros f w. apply monoidal_nil. Qed.

Lemma emits_builtin {A} (op : W -> A * W) : emits Q (builtin (F:=F) op).
Proof. intros f w. apply monoidal_nil. Qed.

Lemma emits_member_of {A} (o : option A) : emits Q (member_of (W:=W) (F:=F) o).
Proof. destruct o; [apply emits_ret | apply emits_throw]. Qed.

Lemma emits_emit ev : Q [ev] -> emits Q (emit (W:=W) (F:=F) ev).
Proof. intros H f w. exact H. Qed.

Lemma emits_await {A} (op : W -> Reply A * W) ev :
  (forall r, Q [ev r]) -> emits Q (await (F:=F) op ev).
Proof. intros H f w. apply H. Qed.

Lemma emits_bind {A B} (m : M W F A) (k : A -> M W F B) :
  emits Q m -> (forall a, emits Q (k a)) -> emits Q (bind m k).
Proof.
  intros Hm Hk f w. rewrite trace_bind. apply monoidal_app; [apply Hm |].
  destruct (res (m f w)); [apply Hk | apply monoidal_nil | apply monoidal_nil].
Qed.

Lemma emits_try_catch {A} (m : M W F A) (h : Error -> M W F A) :
  emits Q m -> (forall e, emits Q (h e)) -> emits Q (try_catch m h).
Proof.
  intros Hm Hh f w. rewrite trace_try_catch. apply monoidal_app; [apply Hm |].
  destruct (res (m f w)); [apply monoidal_nil | apply Hh | apply monoidal_nil].
Qed.

Lemma emits_for_of {A} (xs : list A) (body : A -> M W F unit) :
  (forall x, x ∈ xs -> emits Q (body x)) -> emits Q (for_of xs body).
Proof.
  induction xs as [|x xs IH]; intros Hb; simpl.
  - apply emits_ret.
  - apply emits_bind.
    + apply Hb. left.
    + intros _. apply IH. intros y Hy. apply Hb. right. exact Hy.
Qed.

Lemma emits_map_calls {A} n (m : M W F A) :
  emits Q m -> emits Q (map_calls n m).
Proof.
  intros Hm. induction n as [|n IH]; simpl.
  - apply emits_ret.
  - apply emits_bind; [exact Hm | intros a].
    apply emits_bind; [exact IH | intros rest]. apply emits_ret.
Qed.

Lemma emits_while fuel (cond : F -> bool) (body : M W F Completion) :
  emits Q body -> emits Q (while fuel cond body).
Proof.
  intros Hb. induction fuel as [|fuel IH]; intros f w; simpl.
  - destruct (cond f); apply monoidal_nil.
  - destruct (cond f); [| apply monoidal_nil].
    apply emits_bind; [exact Hb |].
    intros [|]; [exact IH | apply emits_ret].
Qed.

End EmitsFacts.

Lemma emits_weaken {W F A} (Q Q' : Trace -> Prop) (m : M W F A) :
  (forall t, Q t -> Q' t) -> emits Q m -> emits Q' m.
Proof. intros H Hm f w. apply H, Hm. Qed.

(** ** The monad: frames *)

Section KeepsFacts.
Context {W F : Type} (R : relation F) `{!PreOrder R}.
Implicit Types (f : F) (w : W).

Lemma keeps_ret {A} (a : A) : keeps R (ret (W:=W) a).
Proof. intros f w. split; [reflexivity | discriminate]. Qed.

Lemma keeps_throw {A} e : keeps R (throw (W:=W) (A:=A) e).
Proof. intros f w. split; [reflexivity | discriminate]. Qed.

Lemma keeps_gets {A} (p : F -> A) : keeps R (gets (W:=W) p).
Proof. intros f w. split; [reflexivity | discriminate]. Qed.

Lemma keeps_modify (g : F -> F) : (forall f, R f (g f)) -> keeps R (modify (W:=W) g).
Proof. intros H f w. split; [apply H | discriminate]. Qed.

Lemma keeps_builtin {A} (op : W -> A * W) : keeps R (builtin op).
Proof. intros f w. split; [reflexivity | discriminate]. Qed.

Lemma keeps_member_of {A} (o : option A) : keeps R (member_of (W:=W) o).
Proof. destruct o; [apply keeps_ret | apply keeps_throw]. Qed.

Lemma keeps_emit ev : keeps R (emit (W:=W) ev).
Proof. intros f w. split; [reflexivity | discriminate]. Qed.

Lemma keeps_await {A} (op : W -> Reply A * W) ev : keeps R (await op ev).
Proof.
  intros f w. split; [reflexivity |]. simpl. destruct (op w).1; discriminate.
Qed.

Lemma keeps_bind {A B} (m : M W F A) (k : A -> M W F B) :
  keeps R m -> (forall a, keeps R (k a)) -> keeps R (bind m k).
Proof.
  intros Hm Hk f w. destruct (Hm f w) as [H1 H2]. unfold bind.
  destruct (res (m f w)) as [a|e|] eqn:E; simpl.
  - destruct (Hk a (frame (m f w)) (world (m f w))) as [H3 H4].
    split; [etransitivity; eassumption | exact H4].
  - split; [exact H1 | discriminate].
  - congruence.
Qed.

Lemma keeps_try_catch {A} (m : M W F A) (h : Error -> M W F A) :
  keeps R m -> (forall e, keeps R (h e)) -> keeps R (try_catch m h).
Proof.
  intros Hm Hh f w. destruct (Hm f w) as [H1 H2]. unfold try_catch.
  destruct (res (m f w)) as [a|e|] eqn:E; simpl.
  - rewrite E. split; [exact H1 | discriminate].
  - destruct (Hh e (frame (m f w)) (world (m f w))) as [H3 H4].
    split; [etransitivity; eassumption | exact H4].
  - congruence.
Qed.

Lemma keeps_for_of {A} (xs : list A) (body : A -> M W F unit) :
  (forall x, keeps R (body x)) -> keeps R (for_of xs body).
Proof.
  intros Hb. induction xs as [|x xs IH]; simpl.
  - apply keeps_ret.
  - apply keeps_bind; [apply Hb | intros _; exact IH].
Qed.

Lemma keeps_map_calls {A} n (m : M W F A) : keeps R m -> keeps R (map_calls n m).
Proof.
  intros Hm. induction n as [|n IH]; simpl.
  - apply keeps_ret.
  - apply keeps_bind; [exact Hm | intros a].
    apply keeps_bind; [exact IH | intros rest; apply keeps_ret].
Qed.

End KeepsFacts.

(** After a computation that leaves the frame alone, what holds of the rest
    holds of the whole. *)
Lemma bind_steady {W F A B} (P : F -> Res B -> F -> Prop) (m : M W F A) (k : A -> M W F B) :
  keeps eq m ->
  (forall a f w, P f (res (k a f w)) (frame (k a f w))) ->
  (forall f e, P f (Throw e) f) ->
  forall f w, P f (res (bind m k f w)) (frame (bind m k f w)).
Proof.
  intros Hm Hk Hthrow f w. destruct (Hm f w) as [H1 H2]. unfold bind.
  destruct (res (m f w)) as [a|e|]; simpl.
  - rewrite <- H1. apply Hk.
  - rewrite <- H1. apply Hthrow.
  - congruence.
Qed.

(** ** The monad: loops *)

Section LoopFacts.
Context {W F : Type}.

Lemma while_invariant (I : F -> Prop) fuel (cond : F -> bool) (body : M W F Completion) :
  (forall f w, I f -> I (frame (body f w))) ->
  forall f w, I f -> I (frame (while fuel cond body f w)).
Proof.
  intros Hb. induction fuel as [|fuel IH]; intros f w Hf; simpl.
  - destruct (cond f); exact Hf.
  - destruct (cond f); [| exact Hf]. unfold bind.
    destruct (res (body f w)) as [[|]| |]; simpl; auto.
Qed.

(** A loop that ends does so in the same way with more fuel. *)
Lemma while_more_fuel (body : M W F Completion) (cond : F -> bool) fuel fuel' f w :
  res (while fuel cond body f w) <> OutOfFuel -> fuel <= fuel' ->
  while fuel' cond body f w = while fuel cond body f w.
Proof.
  revert fuel' f w. induction fuel as [|fuel IH]; intros fuel' f w Hres Hle.
  - simpl in *. destruct (cond f) eqn:E; [simpl in Hres; congruence |].
    destruct fuel'; simpl; rewrite E; reflexivity.
  - destruct fuel' as [|fuel']; [lia |]. simpl in *.
    destruct (cond f); [| reflexivity].
    unfold bind in *. destruct (res (body f w)) as [[|]| |]; simpl in *; try reflexivity.
    rewrite IH; [reflexivity | | lia].
    intros H. apply Hres. exact H.
Qed.

End LoopFacts.

(** ** Pagination loops in general *)

Section PageLoop.
Context {W F : Type}.
Variables (hasMore : F -> bool) (total : F -> nat) (fetch : Event -> option (option nat)).
Variable page : M W F Completion.
Hypothesis Hpage : page_spec hasMore total fetch page.

Lemma page_spec_ok f w : exists c, res (page f w) = Ok c.
Proof using Hpage.
  destruct (Hpage f w) as (ev & t & _ & _ & H).
  destruct (fetch ev) as [[n|]|]; [| | contradiction]; destruct H as [-> _]; eauto.
Qed.

Lemma while_stop fuel f w :
  hasMore f = false -> while fuel hasMore page f w = MkRun (Ok tt) f w [].
Proof. intros H. destruct fuel; simpl; rewrite H; reflexivity. Qed.

(** If some page is shorter than the page size, the loop ends on it, after
    full pages only. *)
Lemma while_short_page fuel f w n :
  Some n ∈ omap fetch (trace (while fuel hasMore page f w)) -> n < limit ->
  exists k,
    k < fuel /\
    forall fuel', k < fuel' ->
      let o := while fuel' hasMore page f w in
      res o = Ok tt /\
      omap fetch (trace o) = replicate k (Some limit) ++ [Some n] /\
      total (frame o) = total f + k * limit + n.
Proof using Hpage.
  revert f w. induction fuel as [|fuel IH]; intros f w Hin Hn.
  - simpl in Hin. destruct (hasMore f); simpl in Hin; inversion Hin.
  - simpl in Hin. destruct (hasMore f) eqn:Hmore; [| inversion Hin].
    destruct (Hpage f w) as (ev & t & Htrace & Ht & Hev).
    rewrite trace_bind, omap_app, Htrace, omap_cons', Ht in Hin.
    destruct (fetch ev) as [[n0|]|] eqn:Hfetch; [| | contradiction].
    + destruct Hev as (Hres & Hmore' & Htotal). rewrite Hres in Hin.
      assert (Hstep : forall fuel', while (S fuel') hasMore page f w =
        let o' := while fuel' hasMore page (frame (page f w)) (world (page f w)) in
        MkRun (res o') (frame o') (world o') (trace (page f w) ++ trace o')).
      { intros fuel'. simpl. rewrite Hmore. unfold bind. rewrite Hres. reflexivity. }
      destruct (Nat.eqb_spec n0 limit) as [->|Hne].
      * apply elem_of_cons in Hin as [Heq|Hin]; [injection Heq as ->; lia |].
        destruct (IH _ _ Hin Hn) as (k & Hk & Hall).
        exists (S k). split; [lia |]. intros [|fuel'] Hlt; [lia |].
        destruct (Hall fuel' ltac:(lia)) as (H1 & H2 & H3).
        rewrite Hstep. cbn [res frame trace]. split; [exact H1 |].
        rewrite omap_app, Htrace, omap_cons', Hfetch, Ht, H2, H3, Htotal.
        split; [reflexivity | lia].
      * rewrite while_stop in Hin by exact Hmore'. cbn [trace omap app] in Hin.
        apply elem_of_cons in Hin as [Heq|Hin]; [| inversion Hin].
        injection Heq as ->.
        exists 0. split; [lia |]. intros [|fuel'] Hlt; [lia |].
        rewrite Hstep, while_stop by exact Hmore'. cbn [res frame trace].
        rewrite app_nil_r, Htrace, omap_cons', Hfetch, Ht.
        split; [reflexivity |]. split; [reflexivity | lia].
    + destruct Hev as (Hres & -> & _). rewrite Hres in Hin. cbn [trace ret omap app] in Hin.
      apply elem_of_cons in Hin as [Heq|Hin]; [discriminate | inversion Hin].
Qed.

(** A rejected page request is the last thing the loop does, and the loop
    ends normally. *)
Lemma while_rejected fuel f w t1 ev t2 :
  trace (while fuel hasMore page f w) = t1 ++ ev :: t2 -> fetch ev = Some None ->
  t2 = [] /\ res (while fuel hasMore page f w) = Ok tt.
Proof using Hpage.
  revert f w t1. induction fuel as [|fuel IH]; intros f w t1 Htr Hrej.
  - simpl in Htr. destruct (hasMore f); simpl in Htr; destruct t1; discriminate.
  - simpl in *. destruct (hasMore f) eqn:Hmore; [| destruct t1; discriminate].
    destruct (Hpage f w) as (ev0 & t & Htrace & Ht & Hev).
    unfold bind in *.
    destruct (fetch ev0) as [[n0|]|] eqn:Hfetch; [| | contradiction].
    + destruct Hev as (Hres & _). rewrite Hres in *. cbn [res trace] in *.
      rewrite Htrace in *.
      apply app_cons_split in Htr as [(t2' & Ha & _)|(t1' & Hb & _)].
      * exfalso. apply omap_nil_inv in Ht.
        assert (Hin : ev ∈ ev0 :: t).
        { rewrite Ha. apply elem_of_app. right. left. }
        apply elem_of_cons in Hin as [->|Hin]; [congruence |].
        rewrite Forall_forall in Ht. apply Ht in Hin. congruence.
      * exact (IH _ _ _ Hb Hrej).
    + destruct Hev as (Hres & -> & _). rewrite Hres in *. cbn [res trace ret] in *.
      rewrite Htrace in *. destruct t1 as [|? [|]]; simplify_eq/=. auto.
Qed.

End PageLoop.

(** ** Rows and what justifies them *)

Section Justified.
Variables (is_row : CreateArgs.t -> Prop) (just : Trace -> CreateArgs.t -> Prop).
Hypothesis just_later : forall t0 t1 args, just t1 args -> just (t0 ++ t1) args.

Lemma rows_justified_monoidal : Monoidal (rows_justified is_row just).
Proof using just_later.
  split.
  - intros [|] ? ? ? ?; discriminate.
  - intros ta tb Ha Hb t1 args r t2 Heq Hrow.
    apply app_cons_split in Heq as [(t2' & -> & _)|(t1' & -> & ->)].
    + eapply Ha; [reflexivity | exact Hrow].
    + apply just_later. eapply Hb; [reflexivity | exact Hrow].
Qed.

Lemma rows_justified_other t :
  Forall (fun ev => forall args r, ev = EvCreate args r -> ~ is_row args) t ->
  rows_justified is_row just t.
Proof.
  intros Hall t1 args r t2 -> Hrow. exfalso.
  rewrite Forall_forall in Hall. eapply (Hall (EvCreate args r)); [| reflexivity | exact Hrow].
  apply elem_of_app. right. left.
Qed.

End Justified.

(** ** The script: dates and backup codes *)

Section ScriptFacts.
Context {W : Type} `{!Env W}.

Lemma safeDateConversion_run {F} date (f : F) (w : W) :
  safeDateConversion date f w =
  if falsy date then MkRun (Ok (ValidDate (Date_now w).1)) f (Date_now w).2 []
  else MkRun (Ok (new_Date date)) f w [].
Proof. unfold safeDateConversion. destruct (falsy date); reflexivity. Qed.

Lemma safeDateConversion_ok {F} date (f : F) (w : W) :
  exists d w', safeDateConversion date f w = MkRun (Ok d) f w' [].
Proof. rewrite safeDateConversion_run. destruct (falsy date); eauto. Qed.

Lemma emits_safeDateConversion (Q : Trace -> Prop) `{!Monoidal Q} {F} date :
  emits Q (safeDateConversion (W:=W) (F:=F) date).
Proof.
  intros f w. rewrite safeDateConversion_run. destruct (falsy date); apply monoidal_nil.
Qed.

Lemma keeps_safeDateConversion {F} (R : relation F) `{!PreOrder R} date :
  keeps R (safeDateConversion (W:=W) date).
Proof.
  intros f w. rewrite safeDateConversion_run.
  destruct (falsy date); (split; [reflexivity | discriminate]).
Qed.

Lemma backupCodes_run {F} (f : F) (w : W) :
  exists codes w1,
    backupCodes f w = MkRun (Ok codes) f w1 [] /\
    length codes = 10 /\
    Forall (fun code => exists w0,
              let s := (generateRandomString 10 [js "a-z"; js "0-9"; js "A-Z"] w0).1 in
              code = slice 0 5 s ++ js "-" ++ slice_from 5 s) codes.
Proof.
  destruct (map_calls_builtin (generateRandomString 10 [js "a-z"; js "0-9"; js "A-Z"]) 10 f w)
    as (l & w1 & Hrun & Hlen & Hall).
  eexists _, w1. split; [| split].
  - unfold backupCodes. erewrite bind_run by exact Hrun. reflexivity.
  - rewrite length_map. exact Hlen.
  - apply Forall_map. eapply Forall_impl; [exact Hall |].
    intros s [w0 ->]. exists w0. reflexivity.
Qed.

Lemma emits_generateBackupCodes (Q : Trace -> Prop) `{!Monoidal Q} {F} secret :
  (forall data r,
     Q [EvSymmetricEncrypt {| EncryptArgs.data := data; EncryptArgs.key := secret |} r]) ->
  emits Q (generateBackupCodes (W:=W) (F:=F) secret).
Proof.
  intros HQ. unfold generateBackupCodes, backupCodes.
  apply (emits_bind Q).
  - apply (emits_bind Q); [| intros; apply (emits_ret Q)].
    apply (emits_map_calls Q), (emits_builtin Q).
  - intros codes. apply (emits_bind Q); [| intros; apply (emits_ret Q)].
    apply (emits_await Q). intros r. apply HQ.
Qed.

Lemma keeps_generateBackupCodes {F} (R : relation F) `{!PreOrder R} secret :
  keeps R (generateBackupCodes (W:=W) secret).
Proof.
  unfold generateBackupCodes, backupCodes.
  apply (keeps_bind R).
  - apply (keeps_bind R); [| intros; apply (keeps_ret R)].
    apply (keeps_map_calls R), (keeps_builtin R).
  - intros codes. apply (keeps_bind R); [| intros; apply (keeps_ret R)].
    apply (keeps_await R).
Qed.

Lemma has_type_spec type factor :
  has_type type factor = true <-> WorkOSAuthFactor.type factor = js type.
Proof. unfold has_type, jsstring_eqb. apply bool_decide_eq_true. Qed.

End ScriptFacts.

(** One step of a proof that a computation emits a trace with [Q]. *)
Ltac emits_step :=
  lazymatch goal with
  | |- emits ?Q (bind _ _) => apply (emits_bind Q); [| intros ?]
  | |- emits ?Q (try_catch _ _) => apply (emits_try_catch Q); [| intros ?]
  | |- emits ?Q (ret _) => apply (emits_ret Q)
  | |- emits ?Q (throw _) => apply (emits_throw Q)
  | |- emits ?Q (gets _) => apply (emits_gets Q)
  | |- emits ?Q (modify _) => apply (emits_modify Q)
  | |- emits ?Q (builtin _) => apply (emits_builtin Q)
  | |- emits ?Q (member_of _) => apply (emits_member_of Q)
  | |- emits ?Q (safeDateConversion _) => apply (emits_safeDateConversion Q)
  | |- emits ?Q (generateBackupCodes _) => apply (emits_generateBackupCodes Q); intros ? ?
  | |- emits ?Q (emit _) => apply (emits_emit Q)
  | |- emits ?Q (await _ _) => apply (emits_await Q); intros ?
  | |- emits ?Q (create _) => apply (emits_await Q); intros ?
  | |- emits ?Q (for_of _ _) => apply (emits_for_of Q); intros ? ?
  | |- emits ?Q (map_calls _ _) => apply (emits_map_calls Q)
  | |- emits _ (match ?x with _ => _ end) => destruct x
  end.

(** One step of a proof that a computation keeps [R]. *)
Ltac keeps_step :=
  lazymatch goal with
  | |- keeps ?R (bind _ _) => apply (keeps_bind R); [| intros ?]
  | |- keeps ?R (try_catch _ _) => apply (keeps_try_catch R); [| intros ?]
  | |- keeps ?R (ret _) => apply (keeps_ret R)
  | |- keeps ?R (throw _) => apply (keeps_throw R)
  | |- keeps ?R (gets _) => apply (keeps_gets R)
  | |- keeps ?R (modify _) => apply (keeps_modify R); intros ?
  | |- keeps ?R (builtin _) => apply (keeps_builtin R)
  | |- keeps ?R (member_of _) => apply (keeps_member_of R)
  | |- keeps ?R (safeDateConversion _) => apply (keeps_safeDateConversion R)
  | |- keeps ?R (generateBackupCodes _) => apply (keeps_generateBackupCodes R)
  | |- keeps ?R (emit _) => apply (keeps_emit R)
  | |- keeps ?R (await _ _) => apply (keeps_await R)
  | |- keeps ?R (create _) => apply (keeps_await R)
  | |- keeps ?R (for_of _ _) => apply (keeps_for_of R); intros ?
  | |- keeps ?R (map_calls _ _) => apply (keeps_map_calls R)
  | |- keeps _ (match ?x with _ => _ end) => destruct x
  end.

(** ** The script: which calls each part makes *)

Section Emits.
Context {W : Type} `{!Env W} (Q : Trace -> Prop) `{!Monoidal Q}.

Lemma emits_migrate_organization org :
  (forall ev, organization_event org ev -> Q [ev]) ->
  emits Q (migrate_organization org).
Proof.
  intros HQ. unfold migrate_organization. repeat emits_step; apply HQ; simpl; eauto.
Qed.

Lemma emits_after_user_row workosUser authFactors createdUser :
  (forall ev, association_event workosUser ev -> Q [ev]) ->
  emits Q (after_user_row workosUser authFactors createdUser).
Proof.
  intros HQ.
  unfold after_user_row, create_credentials_account, create_oauth_account,
    create_memberships, migrate_membership, migrate_factor, role_of.
  repeat emits_step; apply HQ; simpl; auto.
Qed.

Lemma emits_migrate_user workosUser :
  (forall ev, user_event workosUser ev -> Q [ev]) ->
  emits Q (migrate_user workosUser).
Proof.
  intros HQ. unfold migrate_user, process_user. repeat emits_step.
  - apply HQ. reflexivity.
  - apply HQ. left. eauto.
  - apply emits_after_user_row. intros ev Hev. apply HQ.
    destruct ev; simpl in *; tauto.
Qed.

Lemma emits_organizations_page :
  (forall options r, Q [EvListOrganizations options r]) ->
  (forall org ev, organization_event org ev -> Q [ev]) ->
  emits Q organizations_page.
Proof.
  intros HL HQ. unfold organizations_page. repeat emits_step; auto.
  apply emits_migrate_organization. apply HQ.
Qed.

Lemma emits_users_page :
  (forall options r, Q [EvListUsers options r]) ->
  (forall workosUser ev, user_event workosUser ev -> Q [ev]) ->
  emits Q users_page.
Proof.
  intros HL HQ. unfold users_page. repeat emits_step; auto.
  apply emits_migrate_user. apply HQ.
Qed.

Lemma trace_migrateFromWorkOS fuel (w : W) :
  trace (migrateFromWorkOS fuel w) =
  trace (migrateOrganizations fuel w) ++
  match res (migrateOrganizations fuel w) with
  | Ok orgMap =>
      trace (migrateUsers fuel (UserFrame.init orgMap) (world (migrateOrganizations fuel w)))
  | _ => []
  end.
Proof.
  unfold migrateFromWorkOS.
  destruct (res (migrateOrganizations fuel w)); simpl; rewrite ?app_nil_r; reflexivity.
Qed.

Lemma emits_migrateOrganizations fuel :
  emits Q organizations_page -> forall w, Q (trace (migrateOrganizations fuel w)).
Proof.
  intros Ho w. unfold migrateOrganizations, migrateOrganizations_from.
  apply (emits_bind Q); [apply (emits_while Q); exact Ho | intros; apply (emits_gets Q)].
Qed.

Lemma emits_migrateFromWorkOS fuel w :
  emits Q organizations_page -> emits Q users_page ->
  Q (trace (migrateFromWorkOS fuel w)).
Proof.
  intros Ho Hu. rewrite trace_migrateFromWorkOS. apply monoidal_app.
  - apply emits_migrateOrganizations. exact Ho.
  - destruct (res (migrateOrganizations fuel w)); try apply monoidal_nil.
    apply (emits_while Q); assumption.
Qed.

End Emits.

(** ** The script: local variables *)

#[local] Instance same_org_page_preorder : PreOrder same_org_page.
Proof.
  split.
  - intros f. repeat split.
  - intros f1 f2 f3 (H1 & H2 & H3) (H4 & H5 & H6). unfold same_org_page. repeat split; congruence.
Qed.

Section Frames.
Context {W : Type} `{!Env W}.

Lemma keeps_migrate_organization org : keeps same_org_page (migrate_organization org).
Proof. unfold migrate_organization. repeat keeps_step; repeat split. Qed.

Lemma migrate_organization_ok org f (w : W) : res (migrate_organization org f w) = Ok tt.
Proof.
  unfold migrate_organization. apply try_catch_ok.
  - match goal with |- res (?m f w) <> _ =>
      assert (Hk : keeps same_org_page m) by (repeat keeps_step; repeat split) end.
    apply Hk.
  - reflexivity.
Qed.

Lemma for_of_migrate_organization orgs f (w : W) :
  res (for_of orgs migrate_organization f w) = Ok tt /\
  same_org_page f (frame (for_of orgs migrate_organization f w)).
Proof.
  revert f w. induction orgs as [|org orgs IH]; intros f w; simpl.
  - split; [reflexivity | reflexivity].
  - unfold bind. rewrite migrate_organization_ok. simpl.
    destruct (IH (frame (migrate_organization org f w)) (world (migrate_organization org f w)))
      as [H1 H2].
    split; [exact H1 |]. etransitivity; [apply keeps_migrate_organization | exact H2].
Qed.

Lemma keeps_create_credentials_account workosUser authFactors createdUser :
  keeps (W:=W) eq (create_credentials_account workosUser authFactors createdUser).
Proof. unfold create_credentials_account. repeat keeps_step. Qed.

Lemma keeps_create_oauth_account workosUser createdUser :
  keeps (W:=W) eq (create_oauth_account workosUser createdUser).
Proof. unfold create_oauth_account. repeat keeps_step. Qed.

Lemma keeps_create_memberships workosUser createdUser :
  keeps (W:=W) eq (create_memberships workosUser createdUser).
Proof. unfold create_memberships, migrate_membership, role_of. repeat keeps_step. Qed.

Lemma keeps_migrate_factors authFactors createdUser :
  keeps (W:=W) eq (for_of authFactors (migrate_factor createdUser)).
Proof. unfold migrate_factor. repeat keeps_step. Qed.

Lemma after_user_row_post workosUser authFactors createdUser f (w : W) :
  let o := after_user_row workosUser authFactors createdUser f w in
  user_try_post f (res o) (frame o).
Proof.
  revert f w. unfold after_user_row.
  apply bind_steady; [apply keeps_create_credentials_account | intros _ | reflexivity].
  apply bind_steady; [apply keeps_create_oauth_account | intros _ | reflexivity].
  apply bind_steady; [apply keeps_create_memberships | intros _ | reflexivity].
  apply bind_steady; [apply keeps_migrate_factors | intros _ | reflexivity].
  intros f w. reflexivity.
Qed.

Lemma process_user_post workosUser f (w : W) :
  let o := process_user workosUser f w in
  user_try_post f (res o) (frame o).
Proof.
  revert f w. unfold process_user.
  apply bind_steady; [apply (keeps_await eq) | intros response | reflexivity].
  apply bind_steady; [apply (keeps_safeDateConversion eq) | intros createdAt | reflexivity].
  apply bind_steady; [apply (keeps_safeDateConversion eq) | intros updatedAt | reflexivity].
  apply bind_steady; [apply (keeps_await eq) | intros createdUser | reflexivity].
  apply after_user_row_post.
Qed.

(** One user: the exception is caught, and exactly one counter moves. *)
Lemma migrate_user_run workosUser f (w : W) :
  let p := process_user workosUser f w in
  let o := migrate_user workosUser f w in
  res o = Ok tt /\ trace o = trace p /\ world o = world p /\
  match res p with
  | Ok _ => frame o = UserFrame.set_migratedUsers (S (UserFrame.migratedUsers f)) f
  | Throw _ => frame o = UserFrame.set_failedUsers (S (UserFrame.failedUsers f)) f
  | OutOfFuel => False
  end.
Proof.
  intros p o. pose proof (process_user_post workosUser f w) as Hp.
  subst o. unfold migrate_user, try_catch. fold p. simpl in Hp. fold p in Hp.
  destruct (res p) as [[]|e|] eqn:E; simpl in *.
  - rewrite E. auto.
  - rewrite Hp, app_nil_r. auto.
  - contradiction.
Qed.

Lemma migrate_user_same_page workosUser f (w : W) :
  same_user_page f (frame (migrate_user workosUser f w)).
Proof.
  destruct (migrate_user_run workosUser f w) as (_ & _ & _ & H).
  destruct (res (process_user workosUser f w)); [| | contradiction];
    rewrite H; repeat split.
Qed.

Lemma for_of_migrate_user workosUsers f (w : W) :
  let o := for_of workosUsers migrate_user f w in
  res o = Ok tt /\ same_user_page f (frame o) /\
  UserFrame.migratedUsers (frame o) + UserFrame.failedUsers (frame o) =
  UserFrame.migratedUsers f + UserFrame.failedUsers f + length workosUsers.
Proof.
  revert f w. induction workosUsers as [|u us IH]; intros f w; simpl.
  - split; [reflexivity |]. split; [repeat split | lia].
  - destruct (migrate_user_run u f w) as (Hres & _ & _ & Hframe).
    pose proof (migrate_user_same_page u f w) as (S1 & S2 & S3 & S4).
    unfold bind. rewrite Hres. simpl.
    destruct (IH (frame (migrate_user u f w)) (world (migrate_user u f w)))
      as (H1 & (T1 & T2 & T3 & T4) & H3).
    split; [exact H1 |]. split.
    + unfold same_user_page. repeat split; congruence.
    + rewrite H3. destruct (res (process_user u f w)); [| | contradiction];
        rewrite Hframe; simpl; lia.
Qed.

End Frames.

(** ** The script: one page *)

Section Pages.
Context {W : Type} `{!Env W}.

Lemma organizations_page_run (f : OrgFrame.t) (w : W) :
  let options := {| ListOptions.limit := limit; ListOptions.before := OrgFrame.before f |} in
  let r := (listOrganizations options w).1 in
  match r with
  | Rejected e =>
      organizations_page f w =
      MkRun (Ok Break) f (listOrganizations options w).2 [EvListOrganizations options r]
  | Resolved response =>
      let orgs := ListResponse.data response in
      let f1 :=
        OrgFrame.set_totalOrgs (OrgFrame.totalOrgs f + length orgs)
          (OrgFrame.set_hasMoreOrgs (length orgs =? limit)
             (OrgFrame.set_before (next_before response) f)) in
      let l := for_of orgs migrate_organization f1 (listOrganizations options w).2 in
      organizations_page f w =
      MkRun (Ok Normal) (frame l) (world l) (EvListOrganizations options r :: trace l)
  end.
Proof.
  intros options. cbv zeta.
  destruct (listOrganizations options w) as [[response|e] w1] eqn:E; cbn [fst snd];
    unfold organizations_page.
  - apply try_catch_run_ok. run_ok. fold options.
    erewrite bind_run by (apply await_resolved; exact E). cbn [res frame world trace app].
    do 4 run_ok.
    erewrite bind_run by (apply run_ok_eta, for_of_migrate_organization).
    cbn [res frame world trace app ret]. rewrite app_nil_r. reflexivity.
  - erewrite try_catch_run_throw
      by (run_ok; fold options;
          erewrite bind_run_throw by (apply await_rejected; exact E); reflexivity).
    reflexivity.
Qed.

Lemma users_page_run (f : UserFrame.t) (w : W) :
  let options := {| ListOptions.limit := limit; ListOptions.before := UserFrame.before f |} in
  let r := (listUsers options w).1 in
  match r with
  | Rejected e =>
      users_page f w =
      MkRun (Ok Break) f (listUsers options w).2 [EvListUsers options r]
  | Resolved response =>
      let workosUsers := ListResponse.data response in
      let f1 :=
        UserFrame.set_totalUsers (UserFrame.totalUsers f + length workosUsers)
          (UserFrame.set_hasMoreUsers (length workosUsers =? limit)
             (UserFrame.set_before (next_before response) f)) in
      let l := for_of workosUsers migrate_user f1 (listUsers options w).2 in
      users_page f w =
      MkRun (Ok Normal) (frame l) (world l) (EvListUsers options r :: trace l)
  end.
Proof.
  intros options. cbv zeta.
  destruct (listUsers options w) as [[response|e] w1] eqn:E; cbn [fst snd];
    unfold users_page.
  - apply try_catch_run_ok. run_ok. fold options.
    erewrite bind_run by (apply await_resolved; exact E). cbn [res frame world trace app].
    do 4 run_ok.
    erewrite bind_run by (apply run_ok_eta, for_of_migrate_user).
    cbn [res frame world trace app ret]. rewrite app_nil_r. reflexivity.
  - erewrite try_catch_run_throw
      by (run_ok; fold options;
          erewrite bind_run_throw by (apply await_rejected; exact E); reflexivity).
    reflexivity.
Qed.

Lemma organization_event_no_fetch org ev :
  organization_event org ev -> org_fetch ev = None /\ user_fetch ev = None.
Proof. destruct ev; simpl; try contradiction; auto. Qed.

Lemma user_event_no_fetch workosUser ev :
  user_event workosUser ev -> org_fetch ev = None /\ user_fetch ev = None.
Proof. destruct ev; simpl; try contradiction; auto. Qed.

Lemma organization_event_no_get org ev : organization_event org ev -> is_map_get ev = false.
Proof. destruct ev; simpl; try contradiction; auto. Qed.

Lemma user_event_no_set workosUser ev : user_event workosUser ev -> is_map_set ev = false.
Proof. destruct ev; simpl; try contradiction; auto. Qed.

Lemma organizations_page_spec :
  page_spec OrgFrame.hasMoreOrgs OrgFrame.totalOrgs org_fetch organizations_page.
Proof.
  intros f w o. subst o. pose proof (organizations_page_run f w) as Hrun. cbv zeta in Hrun.
  destruct (listOrganizations _ w).1 as [response|e] eqn:E; rewrite Hrun; clear Hrun;
    eexists _, _; (split; [reflexivity |]); cbn [res frame trace org_fetch].
  - split.
    + apply omap_nil_Forall. apply (emits_for_of (Forall (fun ev => org_fetch ev = None))).
      intros org _. apply emits_migrate_organization; [apply _ |].
      intros ev Hev. constructor; [| constructor]. eapply organization_event_no_fetch, Hev.
    + split; [reflexivity |].
      match goal with |- context [for_of ?l _ ?f1 ?w1] =>
        destruct (for_of_migrate_organization l f1 w1) as (_ & H1 & H2 & _) end.
      rewrite H1, H2. split; reflexivity.
  - split; [reflexivity |]. auto.
Qed.

Lemma users_page_spec :
  page_spec UserFrame.hasMoreUsers UserFrame.totalUsers user_fetch users_page.
Proof.
  intros f w o. subst o. pose proof (users_page_run f w) as Hrun. cbv zeta in Hrun.
  destruct (listUsers _ w).1 as [response|e] eqn:E; rewrite Hrun; clear Hrun;
    eexists _, _; (split; [reflexivity |]); cbn [res frame trace user_fetch].
  - split.
    + apply omap_nil_Forall. apply (emits_for_of (Forall (fun ev => user_fetch ev = None))).
      intros u _. apply emits_migrate_user; [apply _ |].
      intros ev Hev. constructor; [| constructor]. eapply user_event_no_fetch, Hev.
    + split; [reflexivity |].
      match goal with |- context [for_of ?l _ ?f1 ?w1] =>
        destruct (for_of_migrate_user l f1 w1) as (_ & (H1 & H2 & _) & _) end.
      rewrite H1, H2. split; reflexivity.
  - split; [reflexivity |]. auto.
Qed.

Lemma users_page_counts (f : UserFrame.t) (w : W) :
  UserFrame.totalUsers f = UserFrame.migratedUsers f + UserFrame.failedUsers f ->
  let f' := frame (users_page f w) in
  UserFrame.totalUsers f' = UserFrame.migratedUsers f' + UserFrame.failedUsers f'.
Proof.
  intros Hf. cbv zeta. pose proof (users_page_run f w) as Hrun. cbv zeta in Hrun.
  destruct (listUsers _ w).1 as [page|e]; rewrite Hrun; cbn [frame]; [| exact Hf].
  match goal with |- context [for_of ?l _ ?f1 ?w1] =>
    destruct (for_of_migrate_user l f1 w1) as (_ & (H1 & _) & H2) end.
  rewrite H1. simpl in *. lia.
Qed.

Lemma users_page_orgMap (f : UserFrame.t) (w : W) :
  UserFrame.orgMap (frame (users_page f w)) = UserFrame.orgMap f.
Proof.
  pose proof (users_page_run f w) as Hrun. cbv zeta in Hrun.
  destruct (listUsers _ w).1 as [page|e]; rewrite Hrun; cbn [frame]; [| reflexivity].
  match goal with |- context [for_of ?l _ ?f1 ?w1] =>
    destruct (for_of_migrate_user l f1 w1) as (_ & (_ & _ & _ & H1) & _) end.
  rewrite H1. reflexivity.
Qed.

End Pages.

(** ** The script: the two phases *)

Section Phases.
Context {W : Type} `{!Env W}.

Lemma migrateOrganizations_run fuel (w : W) :
  let l := while fuel OrgFrame.hasMoreOrgs organizations_page OrgFrame.init w in
  migrateOrganizations fuel w =
  MkRun (match res l with
         | Ok _ => Ok (OrgFrame.orgMap (frame l))
         | Throw e => Throw e
         | OutOfFuel => OutOfFuel
         end) (frame l) (world l) (trace l).
Proof.
  intros l. unfold migrateOrganizations, migrateOrganizations_from, bind. fold l.
  destruct (res l); simpl; rewrite ?app_nil_r; reflexivity.
Qed.

Lemma migrateOrganizations_more_fuel fuel fuel' (w : W) orgMap :
  res (migrateOrganizations fuel w) = Ok orgMap -> fuel <= fuel' ->
  migrateOrganizations fuel' w = migrateOrganizations fuel w.
Proof.
  intros Hres Hle. rewrite !migrateOrganizations_run in *. cbv zeta in *. cbn [res] in Hres.
  rewrite (while_more_fuel _ _ fuel fuel'); [reflexivity | | exact Hle].
  intros H. rewrite H in Hres. discriminate.
Qed.

Lemma org_phase_has_no_user_fetch fuel (w : W) :
  user_fetches (trace (migrateOrganizations fuel w)) = [].
Proof.
  apply omap_nil_Forall.
  apply (emits_migrateOrganizations (Forall (fun ev => user_fetch ev = None))).
  apply emits_organizations_page; [apply _ | |].
  - intros options r. constructor; [reflexivity | constructor].
  - intros org ev Hev. constructor; [| constructor]. eapply organization_event_no_fetch, Hev.
Qed.

Lemma user_phase_has_no_org_fetch fuel (f : UserFrame.t) (w : W) :
  org_fetches (trace (migrateUsers fuel f w)) = [].
Proof.
  apply omap_nil_Forall.
  apply (emits_while (Forall (fun ev => org_fetch ev = None))).
  apply emits_users_page; [apply _ | |].
  - intros options r. constructor; [reflexivity | constructor].
  - intros u ev Hev. constructor; [| constructor]. eapply user_event_no_fetch, Hev.
Qed.

End Phases.

(** ** The script: where rows come from *)

Section Provenance.
Context {W : Type} `{!Env W}.

(** The trace of the [try] block of a user: the factors are fetched, then
    the user row is created from them, then come the associations. *)
Lemma process_user_trace workosUser (f : UserFrame.t) (w : W) :
  let r := (listAuthFactors (WorkOSUser.id workosUser) w).1 in
  exists t,
    trace (process_user workosUser f w) = EvListAuthFactors (WorkOSUser.id workosUser) r :: t /\
    match r with
    | Rejected _ => t = []
    | Resolved response =>
        exists createdAt updatedAt r' t',
          t = EvCreate (user_args workosUser (ListResponse.data response) createdAt updatedAt) r'
              :: t' /\
          Forall (association_event workosUser) t'
    end.
Proof.
  intros r. unfold process_user.
  rewrite trace_bind. cbn [await res frame world trace app]. fold r.
  eexists. split; [reflexivity |].
  destruct r as [response|e]; cbn [of_reply]; [| reflexivity].
  match goal with |- context [bind (safeDateConversion ?d) _ ?f0 ?w0] =>
    destruct (safeDateConversion_ok d f0 w0) as (createdAt & w1 & E1) end.
  erewrite bind_run by exact E1. cbn [res frame world trace app].
  match goal with |- context [bind (safeDateConversion ?d) _ ?f0 ?w0] =>
    destruct (safeDateConversion_ok d f0 w0) as (updatedAt & w2 & E2) end.
  erewrite bind_run by exact E2. cbn [res frame world trace app].
  rewrite trace_bind. unfold create at 1. cbn [await res frame world trace app].
  eexists createdAt, updatedAt, _, _. split; [reflexivity |].
  unfold create. cbn [await res frame world].
  destruct (adapter_create _ w2).1; cbn [of_reply]; [| constructor].
  apply (emits_after_user_row (Forall (association_event workosUser))).
  intros ev Hev. constructor; [exact Hev | constructor].
Qed.

Lemma user_row_in_page_later workosUsers t0 t1 args :
  user_row_in_page workosUsers t1 args -> user_row_in_page workosUsers (t0 ++ t1) args.
Proof.
  intros (u & response & c1 & c2 & t & -> & -> & Hin).
  exists u, response, c1, c2, (t0 ++ t). rewrite app_assoc. auto.
Qed.

Lemma user_row_in_run_later t0 t1 args :
  user_row_in_run t1 args -> user_row_in_run (t0 ++ t1) args.
Proof.
  intros (u & response & c1 & c2 & options & page & ta & tb & -> & -> & Hin).
  exists u, response, c1, c2, options, page, (t0 ++ ta), tb. rewrite app_assoc. auto.
Qed.

Lemma organization_row_in_page_later orgs t0 t1 args :
  organization_row_in_page orgs t1 args -> organization_row_in_page orgs (t0 ++ t1) args.
Proof. intros (org & c1 & c2 & -> & Hin). exists org, c1, c2. auto. Qed.

Lemma organization_row_in_run_later t0 t1 args :
  organization_row_in_run t1 args -> organization_row_in_run (t0 ++ t1) args.
Proof.
  intros (org & c1 & c2 & options & page & ta & tb & -> & -> & Hin).
  exists org, c1, c2, options, page, (t0 ++ ta), tb. rewrite app_assoc. auto.
Qed.

Lemma association_event_not_user_row workosUser args r :
  association_event workosUser (EvCreate args r) -> ~ is_user_row args.
Proof. unfold is_user_row. simpl. intros (_ & [H|[H|H]]); rewrite H; discriminate. Qed.

Lemma user_event_not_organization_row workosUser args r :
  user_event workosUser (EvCreate args r) -> ~ is_organization_row args.
Proof.
  unfold is_organization_row. simpl.
  intros [(fs & c1 & c2 & ->)|(_ & [H|[H|H]])]; [| rewrite H ..]; discriminate.
Qed.

Lemma organization_event_not_user_row org args r :
  organization_event org (EvCreate args r) -> ~ is_user_row args.
Proof. unfold is_user_row. simpl. intros (c1 & c2 & ->). discriminate. Qed.

Lemma migrate_user_rows workosUsers workosUser :
  workosUser ∈ workosUsers ->
  emits (rows_justified is_user_row (user_row_in_page workosUsers)) (migrate_user workosUser).
Proof.
  intros Hin f w. destruct (migrate_user_run workosUser f w) as (_ & -> & _).
  destruct (process_user_trace workosUser f w) as (t & -> & Ht).
  intros t1 args r t2 Heq Hrow.
  destruct t1 as [|ev1 t1]; [discriminate |]. injection Heq as <- ->.
  destruct (listAuthFactors (WorkOSUser.id workosUser) w).1 as [response|e];
    [| destruct t1; discriminate].
  destruct Ht as (createdAt & updatedAt & r' & t' & Ht & Hassoc).
  destruct t1 as [|ev2 t1]; simpl in Ht.
  - injection Ht as -> -> ->.
    exists workosUser, response, createdAt, updatedAt, []. auto.
  - injection Ht as -> <-. exfalso.
    rewrite Forall_forall in Hassoc.
    eapply association_event_not_user_row; [| exact Hrow].
    apply Hassoc. apply elem_of_app. right. left.
Qed.

Lemma users_page_rows :
  emits (rows_justified is_user_row user_row_in_run) users_page.
Proof.
  intros f w. pose proof (users_page_run f w) as Hrun. cbv zeta in Hrun.
  destruct (listUsers _ w).1 as [page|e]; rewrite Hrun; clear Hrun; cbn [trace].
  - intros t1 args r t2 Heq Hrow.
    destruct t1 as [|ev1 t1]; [discriminate |]. injection Heq as <- Heq.
    assert (Hpage : rows_justified is_user_row (user_row_in_page (ListResponse.data page))
                      (t1 ++ EvCreate args r :: t2)).
    { rewrite <- Heq.
      apply (emits_for_of (rows_justified is_user_row (user_row_in_page (ListResponse.data page)))
               (Monoidal0 := rows_justified_monoidal _ _ (user_row_in_page_later _))).
      intros u Hu. apply migrate_user_rows. exact Hu. }
    destruct (Hpage t1 args r t2 eq_refl Hrow) as (u & response & c1 & c2 & t0 & -> & -> & Hin).
    eexists u, response, c1, c2, _, page, [], t0.
    split; [reflexivity |]. split; [reflexivity | exact Hin].
  - intros [|? [|]] ? ? ? ?; discriminate.
Qed.

Lemma organizations_page_no_user_rows :
  emits (rows_justified is_user_row user_row_in_run) organizations_page.
Proof.
  eapply emits_weaken; [apply rows_justified_other |].
  apply emits_organizations_page; [apply _ | |].
  - intros options r. constructor; [discriminate | constructor].
  - intros org ev Hev. constructor; [| constructor].
    intros args r ->. eapply organization_event_not_user_row, Hev.
Qed.

(** Every user row of a run is built from a fetched user and from the
    factors fetched for that user just before. *)
Lemma user_rows_of_run fuel (w : W) :
  rows_justified is_user_row user_row_in_run (trace (migrateFromWorkOS fuel w)).
Proof.
  apply (emits_migrateFromWorkOS _
           (Monoidal0 := rows_justified_monoidal _ _ user_row_in_run_later)).
  - apply organizations_page_no_user_rows.
  - apply users_page_rows.
Qed.

Lemma migrate_organization_rows orgs org :
  org ∈ orgs ->
  emits (rows_justified is_organization_row (organization_row_in_page orgs))
        (migrate_organization org).
Proof.
  intros Hin.
  apply (emits_migrate_organization _
           (Monoidal0 := rows_justified_monoidal _ _ (organization_row_in_page_later _))).
  intros ev Hev t1 args r t2 Heq _.
  destruct t1 as [|? [|]]; try discriminate. injection Heq as ->.
  destruct Hev as (c1 & c2 & ->). exists org, c1, c2. auto.
Qed.

Lemma organizations_page_rows :
  emits (rows_justified is_organization_row organization_row_in_run) organizations_page.
Proof.
  intros f w. pose proof (organizations_page_run f w) as Hrun. cbv zeta in Hrun.
  destruct (listOrganizations _ w).1 as [page|e]; rewrite Hrun; clear Hrun; cbn [trace].
  - intros t1 args r t2 Heq Hrow.
    destruct t1 as [|ev1 t1]; [discriminate |]. injection Heq as <- Heq.
    assert (Hpage : rows_justified is_organization_row
                      (organization_row_in_page (ListResponse.data page))
                      (t1 ++ EvCreate args r :: t2)).
    { rewrite <- Heq.
      apply (emits_for_of
               (rows_justified is_organization_row
                  (organization_row_in_page (ListResponse.data page)))
               (Monoidal0 := rows_justified_monoidal _ _ (organization_row_in_page_later _))).
      intros org Horg. apply migrate_organization_rows. exact Horg. }
    destruct (Hpage t1 args r t2 eq_refl Hrow) as (org & c1 & c2 & -> & Hin).
    eexists org, c1, c2, _, page, [], t1.
    split; [reflexivity |]. split; [reflexivity | exact Hin].
  - intros [|? [|]] ? ? ? ?; discriminate.
Qed.

Lemma users_page_no_organization_rows :
  emits (rows_justified is_organization_row organization_row_in_run) users_page.
Proof.
  eapply emits_weaken; [apply rows_justified_other |].
  apply emits_users_page; [apply _ | |].
  - intros options r. constructor; [discriminate | constructor].
  - intros u ev Hev. constructor; [| constructor].
    intros args r ->. eapply user_event_not_organization_row, Hev.
Qed.

Lemma organization_rows_of_run fuel (w : W) :
  rows_justified is_organization_row organization_row_in_run (trace (migrateFromWorkOS fuel w)).
Proof.
  apply (emits_migrateFromWorkOS _
           (Monoidal0 := rows_justified_monoidal _ _ organization_row_in_run_later)).
  - apply organizations_page_rows.
  - apply users_page_no_organization_rows.
Qed.



End Provenance.

(** ** The script: the calls that end the block of a user *)

Section FatalFacts.
Context {W F : Type}.
Implicit Types (f : F) (w : W).

Lemma ends_at_fatal_quiet {A} (m : M W F A) :
  emits (Forall (fun ev => fatal ev = false)) m ->
  (forall f w, exists a, res (m f w) = Ok a) ->
  ends_at_fatal m.
Proof.
  intros Hm Hok f w. unfold stops_at_fatal. destruct (Hok f w) as [a ->]. apply Hm.
Qed.

Lemma ends_at_fatal_ret {A} (a : A) : ends_at_fatal (ret (W:=W) (F:=F) a).
Proof. intros f w. constructor. Qed.

Lemma ends_at_fatal_gets {A} (p : F -> A) : ends_at_fatal (gets (W:=W) p).
Proof. intros f w. constructor. Qed.

Lemma ends_at_fatal_modify (g : F -> F) : ends_at_fatal (modify (W:=W) g).
Proof. intros f w. constructor. Qed.

Lemma ends_at_fatal_await {A} (op : W -> Reply A * W) ev :
  (forall a, fatal (ev (Resolved a)) = false) ->
  (forall e, fatal (ev (Rejected e)) = true) ->
  ends_at_fatal (await (F:=F) op ev).
Proof.
  intros Hok Hrej f w. unfold stops_at_fatal, await. cbn [res trace].
  destruct (op w).1 as [a|e]; cbn [of_reply].
  - constructor; [apply Hok | constructor].
  - exists [], (ev (Rejected e)). split; [reflexivity |]. split; [apply Hrej | constructor].
Qed.

Lemma ends_at_fatal_bind {A B} (m : M W F A) (k : A -> M W F B) :
  ends_at_fatal m -> (forall a, ends_at_fatal (k a)) -> ends_at_fatal (bind m k).
Proof.
  intros Hm Hk f w. specialize (Hm f w). unfold stops_at_fatal in *. unfold bind.
  destruct (res (m f w)) as [a|e|]; cbn [res trace]; [| exact Hm | exact Hm].
  specialize (Hk a (frame (m f w)) (world (m f w))). unfold stops_at_fatal in Hk.
  destruct (res (k a (frame (m f w)) (world (m f w)))) as [b|e|]; [| | exact Hk].
  - apply Forall_app. auto.
  - destruct Hk as (t & ev & -> & Hev & Ht).
    exists (trace (m f w) ++ t), ev. rewrite app_assoc.
    split; [reflexivity |]. split; [exact Hev | apply Forall_app; auto].
Qed.

Lemma ends_at_fatal_for_of {A} (xs : list A) (body : A -> M W F unit) :
  (forall x, ends_at_fatal (body x)) -> ends_at_fatal (for_of xs body).
Proof.
  intros Hb. induction xs as [|x xs IH]; simpl.
  - apply ends_at_fatal_ret.
  - apply ends_at_fatal_bind; [apply Hb | intros _; exact IH].
Qed.

(** A fatal event is the last one of a run that stops at it. *)
Lemma stops_at_fatal_last {A} (o : Run W F A) t1 ev t2 :
  stops_at_fatal o -> trace o = t1 ++ ev :: t2 -> fatal ev = true ->
  t2 = [] /\ exists e, res o = Throw e.
Proof.
  unfold stops_at_fatal. intros Ho Htr Hev.
  destruct (res o) as [a|e|]; [| | contradiction].
  - exfalso. rewrite Htr in Ho. apply Forall_app in Ho as [_ Ho].
    apply Forall_cons in Ho as [Ho _]. congruence.
  - destruct Ho as (t & ev' & Ho & _ & Ht). rewrite Htr in Ho.
    split; [| eauto].
    destruct (decide (t2 = [])) as [Hnil|Hne]; [exact Hnil |]. exfalso.
    destruct (exists_last Hne) as (t2' & ev2 & ->).
    rewrite app_comm_cons, app_assoc in Ho. apply app_inj_tail in Ho as [<- _].
    apply Forall_app in Ht as [_ Ht]. apply Forall_cons in Ht as [Ht _]. congruence.
Qed.

End FatalFacts.

Section Fatal.
Context {W : Type} `{!Env W}.

Lemma ends_at_fatal_safeDateConversion {F} date :
  ends_at_fatal (safeDateConversion (W:=W) (F:=F) date).
Proof.
  intros f w. unfold stops_at_fatal. rewrite safeDateConversion_run.
  destruct (falsy date); constructor.
Qed.

Lemma ends_at_fatal_generateBackupCodes {F} secret :
  ends_at_fatal (generateBackupCodes (W:=W) (F:=F) secret).
Proof.
  unfold generateBackupCodes. apply ends_at_fatal_bind.
  - intros f w. unfold stops_at_fatal.
    destruct (backupCodes_run f w) as (codes & w1 & -> & _). constructor.
  - intros codes. apply ends_at_fatal_bind; [| intros; apply ends_at_fatal_ret].
    apply ends_at_fatal_await; reflexivity.
Qed.

Lemma ends_at_fatal_create_credentials_account workosUser authFactors createdUser :
  ends_at_fatal (W:=W) (create_credentials_account workosUser authFactors createdUser).
Proof.
  unfold create_credentials_account.
  match goal with |- context [List.find ?p authFactors] =>
    pose proof (find_first p authFactors) as Hfind; destruct (List.find p authFactors) as [ef|] end;
    [| apply ends_at_fatal_ret].
  destruct Hfind as (l1 & l2 & _ & Hp & _). apply andb_true_iff in Hp as [_ Hconf].
  apply bool_decide_eq_true in Hconf as [conf ->]. cbn [member_of].
  apply ends_at_fatal_bind; [apply ends_at_fatal_ret | intros ?].
  apply ends_at_fatal_bind; [apply ends_at_fatal_safeDateConversion | intros ?].
  apply ends_at_fatal_bind; [apply ends_at_fatal_safeDateConversion | intros ?].
  apply ends_at_fatal_bind; [| intros; apply ends_at_fatal_ret].
  apply ends_at_fatal_await; reflexivity.
Qed.

Lemma create_oauth_account_ok workosUser createdUser (f : UserFrame.t) (w : W) :
  res (create_oauth_account workosUser createdUser f w) = Ok tt.
Proof.
  unfold create_oauth_account. apply try_catch_ok; [| reflexivity].
  match goal with |- res (?m f w) <> _ =>
    assert (Hk : keeps eq m) by (repeat keeps_step) end.
  apply Hk.
Qed.

Lemma create_memberships_ok workosUser createdUser (f : UserFrame.t) (w : W) :
  res (create_memberships workosUser createdUser f w) = Ok tt.
Proof.
  unfold create_memberships. apply try_catch_ok; [| reflexivity].
  match goal with |- res (?m f w) <> _ =>
    assert (Hk : keeps eq m)
      by (unfold migrate_membership, role_of; repeat keeps_step) end.
  apply Hk.
Qed.

Lemma ends_at_fatal_create_oauth_account workosUser createdUser :
  ends_at_fatal (W:=W) (create_oauth_account workosUser createdUser).
Proof.
  apply ends_at_fatal_quiet; [| intros f w; eexists; apply create_oauth_account_ok].
  unfold create_oauth_account.
  repeat emits_step; (constructor; [| constructor]);
    match goal with |- fatal (_ ?r) = false => destruct r; reflexivity | _ => reflexivity end.
Qed.

Lemma ends_at_fatal_create_memberships workosUser createdUser :
  ends_at_fatal (W:=W) (create_memberships workosUser createdUser).
Proof.
  apply ends_at_fatal_quiet; [| intros f w; eexists; apply create_memberships_ok].
  unfold create_memberships, migrate_membership, role_of.
  repeat emits_step; (constructor; [| constructor]);
    match goal with |- fatal (_ ?r) = false => destruct r; reflexivity | _ => reflexivity end.
Qed.

Lemma ends_at_fatal_migrate_factor createdUser factor :
  ends_at_fatal (W:=W) (migrate_factor createdUser factor).
Proof.
  unfold migrate_factor. destruct (has_type "totp" factor); [| apply ends_at_fatal_ret].
  destruct (WorkOSAuthFactor.totp_configuration factor); [| apply ends_at_fatal_ret].
  apply ends_at_fatal_bind; [apply ends_at_fatal_generateBackupCodes | intros codes].
  apply ends_at_fatal_bind; [| intros; apply ends_at_fatal_ret].
  apply ends_at_fatal_await; reflexivity.
Qed.

Lemma ends_at_fatal_process_user workosUser :
  ends_at_fatal (W:=W) (process_user workosUser).
Proof.
  unfold process_user.
  apply ends_at_fatal_bind; [apply ends_at_fatal_await; reflexivity | intros response].
  apply ends_at_fatal_bind; [apply ends_at_fatal_safeDateConversion | intros ?].
  apply ends_at_fatal_bind; [apply ends_at_fatal_safeDateConversion | intros ?].
  apply ends_at_fatal_bind; [apply ends_at_fatal_await; reflexivity | intros createdUser].
  unfold after_user_row.
  apply ends_at_fatal_bind; [apply ends_at_fatal_create_credentials_account | intros _].
  apply ends_at_fatal_bind; [apply ends_at_fatal_create_oauth_account | intros _].
  apply ends_at_fatal_bind; [apply ends_at_fatal_create_memberships | intros _].
  apply ends_at_fatal_bind;
    [apply ends_at_fatal_for_of; intros factor; apply ends_at_fatal_migrate_factor | intros _].
  apply ends_at_fatal_bind; [apply ends_at_fatal_gets | intros ?; apply ends_at_fatal_modify].
Qed.

End Fatal.

(** ** The scripted environment *)

Lemma demo_pick_alnum k : is_alnum (Demo.pick k) = true.
Proof.
  assert (Hall : Forall (fun c => is_alnum c = true) Demo.alphabet)
    by (vm_compute; repeat constructor).
  rewrite Forall_forall in Hall. apply Hall, list_elem_of_In, nth_In.
  change (length Demo.alphabet) with 62. apply Nat.mod_upper_bound. discriminate.
Qed.

(** The scripted environment keeps the contract of [generateRandomString]. *)
Lemma demo_generateRandomString_contract sc :
  generateRandomString_contract (Env0 := Demo.env sc).
Proof.
  intros n w. cbv zeta.
  change (generateRandomString n [js "a-z"; js "0-9"; js "A-Z"] w).1
    with (map (fun i => Demo.pick (Demo.seed w + 7 * i)) (seq 0 n)).
  split.
  - rewrite length_map, length_seq. reflexivity.
  - apply Forall_map, Forall_forall. intros i _. apply demo_pick_alnum.
Qed.

(** ** The script on the scripted environment *)

Example slug_of_acme :
  slug_of_name (Env0 := Demo.env Demo.sunny) (js "Acme Inc.") = js "acme-inc-".
Proof. reflexivity. Qed.

Example split_at_signs : split at_sign (js "a@b@c") = [js "a"; js "b"; js "c"].
Proof. reflexivity. Qed.

Example split_empty : split at_sign [] = [[]].
Proof. reflexivity. Qed.

Example trim_both_ends : trim (js "  Ada Lovelace ") = js "Ada Lovelace".
Proof. reflexivity. Qed.

Example name_of_ada : user_name Demo.ada = js "Ada Lovelace".
Proof. reflexivity. Qed.

(** Without a first and a last name, the name is the email. *)
Example name_of_bob : user_name Demo.bob = js "bob@example.com".
Proof. reflexivity. Qed.

(** One page of two organizations: both are migrated and mapped. *)
Example sunny_organizations :
  let o := Demo.org_run Demo.sunny in
  (OrgFrame.totalOrgs (frame o), OrgFrame.migratedOrgs (frame o),
   OrgFrame.failedOrgs (frame o), org_fetches (trace o)) = (2, 2, 0, [Some 2]) /\
  res o = Ok Demo.both_orgs.
Proof. split; [vm_compute; reflexivity | reflexivity]. Qed.

(** A user with one TOTP factor: [twoFactorEnabled] is set, no phone number
    is verified, and one two-factor row is created. *)
Example sunny_users :
  let o := Demo.run Demo.sunny in
  (res o, UserFrame.totalUsers (frame o), UserFrame.migratedUsers (frame o),
   UserFrame.failedUsers (frame o)) = (Ok tt, 2, 2, 0) /\
  length (created_rows twoFactor (trace o)) = 1 /\
  nth_error (trace o) 7 = Some (EvCreate Demo.ada_args (Resolved Demo.created_ada)) /\
  match CreateArgs.data Demo.ada_args with
  | UserRow d =>
      UserData.twoFactorEnabled d = true /\ UserData.phoneNumberVerified d = false /\
      UserData.username d = Some (js "ada")
  | _ => False
  end.
Proof. vm_compute. repeat split; reflexivity. Qed.

(** The adapter rejects one user row out of a hundred, and the second page
    cannot be fetched. *)
Example stormy_users :
  let o := Demo.run Demo.stormy in
  (res o, UserFrame.totalUsers (frame o), UserFrame.migratedUsers (frame o),
   UserFrame.failedUsers (frame o)) = (Ok tt, 100, 99, 1) /\
  (org_fetches (trace o), user_fetches (trace o)) = ([None], [Some 100; None]).
Proof. vm_compute. split; reflexivity. Qed.

(** Three full pages need four iterations: the fourth page is empty. *)
Example crowded_users :
  res (migrateFromWorkOS (Env0 := Demo.env Demo.crowded) 3 Demo.start) = OutOfFuel /\
  let o := migrateFromWorkOS (Env0 := Demo.env Demo.crowded) 4 Demo.start in
  (res o, UserFrame.totalUsers (frame o), user_fetches (trace o)) =
  (Ok tt, 300, [Some 100; Some 100; Some 100; Some 0]).
Proof. vm_compute. split; reflexivity. Qed.

(** * The claims *)

Section Claims.
Context {W : Type} `{!Env W}.


(** C2. In a run where some page of organizations (of users) is shorter than
    the page size of 100, the loop ends, given enough fuel, exactly on that
    page: all the pages before it are full, no request follows it, and the
    number of records counted lies between (pages - 1) * 100 and
    pages * 100. *)
Theorem pagination_ends_on_short_page :
  (forall fuel (w : W) n,
     Some n ∈ org_fetches (trace (migrateOrganizations fuel w)) -> n < 100 ->
     exists k, forall fuel', k < fuel' ->
       let o := migrateOrganizations fuel' w in
       let pages := length (org_fetches (trace o)) in
       res o = Ok (OrgFrame.orgMap (frame o)) /\
       org_fetches (trace o) = replicate k (Some 100) ++ [Some n] /\
       OrgFrame.totalOrgs (frame o) = k * 100 + n /\
       (pages - 1) * 100 <= OrgFrame.totalOrgs (frame o) <= pages * 100)
  /\
  (forall fuel (w : W) n,
     Some n ∈ user_fetches (trace (migrateFromWorkOS fuel w)) -> n < 100 ->
     exists k fuel0, forall fuel', fuel0 <= fuel' ->
       let o := migrateFromWorkOS fuel' w in
       let pages := length (user_fetches (trace o)) in
       res o = Ok tt /\
       user_fetches (trace o) = replicate k (Some 100) ++ [Some n] /\
       UserFrame.totalUsers (frame o) = k * 100 + n /\
       (pages - 1) * 100 <= UserFrame.totalUsers (frame o) <= pages * 100).
Proof.
  split.
  - intros fuel w n Hin Hn. rewrite migrateOrganizations_run in Hin. cbn [trace] in Hin.
    destruct (while_short_page _ _ _ _ organizations_page_spec _ _ _ _ Hin Hn)
      as (k & _ & Hall).
    exists k. intros fuel' Hlt. destruct (Hall fuel' Hlt) as (H1 & H2 & H3).
    rewrite migrateOrganizations_run. cbn [res frame trace]. rewrite H1.
    unfold org_fetches. rewrite H2, H3, length_app, length_replicate.
    change limit with 100. simpl. repeat split; lia.
  - intros fuel w n Hin Hn. rewrite trace_migrateFromWorkOS in Hin.
    unfold user_fetches in Hin. rewrite omap_app in Hin.
    fold (user_fetches (trace (migrateOrganizations fuel w))) in Hin.
    rewrite org_phase_has_no_user_fetch in Hin. simpl in Hin.
    destruct (res (migrateOrganizations fuel w)) as [orgMap| |] eqn:Horg;
      [| inversion Hin | inversion Hin].
    destruct (while_short_page _ _ _ _ users_page_spec _ _ _ _ Hin Hn) as (k & Hk & Hall).
    exists k, fuel. intros fuel' Hle.
    destruct (Hall fuel' ltac:(lia)) as (H1 & H2 & H3).
    assert (Hrun : migrateFromWorkOS fuel' w =
      let o' := migrateUsers fuel' (UserFrame.init orgMap) (world (migrateOrganizations fuel w)) in
      MkRun (res o') (frame o') (world o') (trace (migrateOrganizations fuel w) ++ trace o')).
    { unfold migrateFromWorkOS.
      rewrite (migrateOrganizations_more_fuel fuel fuel' w orgMap Horg Hle), Horg. reflexivity. }
    rewrite Hrun. cbn [res frame trace]. unfold migrateUsers. rewrite H1.
    unfold user_fetches. rewrite omap_app.
    fold (user_fetches (trace (migrateOrganizations fuel w))).
    rewrite org_phase_has_no_user_fetch, app_nil_l, H2, H3, length_app, length_replicate.
    change limit with 100. simpl. repeat split; lia.
Qed.

(** C3. The slug of an organization is its lowercased name in which every
    code unit outside [a-z0-9] is replaced by a hyphen: it is made of
    lowercase letters, digits and hyphens, and is as long as the lowercased
    name. *)
Theorem slug_of_name_spec (name : jsstring) :
  slug_of_name name = map (fun c => if in_a_z0_9 c then c else hyphen) (toLowerCase name) /\
  Forall (fun c => is_lower c = true \/ is_digit c = true \/ c = hyphen) (slug_of_name name) /\
  length (slug_of_name name) = length (toLowerCase name).
Proof.
  assert (Heq : slug_of_name name =
                map (fun c => if in_a_z0_9 c then c else hyphen) (toLowerCase name)).
  { unfold slug_of_name. apply (replace_outside_single in_a_z0_9 hyphen). }
  split; [exact Heq |]. rewrite Heq. split.
  - apply Forall_map, Forall_forall. intros c _. apply in_a_z0_9_or_hyphen.
  - apply length_map.
Qed.

(** C4. Every user row that a run asks the adapter to create follows at once
    the resolved fetch of the authentication factors of that user, and its
    [twoFactorEnabled] is true exactly when one of these factors has the
    type "totp". *)
Theorem twoFactorEnabled_iff_totp fuel (w : W) t1 args r t2 :
  trace (migrateFromWorkOS fuel w) = t1 ++ EvCreate args r :: t2 ->
  CreateArgs.model args = user ->
  exists t0 response d,
    t1 = t0 ++ [EvListAuthFactors (UserData.id d) (Resolved response)] /\
    CreateArgs.data args = UserRow d /\
    (UserData.twoFactorEnabled d = true <->
     exists factor, factor ∈ ListResponse.data response /\
                    WorkOSAuthFactor.type factor = js "totp").
Proof.
  intros Htr Hmodel.
  destruct (user_rows_of_run fuel w t1 args r t2 Htr Hmodel)
    as (u & response & c1 & c2 & options & page & ta & tb & -> & -> & Hin).
  eexists (ta ++ EvListUsers options (Resolved page) :: tb), response, _.
  split; [| split; [reflexivity |]]; [rewrite <- app_assoc; reflexivity |].
  cbn. rewrite existsb_exists. split.
  - intros (factor & Hf & Ht). exists factor. split; [apply list_elem_of_In, Hf |].
    apply (has_type_spec "totp"), Ht.
  - intros (factor & Hf & Ht). exists factor. split; [apply list_elem_of_In, Hf |].
    apply (has_type_spec "totp"), Ht.
Qed.

(** C5. If [generateRandomString] keeps its contract, [generateBackupCodes]
    draws exactly 10 codes, each matching [[A-Za-z0-9]{5}-[A-Za-z0-9]{5}],
    and answers what [symmetricEncrypt] makes of their serialization under
    the key it was given; for a TOTP factor that key is the secret of the
    factor. *)
Theorem backup_codes (Hgen : generateRandomString_contract) :
  (forall F secret (f : F) (w : W),
     exists codes w1,
       backupCodes f w = MkRun (Ok codes) f w1 [] /\
       length codes = 10 /\
       Forall (fun code => matches_code_pattern code = true) codes /\
       let args := {| EncryptArgs.data := JSON_stringify codes; EncryptArgs.key := secret |} in
       generateBackupCodes secret f w =
       MkRun (of_reply (symmetricEncrypt args w1).1) f (symmetricEncrypt args w1).2
             [EvSymmetricEncrypt args (symmetricEncrypt args w1).1])
  /\
  (forall createdUser factor (f : UserFrame.t) (w : W) args r,
     EvSymmetricEncrypt args r ∈ trace (migrate_factor createdUser factor f w) ->
     exists totp_configuration,
       WorkOSAuthFactor.type factor = js "totp" /\
       WorkOSAuthFactor.totp_configuration factor = Some totp_configuration /\
       EncryptArgs.key args = TotpConfiguration.secret totp_configuration).
Proof.
  split.
  - intros F secret f w.
    destruct (backupCodes_run f w) as (codes & w1 & Hcodes & Hlen & Hall).
    exists codes, w1. split; [exact Hcodes |]. split; [exact Hlen |]. split.
    + eapply Forall_impl; [exact Hall |].
      intros code [w0 ->]. destruct (Hgen 10 w0) as [H1 H2]. apply code_format; assumption.
    + intros args. unfold generateBackupCodes. erewrite bind_run by exact Hcodes.
      fold args. unfold bind, await. cbn [res frame world trace].
      destruct (symmetricEncrypt args w1).1; reflexivity.
  - intros createdUser factor f w args r Hin. unfold migrate_factor in Hin.
    destruct (has_type "totp" factor) eqn:Htype; [| inversion Hin].
    destruct (WorkOSAuthFactor.totp_configuration factor) as [conf|]; [| inversion Hin].
    exists conf. split; [apply (has_type_spec "totp"), Htype |]. split; [reflexivity |].
    revert Hin.
    match goal with |- _ ∈ trace (?m f w) -> _ =>
      assert (Hm : emits (Forall (fun ev => forall a r', ev = EvSymmetricEncrypt a r' ->
                                   EncryptArgs.key a = TotpConfiguration.secret conf)) m) end.
    { repeat emits_step.
      - constructor; [| constructor]. intros a r' [= <- _]. reflexivity.
      - constructor; [discriminate | constructor]. }
    intros Hin. specialize (Hm f w). rewrite Forall_forall in Hm.
    exact (Hm _ Hin args r eq_refl).
Qed.

(** C6, as amended.  An exception that leaves the [try] block of a user is
    caught at that user: [migrate_user] always ends normally, having
    incremented [failedUsers] once if the block threw and [migratedUsers]
    once otherwise; the loop over the page then goes on with the next user,
    so that every user of the page is processed and counted once, and at
    the end of a run [totalUsers] is the sum of the two counters.  An
    exception raised inside the block of the OAuth connection or inside the
    block of the memberships is caught by the handler of that block, which
    always ends normally and leaves the counters alone: it does not count
    as a failure.  A user for whom no call outside these two blocks is
    rejected is counted as migrated. *)
Theorem user_failures_are_isolated :
  (forall workosUser (f : UserFrame.t) (w : W),
     let o := migrate_user workosUser f w in
     res o = Ok tt /\
     match res (process_user workosUser f w) with
     | Ok _ =>
         UserFrame.migratedUsers (frame o) = S (UserFrame.migratedUsers f) /\
         UserFrame.failedUsers (frame o) = UserFrame.failedUsers f
     | Throw _ =>
         UserFrame.failedUsers (frame o) = S (UserFrame.failedUsers f) /\
         UserFrame.migratedUsers (frame o) = UserFrame.migratedUsers f
     | OutOfFuel => False
     end)
  /\
  (forall workosUser workosUsers (f : UserFrame.t) (w : W),
     let o1 := migrate_user workosUser f w in
     let o2 := for_of workosUsers migrate_user (frame o1) (world o1) in
     for_of (workosUser :: workosUsers) migrate_user f w =
     MkRun (res o2) (frame o2) (world o2) (trace o1 ++ trace o2))
  /\
  (forall workosUsers (f : UserFrame.t) (w : W),
     let o := for_of workosUsers migrate_user f w in
     res o = Ok tt /\
     UserFrame.migratedUsers (frame o) + UserFrame.failedUsers (frame o) =
       UserFrame.migratedUsers f + UserFrame.failedUsers f + length workosUsers /\
     Forall (fun workosUser =>
               exists r, EvListAuthFactors (WorkOSUser.id workosUser) r ∈ trace o) workosUsers)
  /\
  (forall fuel (w : W),
     let o := migrateFromWorkOS fuel w in
     UserFrame.totalUsers (frame o) =
     UserFrame.migratedUsers (frame o) + UserFrame.failedUsers (frame o))
  /\
  (forall workosUser createdUser (f : UserFrame.t) (w : W),
     let o := create_oauth_account workosUser createdUser f w in
     res o = Ok tt /\ frame o = f)
  /\
  (forall workosUser createdUser (f : UserFrame.t) (w : W),
     let o := create_memberships workosUser createdUser f w in
     res o = Ok tt /\ frame o = f)
  /\
  (forall workosUser (f : UserFrame.t) (w : W),
     let o := migrate_user workosUser f w in
     existsb fatal (trace o) = false ->
     UserFrame.migratedUsers (frame o) = S (UserFrame.migratedUsers f) /\
     UserFrame.failedUsers (frame o) = UserFrame.failedUsers f).
Proof.
  assert (Hstep : forall workosUser workosUsers (f : UserFrame.t) (w : W),
     let o1 := migrate_user workosUser f w in
     let o2 := for_of workosUsers migrate_user (frame o1) (world o1) in
     for_of (workosUser :: workosUsers) migrate_user f w =
     MkRun (res o2) (frame o2) (world o2) (trace o1 ++ trace o2)).
  { intros u us f w. cbv zeta. cbn [for_of]. unfold bind.
    destruct (migrate_user_run u f w) as (-> & _). reflexivity. }
  split; [| split; [exact Hstep | split; [| split; [| split; [| split]]]]].
  - intros u f w. cbv zeta.
    destruct (migrate_user_run u f w) as (Hres & _ & _ & Hframe).
    split; [exact Hres |].
    destruct (res (process_user u f w)); [| | contradiction]; rewrite Hframe; auto.
  - intros us f w. cbv zeta.
    destruct (for_of_migrate_user us f w) as (H1 & _ & H2).
    split; [exact H1 |]. split; [exact H2 |]. clear H1 H2.
    revert f w. induction us as [|u us IH]; intros f w; [constructor |].
    rewrite Hstep. cbn [trace]. constructor.
    + destruct (migrate_user_run u f w) as (_ & -> & _).
      destruct (process_user_trace u f w) as (t & -> & _).
      eexists. apply elem_of_app. left. left.
    + eapply Forall_impl; [apply IH |]. intros u' [r Hr]. exists r.
      apply elem_of_app. right. exact Hr.
  - intros fuel w. cbv zeta. unfold migrateFromWorkOS.
    destruct (res (migrateOrganizations fuel w)); cbn [frame]; [| reflexivity | reflexivity].
    apply (while_invariant
             (fun f => UserFrame.totalUsers f =
                       UserFrame.migratedUsers f + UserFrame.failedUsers f)).
    + intros f w' Hf. apply users_page_counts. exact Hf.
    + reflexivity.
  - intros u cu f w. cbv zeta. split; [apply create_oauth_account_ok |].
    symmetry. apply keeps_create_oauth_account.
  - intros u cu f w. cbv zeta. split; [apply create_memberships_ok |].
    symmetry. apply keeps_create_memberships.
  - intros u f w. cbv zeta. intros Hnone.
    destruct (migrate_user_run u f w) as (_ & Htrace & _ & Hframe).
    rewrite Htrace in Hnone.
    pose proof (ends_at_fatal_process_user u f w) as Hp. unfold stops_at_fatal in Hp.
    destruct (res (process_user u f w)) as [[]|e|]; [| | contradiction].
    + rewrite Hframe. auto.
    + exfalso. destruct Hp as (t & ev & Ht & Hev & _). rewrite Ht in Hnone.
      rewrite existsb_app in Hnone. simpl in Hnone. rewrite Hev in Hnone.
      rewrite orb_true_r in Hnone. discriminate Hnone.
Qed.

(** C7. A rejected request for a page of organizations is the last call of
    the organization phase: what follows in the run is the user phase, which
    starts with its first page request.  A rejected request for a page of
    users is the last call of the run, which ends normally. *)
Theorem page_fetch_failure_ends_phase :
  (forall fuel (w : W) t1 options e t2,
     trace (migrateFromWorkOS fuel w) = t1 ++ EvListOrganizations options (Rejected e) :: t2 ->
     Forall (fun ev => is_org_phase_event ev = false) t2 /\
     exists r t3,
       t2 = EvListUsers {| ListOptions.limit := 100; ListOptions.before := None |} r :: t3)
  /\
  (forall fuel (w : W) t1 options e t2,
     trace (migrateFromWorkOS fuel w) = t1 ++ EvListUsers options (Rejected e) :: t2 ->
     t2 = [] /\ res (migrateFromWorkOS fuel w) = Ok tt).
Proof.
  split.
  - intros fuel w t1 options e t2 Htr. rewrite trace_migrateFromWorkOS in Htr.
    apply app_cons_split in Htr as [(t2' & Ha & ->)|(t1' & Hb & _)].
    + rewrite migrateOrganizations_run in *. cbv zeta in *. cbn [res trace world] in *.
      destruct (while_rejected _ _ _ _ organizations_page_spec _ _ _ _ _ _ Ha eq_refl)
        as (-> & Hres).
      rewrite Hres. cbn [app].
      destruct fuel as [|fuel]; [destruct t1; discriminate Ha |].
      match goal with |- context [migrateUsers _ ?f0 ?w0] =>
        set (f := f0); set (w' := w0) end.
      split.
      * apply (emits_while (Forall (fun ev => is_org_phase_event ev = false))).
        apply emits_users_page; [apply _ | |].
        -- intros o r. constructor; [reflexivity | constructor].
        -- intros u ev Hev. constructor; [| constructor].
           destruct ev as [| | | | | |args r'| | |]; simpl in *;
             try reflexivity; try contradiction.
           apply bool_decide_eq_false.
           eapply (user_event_not_organization_row u args r'), Hev.
      * unfold migrateUsers. simpl. rewrite trace_bind.
        pose proof (users_page_run f w') as Hrun. cbv zeta in Hrun.
        destruct (listUsers _ w').1 as [page|e']; rewrite Hrun; cbn [trace app];
          eexists _, _; reflexivity.
    + exfalso.
      assert (Hno : org_fetches (t1' ++ EvListOrganizations options (Rejected e) :: t2) = []).
      { rewrite <- Hb. destruct (res (migrateOrganizations fuel w)); try reflexivity.
        apply user_phase_has_no_org_fetch. }
      unfold org_fetches in Hno. rewrite omap_app in Hno.
      apply app_eq_nil in Hno as [_ Hno]. discriminate Hno.
  - intros fuel w t1 options e t2 Htr. rewrite trace_migrateFromWorkOS in Htr.
    apply app_cons_split in Htr as [(t2' & Ha & _)|(t1' & Hb & _)].
    + exfalso. pose proof (org_phase_has_no_user_fetch fuel w) as Hno.
      rewrite Ha in Hno. unfold user_fetches in Hno. rewrite omap_app in Hno.
      apply app_eq_nil in Hno as [_ Hno]. discriminate Hno.
    + unfold migrateFromWorkOS.
      destruct (res (migrateOrganizations fuel w)) as [orgMap| |];
        [| destruct t1'; discriminate Hb | destruct t1'; discriminate Hb].
      cbn [res].
      exact (while_rejected _ _ _ _ users_page_spec _ _ _ _ _ _ Hb eq_refl).
Qed.

(** C8. Every user row that a run asks the adapter to create is built from a
    user of a page fetched before, and its [username] is the part of the
    email of that user before the first "@": a prefix of the email without
    "@" that is followed by "@", or the whole email if it has no "@". *)
Theorem username_is_email_local_part fuel (w : W) t1 args r t2 :
  trace (migrateFromWorkOS fuel w) = t1 ++ EvCreate args r :: t2 ->
  CreateArgs.model args = user ->
  exists workosUser options page d name,
    EvListUsers options (Resolved page) ∈ t1 /\ workosUser ∈ ListResponse.data page /\
    CreateArgs.data args = UserRow d /\
    UserData.email d = WorkOSUser.email workosUser /\
    UserData.username d = Some name /\
    (at_sign ∉ name) /\
    (WorkOSUser.email workosUser = name \/
     exists rest, WorkOSUser.email workosUser = name ++ at_sign :: rest).
Proof.
  intros Htr Hmodel.
  destruct (user_rows_of_run fuel w t1 args r t2 Htr Hmodel)
    as (u & response & c1 & c2 & options & page & ta & tb & -> & -> & Hin).
  destruct (split_first at_sign (WorkOSUser.email u)) as (name & pieces & Hsplit & Hname & Hrest).
  eexists u, options, page, _, name.
  split; [apply elem_of_app; right; left |]. split; [exact Hin |].
  split; [reflexivity |]. split; [reflexivity |].
  split; [cbn; rewrite Hsplit; reflexivity |]. auto.
Qed.

(** C9. Every organization row and every user row that a run asks the
    adapter to create carries the id of a source record of a page fetched
    before, with [forceAllowId] set.  The organization phase never reads
    [orgMap], the user phase never writes it, and the user phase works on
    the map that the organization phase returned. *)
Theorem source_ids_are_kept fuel (w : W) :
  let o := migrateFromWorkOS fuel w in
  (forall t1 args r t2,
     trace o = t1 ++ EvCreate args r :: t2 -> CreateArgs.model args = organization ->
     exists org options page d,
       EvListOrganizations options (Resolved page) ∈ t1 /\ org ∈ ListResponse.data page /\
       CreateArgs.data args = OrganizationRow d /\
       OrganizationData.id d = Organization.id org /\
       CreateArgs.forceAllowId args = true)
  /\
  (forall t1 args r t2,
     trace o = t1 ++ EvCreate args r :: t2 -> CreateArgs.model args = user ->
     exists workosUser options page d,
       EvListUsers options (Resolved page) ∈ t1 /\ workosUser ∈ ListResponse.data page /\
       CreateArgs.data args = UserRow d /\
       UserData.id d = WorkOSUser.id workosUser /\
       CreateArgs.forceAllowId args = true)
  /\
  (let p := migrateOrganizations fuel w in
   exists tu,
     trace o = trace p ++ tu /\
     Forall (fun ev => is_map_get ev = false) (trace p) /\
     Forall (fun ev => is_map_set ev = false) tu /\
     match res p with
     | Ok orgMap => UserFrame.orgMap (frame o) = orgMap
     | _ => tu = []
     end).
Proof.
  cbv zeta. split; [| split].
  - intros t1 args r t2 Htr Hmodel.
    destruct (organization_rows_of_run fuel w t1 args r t2 Htr Hmodel)
      as (org & c1 & c2 & options & page & ta & tb & -> & -> & Hin).
    eexists org, options, page, _.
    split; [apply elem_of_app; right; left |]. split; [exact Hin |].
    split; [reflexivity |]. split; reflexivity.
  - intros t1 args r t2 Htr Hmodel.
    destruct (user_rows_of_run fuel w t1 args r t2 Htr Hmodel)
      as (u & response & c1 & c2 & options & page & ta & tb & -> & -> & Hin).
    eexists u, options, page, _.
    split; [apply elem_of_app; right; left |]. split; [exact Hin |].
    split; [reflexivity |]. split; reflexivity.
  - eexists. split; [apply trace_migrateFromWorkOS |]. split; [| split].
    + apply (emits_migrateOrganizations (Forall (fun ev => is_map_get ev = false))).
      apply emits_organizations_page; [apply _ | |].
      * intros options r. constructor; [reflexivity | constructor].
      * intros org ev Hev. constructor; [| constructor].
        eapply organization_event_no_get, Hev.
    + destruct (res (migrateOrganizations fuel w)); try constructor.
      apply (emits_while (Forall (fun ev => is_map_set ev = false))).
      apply emits_users_page; [apply _ | |].
      * intros options r. constructor; [reflexivity | constructor].
      * intros u ev Hev. constructor; [| constructor]. eapply user_event_no_set, Hev.
    + unfold migrateFromWorkOS.
      destruct (res (migrateOrganizations fuel w)) as [orgMap| |]; cbn [frame];
        [| reflexivity | reflexivity].
      apply (while_invariant (fun f => UserFrame.orgMap f = orgMap)).
      * intros f w' <-. apply users_page_orgMap.
      * reflexivity.
Qed.

(** C10. [safeDateConversion] answers the current time for every falsy
    argument, the number 0 and the empty string among them, although
    [new Date(0)] is the Unix epoch: an organization whose [createdAt] is 0
    is created with the time of the migration. *)
Theorem safeDateConversion_redates_the_epoch :
  (forall F date (f : F) (w : W),
     safeDateConversion date f w =
     if falsy date then MkRun (Ok (ValidDate (Date_now w).1)) f (Date_now w).2 []
     else MkRun (Ok (new_Date date)) f w [])
  /\ falsy (DNum 0) = true /\ falsy (DStr []) = true
  /\ new_Date (DNum 0) = ValidDate 0
  /\ (forall org (f : OrgFrame.t) (w : W),
        Organization.createdAt org = DNum 0 ->
        exists updatedAt r t,
          trace (migrate_organization org f w) =
          EvCreate (organization_args org (ValidDate (Date_now w).1) updatedAt) r :: t).
Proof.
  split; [intros; apply safeDateConversion_run |].
  split; [reflexivity |]. split; [reflexivity |]. split; [reflexivity |].
  intros org f w Hzero. unfold migrate_organization. rewrite trace_try_catch.
  erewrite bind_run by (rewrite safeDateConversion_run, Hzero; reflexivity).
  cbn [res frame world trace app].
  match goal with |- context [bind (safeDateConversion ?d) _ ?f0 ?w0] =>
    destruct (safeDateConversion_ok d f0 w0) as (updatedAt & w2 & E2) end.
  erewrite bind_run by exact E2. cbn [res frame world trace app].
  rewrite trace_bind. unfold create at 1. cbn [await trace app].
  eexists _, _, _. reflexivity.
Qed.

End Claims.

(** * The claims on the scripted environment *)



(** C2 on the single short pages of [sunny]. *)
Lemma pagination_witness :
  (exists k, forall fuel', k < fuel' ->
     let o := migrateOrganizations (Env0 := Demo.env Demo.sunny) fuel' Demo.start in
     let pages := length (org_fetches (trace o)) in
     res o = Ok (OrgFrame.orgMap (frame o)) /\
     org_fetches (trace o) = replicate k (Some 100) ++ [Some 2] /\
     OrgFrame.totalOrgs (frame o) = k * 100 + 2 /\
     (pages - 1) * 100 <= OrgFrame.totalOrgs (frame o) <= pages * 100)
  /\
  (exists k fuel0, forall fuel', fuel0 <= fuel' ->
     let o := migrateFromWorkOS (Env0 := Demo.env Demo.sunny) fuel' Demo.start in
     let pages := length (user_fetches (trace o)) in
     res o = Ok tt /\
     user_fetches (trace o) = replicate k (Some 100) ++ [Some 2] /\
     UserFrame.totalUsers (frame o) = k * 100 + 2 /\
     (pages - 1) * 100 <= UserFrame.totalUsers (frame o) <= pages * 100).
Proof.
  split.
  - apply (proj1 (pagination_ends_on_short_page (Env0 := Demo.env Demo.sunny)) 5 Demo.start 2).
    + apply list_elem_of_In. vm_compute. tauto.
    + lia.
  - apply (proj2 (pagination_ends_on_short_page (Env0 := Demo.env Demo.sunny)) 5 Demo.start 2).
    + apply list_elem_of_In. vm_compute. tauto.
    + lia.
Defined.

(** C4 on Ada's user row in [sunny]. *)
Lemma twoFactorEnabled_witness :
  exists t0 response d,
    take 7 (trace (Demo.run Demo.sunny)) =
      t0 ++ [EvListAuthFactors (UserData.id d) (Resolved response)] /\
    CreateArgs.data Demo.ada_args = UserRow d /\
    (UserData.twoFactorEnabled d = true <->
     exists factor, factor ∈ ListResponse.data response /\
                    WorkOSAuthFactor.type factor = js "totp").
Proof.
  apply (twoFactorEnabled_iff_totp (Env0 := Demo.env Demo.sunny) 5 Demo.start
           (take 7 (trace (Demo.run Demo.sunny))) Demo.ada_args
           (Resolved Demo.created_ada) (drop 8 (trace (Demo.run Demo.sunny)))).
  - vm_compute. reflexivity.
  - reflexivity.
Defined.

(** C5 on the scripted generator. *)
Lemma backup_codes_witness :
  exists codes w1,
    backupCodes (Env0 := Demo.env Demo.sunny) (UserFrame.init ∅) Demo.start =
      MkRun (Ok codes) (UserFrame.init ∅) w1 [] /\
    length codes = 10 /\
    Forall (fun code => matches_code_pattern code = true) codes /\
    let args := {| EncryptArgs.data := JSON_stringify (Env := Demo.env Demo.sunny) codes;
                   EncryptArgs.key := js "S3CR3T" |} in
    generateBackupCodes (Env0 := Demo.env Demo.sunny) (js "S3CR3T")
      (UserFrame.init ∅) Demo.start =
    MkRun (of_reply (symmetricEncrypt (Env := Demo.env Demo.sunny) args w1).1)
          (UserFrame.init ∅) (symmetricEncrypt (Env := Demo.env Demo.sunny) args w1).2
          [EvSymmetricEncrypt args (symmetricEncrypt (Env := Demo.env Demo.sunny) args w1).1].
Proof.
  exact (proj1 (backup_codes (Env0 := Demo.env Demo.sunny)
                  (demo_generateRandomString_contract Demo.sunny))
               UserFrame.t (js "S3CR3T") (UserFrame.init ∅) Demo.start).
Defined.

(** C6 on Ada.  In [stormy] the adapter rejects her user row: she is counted
    as failed.  In [sunny] the lookup of her SSO connection is rejected: the
    block of the OAuth account ends normally all the same, no call outside
    the two blocks is rejected, and she is counted as migrated. *)
Lemma user_failures_witness :
  (let o := migrate_user (Env0 := Demo.env Demo.stormy) Demo.ada (UserFrame.init ∅) Demo.start in
   res o = Ok tt /\
   match res (process_user (Env0 := Demo.env Demo.stormy) Demo.ada
                (UserFrame.init ∅) Demo.start) with
   | Ok _ =>
       UserFrame.migratedUsers (frame o) = S (UserFrame.migratedUsers (UserFrame.init ∅)) /\
       UserFrame.failedUsers (frame o) = UserFrame.failedUsers (UserFrame.init ∅)
   | Throw _ =>
       UserFrame.failedUsers (frame o) = S (UserFrame.failedUsers (UserFrame.init ∅)) /\
       UserFrame.migratedUsers (frame o) = UserFrame.migratedUsers (UserFrame.init ∅)
   | OutOfFuel => False
   end)
  /\
  (let o := create_oauth_account (Env0 := Demo.env Demo.sunny) Demo.ada Demo.created_ada
              (UserFrame.init ∅) Demo.start in
   existsb raised (trace o) = true /\ res o = Ok tt /\ frame o = UserFrame.init ∅)
  /\
  (let o := migrate_user (Env0 := Demo.env Demo.sunny) Demo.ada (UserFrame.init ∅) Demo.start in
   existsb raised (trace o) = true /\
   UserFrame.migratedUsers (frame o) = 1 /\ UserFrame.failedUsers (frame o) = 0).
Proof.
  split; [| split].
  - exact (proj1 (user_failures_are_isolated (Env0 := Demo.env Demo.stormy))
                 Demo.ada (UserFrame.init ∅) Demo.start).
  - split; [vm_compute; reflexivity |].
    exact (proj1 (proj2 (proj2 (proj2 (proj2 (user_failures_are_isolated (Env0 := Demo.env Demo.sunny))))))
                 Demo.ada Demo.created_ada (UserFrame.init ∅) Demo.start).
  - split; [vm_compute; reflexivity |].
    apply (proj2 (proj2 (proj2 (proj2 (proj2 (proj2
             (user_failures_are_isolated (Env0 := Demo.env Demo.sunny)))))))
             Demo.ada (UserFrame.init ∅) Demo.start).
    vm_compute. reflexivity.
Defined.

(** C6 as stated fails on Ada in [sunny]: the lookup of her SSO connection
    is rejected, the exception is caught where it is raised, and she is
    counted as migrated. *)
Lemma user_failures_counterexample :
  ~ every_exception_counts (Env0 := Demo.env Demo.sunny) Demo.ada (UserFrame.init ∅) Demo.start.
Proof.
  intros Hall.
  assert (Hraised : existsb raised
            (trace (migrate_user (Env0 := Demo.env Demo.sunny) Demo.ada
                      (UserFrame.init ∅) Demo.start)) = true)
    by (vm_compute; reflexivity).
  apply Hall in Hraised. vm_compute in Hraised. discriminate Hraised.
Qed.

(** C7 on [stormy]: the first page of organizations and the second page of
    users are rejected. *)
Lemma page_fetch_failure_witness :
  let t := trace (Demo.run Demo.stormy) in
  (Forall (fun ev => is_org_phase_event ev = false) (drop 1 t) /\
   exists r t3,
     drop 1 t = EvListUsers {| ListOptions.limit := 100; ListOptions.before := None |} r :: t3)
  /\ (drop 401 t = [] /\ res (Demo.run Demo.stormy) = Ok tt).
Proof.
  cbv zeta. split.
  - apply (proj1 (page_fetch_failure_ends_phase (Env0 := Demo.env Demo.stormy))
             5 Demo.start [] {| ListOptions.limit := 100; ListOptions.before := None |}
             (ExternalError (js "rate limited"))).
    vm_compute. reflexivity.
  - apply (proj2 (page_fetch_failure_ends_phase (Env0 := Demo.env Demo.stormy))
             5 Demo.start (take 400 (trace (Demo.run Demo.stormy)))
             {| ListOptions.limit := 100; ListOptions.before := None |}
             (ExternalError (js "timeout"))).
    vm_compute. reflexivity.
Defined.

(** C8 on Ada's user row in [sunny]. *)
Lemma username_witness :
  exists workosUser options page d name,
    EvListUsers options (Resolved page) ∈ take 7 (trace (Demo.run Demo.sunny)) /\
    workosUser ∈ ListResponse.data page /\
    CreateArgs.data Demo.ada_args = UserRow d /\
    UserData.email d = WorkOSUser.email workosUser /\
    UserData.username d = Some name /\
    (at_sign ∉ name) /\
    (WorkOSUser.email workosUser = name \/
     exists rest, WorkOSUser.email workosUser = name ++ at_sign :: rest).
Proof.
  apply (username_is_email_local_part (Env0 := Demo.env Demo.sunny) 5 Demo.start
           (take 7 (trace (Demo.run Demo.sunny))) Demo.ada_args
           (Resolved Demo.created_ada) (drop 8 (trace (Demo.run Demo.sunny)))).
  - vm_compute. reflexivity.
  - reflexivity.
Defined.

(** C9 on the rows of the first organization and of Ada in [sunny]. *)
Lemma source_ids_witness :
  (exists org options page d,
     EvListOrganizations options (Resolved page) ∈ take 1 (trace (Demo.run Demo.sunny)) /\
     org ∈ ListResponse.data page /\
     CreateArgs.data Demo.acme_args = OrganizationRow d /\
     OrganizationData.id d = Organization.id org /\
     CreateArgs.forceAllowId Demo.acme_args = true)
  /\
  (exists workosUser options page d,
     EvListUsers options (Resolved page) ∈ take 7 (trace (Demo.run Demo.sunny)) /\
     workosUser ∈ ListResponse.data page /\
     CreateArgs.data Demo.ada_args = UserRow d /\
     UserData.id d = WorkOSUser.id workosUser /\
     CreateArgs.forceAllowId Demo.ada_args = true).
Proof.
  split.
  - apply (proj1 (source_ids_are_kept (Env0 := Demo.env Demo.sunny) 5 Demo.start)
             (take 1 (trace (Demo.run Demo.sunny))) Demo.acme_args
             (Resolved {| Created.id := js "org_01" |})
             (drop 2 (trace (Demo.run Demo.sunny)))).
    + vm_compute. reflexivity.
    + reflexivity.
  - apply (proj1 (proj2 (source_ids_are_kept (Env0 := Demo.env Demo.sunny) 5 Demo.start))
             (take 7 (trace (Demo.run Demo.sunny))) Demo.ada_args
             (Resolved Demo.created_ada) (drop 8 (trace (Demo.run Demo.sunny)))).
    + vm_compute. reflexivity.
    + reflexivity.
Defined.

(** C10 on the second organization of [sunny], created at the epoch
    according to the source. *)
Lemma safeDateConversion_witness :
  exists updatedAt r t,
    trace (migrate_organization (Env0 := Demo.env Demo.sunny) Demo.globex
             OrgFrame.init Demo.start) =
    EvCreate (organization_args (Env0 := Demo.env Demo.sunny) Demo.globex
                (ValidDate (Date_now (Env := Demo.env Demo.sunny) Demo.start).1) updatedAt) r
    :: t.
Proof.
  apply (proj2 (proj2 (proj2 (proj2
           (safeDateConversion_redates_the_epoch (Env0 := Demo.env Demo.sunny)))))
           Demo.globex OrgFrame.init Demo.start).
  reflexivity.
Defined.

(** * Further properties *)

(** ** The monad: frames and traces together *)

Section RunsFacts.
Context {W F : Type} (R : F -> Trace -> F -> Prop) `{!Composable R}.
Implicit Types (f : F) (w : W).

Lemma frame_bind {A B} (m : M W F A) (k : A -> M W F B) f w :
  frame (bind m k f w) =
  match res (m f w) with
  | Ok a => frame (k a (frame (m f w)) (world (m f w)))
  | _ => frame (m f w)
  end.
Proof. unfold bind. destruct (res (m f w)); reflexivity. Qed.

Lemma frame_try_catch {A} (m : M W F A) (h : Error -> M W F A) f w :
  frame (try_catch m h f w) =
  match res (m f w) with
  | Throw e => frame (h e (frame (m f w)) (world (m f w)))
  | _ => frame (m f w)
  end.
Proof. unfold try_catch. destruct (res (m f w)); reflexivity. Qed.

Lemma runs_ret {A} (a : A) : runs R (ret (W:=W) a).
Proof. intros f w. apply composable_nil. Qed.

Lemma runs_throw {A} e : runs R (throw (W:=W) (A:=A) e).
Proof. intros f w. apply composable_nil. Qed.

Lemma runs_gets {A} (p : F -> A) : runs R (gets (W:=W) p).
Proof. intros f w. apply composable_nil. Qed.

Lemma runs_modify (g : F -> F) : (forall f, R f [] (g f)) -> runs R (modify (W:=W) g).
Proof. intros H f w. apply H. Qed.

Lemma runs_builtin {A} (op : W -> A * W) : runs R (builtin op).
Proof. intros f w. apply composable_nil. Qed.

Lemma runs_member_of {A} (o : option A) : runs R (member_of (W:=W) o).
Proof. destruct o; [apply runs_ret | apply runs_throw]. Qed.

Lemma runs_emit ev : (forall f, R f [ev] f) -> runs R (emit (W:=W) ev).
Proof. intros H f w. apply H. Qed.

Lemma runs_await {A} (op : W -> Reply A * W) ev :
  (forall f r, R f [ev r] f) -> runs R (await op ev).
Proof. intros H f w. apply H. Qed.

Lemma runs_bind {A B} (m : M W F A) (k : A -> M W F B) :
  runs R m -> (forall a, runs R (k a)) -> runs R (bind m k).
Proof.
  intros Hm Hk f w. rewrite trace_bind, frame_bind.
  destruct (res (m f w)) as [a|e|].
  - eapply composable_app; [apply Hm | apply Hk].
  - rewrite app_nil_r. apply Hm.
  - rewrite app_nil_r. apply Hm.
Qed.

Lemma runs_try_catch {A} (m : M W F A) (h : Error -> M W F A) :
  runs R m -> (forall e, runs R (h e)) -> runs R (try_catch m h).
Proof.
  intros Hm Hh f w. rewrite trace_try_catch, frame_try_catch.
  destruct (res (m f w)) as [a|e|].
  - rewrite app_nil_r. apply Hm.
  - eapply composable_app; [apply Hm | apply Hh].
  - rewrite app_nil_r. apply Hm.
Qed.

Lemma runs_for_of {A} (xs : list A) (body : A -> M W F unit) :
  (forall x, x ∈ xs -> runs R (body x)) -> runs R (for_of xs body).
Proof.
  induction xs as [|x xs IH]; intros Hb; simpl.
  - apply runs_ret.
  - apply runs_bind.
    + apply Hb. left.
    + intros _. apply IH. intros y Hy. apply Hb. right. exact Hy.
Qed.

Lemma runs_map_calls {A} n (m : M W F A) : runs R m -> runs R (map_calls n m).
Proof.
  intros Hm. induction n as [|n IH]; simpl.
  - apply runs_ret.
  - apply runs_bind; [exact Hm | intros a].
    apply runs_bind; [exact IH | intros rest; apply runs_ret].
Qed.

Lemma runs_while fuel (cond : F -> bool) (body : M W F Completion) :
  runs R body -> runs R (while fuel cond body).
Proof.
  intros Hb. induction fuel as [|fuel IH]; intros f w; simpl.
  - destruct (cond f); apply composable_nil.
  - destruct (cond f); [| apply composable_nil].
    apply runs_bind; [exact Hb |].
    intros [|]; [exact IH | apply runs_ret].
Qed.

End RunsFacts.

Section RunsScript.
Context {W : Type} `{!Env W}.

Lemma runs_safeDateConversion {F} (R : F -> Trace -> F -> Prop) `{!Composable R} date :
  runs R (safeDateConversion (W:=W) date).
Proof.
  intros f w. rewrite safeDateConversion_run. destruct (falsy date); apply composable_nil.
Qed.

Lemma runs_generateBackupCodes {F} (R : F -> Trace -> F -> Prop) `{!Composable R} secret :
  (forall f data r,
     R f [EvSymmetricEncrypt {| EncryptArgs.data := data; EncryptArgs.key := secret |} r] f) ->
  runs R (generateBackupCodes (W:=W) secret).
Proof.
  intros HR. unfold generateBackupCodes, backupCodes.
  apply (runs_bind R).
  - apply (runs_bind R); [| intros; apply (runs_ret R)].
    apply (runs_map_calls R), (runs_builtin R).
  - intros codes. apply (runs_bind R); [| intros; apply (runs_ret R)].
    apply (runs_await R). intros f r. apply HR.
Qed.

End RunsScript.

(** One step of a proof that a computation runs within [R]. *)
Ltac runs_step :=
  lazymatch goal with
  | |- runs ?R (bind _ _) => apply (runs_bind R); [| intros ?]
  | |- runs ?R (try_catch _ _) => apply (runs_try_catch R); [| intros ?]
  | |- runs ?R (ret _) => apply (runs_ret R)
  | |- runs ?R (throw _) => apply (runs_throw R)
  | |- runs ?R (gets _) => apply (runs_gets R)
  | |- runs ?R (modify _) => apply (runs_modify R); intros ?
  | |- runs ?R (builtin _) => apply (runs_builtin R)
  | |- runs ?R (member_of _) => apply (runs_member_of R)
  | |- runs ?R (safeDateConversion _) => apply (runs_safeDateConversion R)
  | |- runs ?R (generateBackupCodes _) => apply (runs_generateBackupCodes R); intros ? ? ?
  | |- runs ?R (emit _) => apply (runs_emit R); intros ?
  | |- runs ?R (await _ _) => apply (runs_await R); intros ? ?
  | |- runs ?R (create _) => apply (runs_await R); intros ? ?
  | |- runs ?R (for_of _ _) => apply (runs_for_of R); intros ? ?
  | |- runs ?R (map_calls _ _) => apply (runs_map_calls R)
  | |- runs _ (match ?x with _ => _ end) => destruct x
  end.

(** ** The organization phase: one organization *)

Section Organizations.
Context {W : Type} `{!Env W}.

(** One organization, step by step. *)
Lemma migrate_organization_run org (f : OrgFrame.t) (w : W) :
  exists createdAt updatedAt w1,
    let args := organization_args org createdAt updatedAt in
    migrate_organization org f w =
    match (adapter_create args w1).1 with
    | Resolved createdOrg =>
        MkRun (Ok tt)
          (OrgFrame.set_migratedOrgs (S (OrgFrame.migratedOrgs f))
             (OrgFrame.set_orgMap
                (<[Organization.id org := Created.id createdOrg]> (OrgFrame.orgMap f)) f))
          (adapter_create args w1).2
          [EvCreate args (Resolved createdOrg);
           EvMapSet (Organization.id org) (Created.id createdOrg)]
    | Rejected e =>
        MkRun (Ok tt) (OrgFrame.set_failedOrgs (S (OrgFrame.failedOrgs f)) f)
          (adapter_create args w1).2 [EvCreate args (Rejected e)]
    end.
Proof.
  destruct (safeDateConversion_ok (Organization.createdAt org) f w) as (createdAt & w0 & E1).
  destruct (safeDateConversion_ok (Organization.updatedAt org) f w0) as (updatedAt & w1 & E2).
  exists createdAt, updatedAt, w1. cbv zeta. unfold migrate_organization, create.
  destruct (adapter_create (organization_args org createdAt updatedAt) w1)
    as [[createdOrg|e] w2] eqn:E; cbn [fst snd].
  - apply try_catch_run_ok.
    erewrite bind_run by exact E1. cbn [res frame world trace app].
    erewrite bind_run by exact E2. cbn [res frame world trace app].
    erewrite bind_run by (apply await_resolved; exact E). cbn [res frame world trace app].
    do 4 run_ok. reflexivity.
  - erewrite try_catch_run_throw.
    2:{ erewrite bind_run by exact E1. cbn [res frame world trace app].
        erewrite bind_run by exact E2. cbn [res frame world trace app].
        erewrite bind_run_throw by (apply await_rejected; exact E). reflexivity. }
    reflexivity.
Qed.

End Organizations.

(** ** The organization phase: the [Map] *)

Section OrgMap.
Context {W : Type} `{!Env W}.

Lemma map_after_app m t1 t2 : map_after m (t1 ++ t2) = map_after (map_after m t1) t2.
Proof. apply foldl_app. Qed.

(** An entry of the replayed map was there at the start or comes from an
    accepted organization row. *)
Lemma map_after_lookup t m key value :
  map_after m t !! key = Some value ->
  m !! key = Some value \/
  exists args created d,
    EvCreate args (Resolved created) ∈ t /\ CreateArgs.data args = OrganizationRow d /\
    OrganizationData.id d = key /\ Created.id created = value.
Proof.
  revert m. induction t as [|ev t IH]; intros m H; [left; exact H |].
  change (map_after (map_step m ev) t !! key = Some value) in H.
  destruct (IH _ H) as [Hm|(args & created & d & Hin & Hd & Hk & Hv)].
  - destruct ev as [| | | | | |args [created|e]| | |]; simpl in Hm; auto.
    destruct (CreateArgs.data args) as [d| | | |] eqn:Hd; auto.
    destruct (decide (OrganizationData.id d = key)) as [Heq|Hne].
    + rewrite Heq, lookup_insert_eq in Hm. injection Hm as Hv.
      right. exists args, created, d. split; [left |]. auto.
    + rewrite lookup_insert_ne in Hm by exact Hne. auto.
  - right. exists args, created, d. split; [right; exact Hin |]. auto.
Qed.

Lemma map_after_mono t m key : is_Some (m !! key) -> is_Some (map_after m t !! key).
Proof.
  revert m. induction t as [|ev t IH]; intros m H; [exact H |].
  apply IH. destruct ev as [| | | | | |args [created|e]| | |]; simpl; auto.
  destruct (CreateArgs.data args) as [d| | | |]; auto.
  rewrite lookup_insert_is_Some. destruct (decide (OrganizationData.id d = key)); auto.
Qed.

Lemma map_after_dom t m args created d :
  EvCreate args (Resolved created) ∈ t -> CreateArgs.data args = OrganizationRow d ->
  is_Some (map_after m t !! OrganizationData.id d).
Proof.
  revert m. induction t as [|ev t IH]; intros m Hin Hd; [inversion Hin |].
  apply elem_of_cons in Hin as [<-|Hin]; [| apply IH; assumption].
  change (is_Some (map_after (map_step m (EvCreate args (Resolved created))) t
                   !! OrganizationData.id d)).
  apply map_after_mono. unfold map_step. rewrite Hd, lookup_insert_eq. eauto.
Qed.

#[global] Instance replays_composable : Composable replays.
Proof.
  split.
  - intros f. reflexivity.
  - intros f t1 f1 t2 f2 H1 H2. unfold replays in *. rewrite map_after_app, <- H1. exact H2.
Qed.

#[global] Instance grows_composable : Composable grows.
Proof.
  split.
  - intros f. unfold grows. lia.
  - intros f t1 f1 t2 f2 H1 H2. unfold grows in *. lia.
Qed.

Lemma runs_organizations_page (R : OrgFrame.t -> Trace -> OrgFrame.t -> Prop) `{!Composable R} :
  (forall f options r, R f [EvListOrganizations options r] f) ->
  (forall f v, R f [] (OrgFrame.set_before v f)) ->
  (forall f v, R f [] (OrgFrame.set_hasMoreOrgs v f)) ->
  (forall f v, R f [] (OrgFrame.set_totalOrgs v f)) ->
  (forall org, runs (W:=W) R (migrate_organization org)) ->
  runs (W:=W) R organizations_page.
Proof.
  intros H1 H2 H3 H4 H5. unfold organizations_page. repeat runs_step; auto.
Qed.

Lemma runs_migrateOrganizations (R : OrgFrame.t -> Trace -> OrgFrame.t -> Prop)
    `{!Composable R} fuel (w : W) :
  runs (W:=W) R organizations_page ->
  R OrgFrame.init (trace (migrateOrganizations fuel w)) (frame (migrateOrganizations fuel w)).
Proof.
  intros Hp. unfold migrateOrganizations, migrateOrganizations_from.
  apply (runs_bind R); [apply (runs_while R); exact Hp | intros; apply (runs_gets R)].
Qed.

Lemma replays_migrate_organization org : runs (W:=W) replays (migrate_organization org).
Proof.
  intros f w. destruct (migrate_organization_run org f w) as (c1 & c2 & w1 & Hrun).
  cbv zeta in Hrun. rewrite Hrun.
  destruct (adapter_create _ w1).1 as [created|e]; reflexivity.
Qed.

Lemma grows_migrate_organization org : runs (W:=W) grows (migrate_organization org).
Proof.
  intros f w. destruct (migrate_organization_run org f w) as (c1 & c2 & w1 & Hrun).
  cbv zeta in Hrun. rewrite Hrun.
  destruct (adapter_create _ w1).1 as [created|e]; unfold grows; cbn; [| lia].
  pose proof (map_size_insert (Organization.id org) (Created.id created) (OrgFrame.orgMap f)) as Hs.
  destruct (OrgFrame.orgMap f !! Organization.id org); simpl in Hs; lia.
Qed.

Lemma orgMap_replay fuel (w : W) :
  OrgFrame.orgMap (frame (migrateOrganizations fuel w)) =
  map_after ∅ (trace (migrateOrganizations fuel w)).
Proof.
  apply (runs_migrateOrganizations replays).
  apply runs_organizations_page; try apply _; try reflexivity.
  apply replays_migrate_organization.
Qed.

Lemma org_phase_rows fuel (w : W) args r :
  EvCreate args r ∈ trace (migrateOrganizations fuel w) ->
  exists org createdAt updatedAt, args = organization_args org createdAt updatedAt.
Proof.
  assert (Hevents : Forall (fun ev => forall args r, ev = EvCreate args r ->
                              exists org createdAt updatedAt,
                                args = organization_args org createdAt updatedAt)
                           (trace (migrateOrganizations fuel w))).
  { apply (emits_migrateOrganizations (Forall _)).
    apply emits_organizations_page; [apply _ | |].
    - intros options r0. constructor; [discriminate | constructor].
    - intros org ev Hev. constructor; [| constructor].
      intros args0 r0 ->. destruct Hev as (c1 & c2 & ->). eauto. }
  rewrite Forall_forall in Hevents. intros Hin. exact (Hevents _ Hin args r eq_refl).
Qed.

Lemma orgMap_entry_origin fuel (w : W) key value :
  OrgFrame.orgMap (frame (migrateOrganizations fuel w)) !! key = Some value ->
  exists org createdAt updatedAt created,
    EvCreate (organization_args org createdAt updatedAt) (Resolved created)
      ∈ trace (migrateOrganizations fuel w) /\
    Organization.id org = key /\ Created.id created = value.
Proof.
  intros Hget. rewrite orgMap_replay in Hget.
  apply map_after_lookup in Hget as [Hget|(args & created & d & Hin & Hd & Hk & Hv)];
    [rewrite lookup_empty in Hget; discriminate |].
  destruct (org_phase_rows _ _ _ _ Hin) as (org & c1 & c2 & ->).
  exists org, c1, c2, created. split; [exact Hin |].
  injection Hd as <-. auto.
Qed.

End OrgMap.

(** ** The organization phase: counters *)

Section OrgCounts.
Context {W : Type} `{!Env W}.

Lemma migrate_organization_counts org (f : OrgFrame.t) (w : W) :
  let f' := frame (migrate_organization org f w) in
  OrgFrame.migratedOrgs f' + OrgFrame.failedOrgs f' =
  S (OrgFrame.migratedOrgs f + OrgFrame.failedOrgs f).
Proof.
  destruct (migrate_organization_run org f w) as (c1 & c2 & w1 & Hrun).
  cbv zeta in *. rewrite Hrun. destruct (adapter_create _ w1).1; cbn; lia.
Qed.

Lemma for_of_migrate_organization_counts orgs (f : OrgFrame.t) (w : W) :
  let f' := frame (for_of orgs migrate_organization f w) in
  OrgFrame.migratedOrgs f' + OrgFrame.failedOrgs f' =
  OrgFrame.migratedOrgs f + OrgFrame.failedOrgs f + length orgs.
Proof.
  cbv zeta. revert f w. induction orgs as [|org orgs IH]; intros f w; simpl; [lia |].
  rewrite frame_bind, migrate_organization_ok, IH.
  pose proof (migrate_organization_counts org f w) as Hc. cbv zeta in Hc. lia.
Qed.

Lemma organizations_page_counts (f : OrgFrame.t) (w : W) :
  counted_orgs f -> counted_orgs (frame (organizations_page f w)).
Proof.
  unfold counted_orgs. intros Hf.
  pose proof (organizations_page_run f w) as Hrun. cbv zeta in Hrun.
  destruct (listOrganizations _ w).1 as [page|e]; rewrite Hrun; cbn [frame]; [| exact Hf].
  match goal with |- context [for_of ?l _ ?f1 ?w1] =>
    pose proof (for_of_migrate_organization_counts l f1 w1) as H2;
    destruct (for_of_migrate_organization l f1 w1) as (_ & H1 & _) end.
  cbv zeta in H2. rewrite H1. simpl in *. lia.
Qed.

End OrgCounts.

Section OrganizationProperties.
Context {W : Type} `{!Env W}.

(** X1.  A failure on one organization is caught at that organization:
    [migrate_organization] always ends normally after one request to the
    adapter.  When the row is accepted, the [Map] gets the entry from the
    source id to the returned id and [migratedOrgs] is incremented; when it
    is rejected, only [failedOrgs] is incremented and the [Map] is left as
    it was.  The loop then goes on with the next organization, every
    organization of a page moves exactly one counter, and at the end of the
    phase [totalOrgs] is the sum of the two counters. *)
Theorem organization_failures_are_isolated :
  (forall org (f : OrgFrame.t) (w : W),
     let o := migrate_organization org f w in
     res o = Ok tt /\
     exists createdAt updatedAt r,
       let args := organization_args org createdAt updatedAt in
       match r with
       | Resolved createdOrg =>
           trace o = [EvCreate args r; EvMapSet (Organization.id org) (Created.id createdOrg)] /\
           frame o =
           OrgFrame.set_migratedOrgs (S (OrgFrame.migratedOrgs f))
             (OrgFrame.set_orgMap
                (<[Organization.id org := Created.id createdOrg]> (OrgFrame.orgMap f)) f)
       | Rejected _ =>
           trace o = [EvCreate args r] /\
           frame o = OrgFrame.set_failedOrgs (S (OrgFrame.failedOrgs f)) f
       end)
  /\
  (forall org orgs (f : OrgFrame.t) (w : W),
     let o1 := migrate_organization org f w in
     let o2 := for_of orgs migrate_organization (frame o1) (world o1) in
     for_of (org :: orgs) migrate_organization f w =
     MkRun (res o2) (frame o2) (world o2) (trace o1 ++ trace o2))
  /\
  (forall orgs (f : OrgFrame.t) (w : W),
     let o := for_of orgs migrate_organization f w in
     res o = Ok tt /\
     OrgFrame.migratedOrgs (frame o) + OrgFrame.failedOrgs (frame o) =
       OrgFrame.migratedOrgs f + OrgFrame.failedOrgs f + length orgs)
  /\
  (forall fuel (w : W),
     let o := migrateOrganizations fuel w in
     OrgFrame.totalOrgs (frame o) =
     OrgFrame.migratedOrgs (frame o) + OrgFrame.failedOrgs (frame o)).
Proof.
  split; [| split; [| split]].
  - intros org f w. cbv zeta. split; [apply migrate_organization_ok |].
    destruct (migrate_organization_run org f w) as (c1 & c2 & w1 & Hrun).
    cbv zeta in Hrun. rewrite Hrun.
    exists c1, c2, (adapter_create (organization_args org c1 c2) w1).1.
    destruct (adapter_create _ w1).1; split; reflexivity.
  - intros org orgs f w. cbv zeta. cbn [for_of]. unfold bind.
    rewrite migrate_organization_ok. reflexivity.
  - intros orgs f w. cbv zeta. split.
    + apply for_of_migrate_organization.
    + apply for_of_migrate_organization_counts.
  - intros fuel w. cbv zeta. rewrite migrateOrganizations_run. cbn [frame].
    apply (while_invariant counted_orgs).
    + intros f w' Hf. apply organizations_page_counts. exact Hf.
    + reflexivity.
Qed.

(** X2.  The [Map] that [migrateOrganizations] builds is what the accepted
    organization rows of the phase, in order, make of the empty map: each
    one writes the entry from its source id to the id the adapter returned,
    a later row of the same source id overriding an earlier one.  So the
    keys of the map are the source ids of the accepted rows, every value is
    an id the adapter returned for its key, the map has at most
    [migratedOrgs] entries, and it is the map the function returns. *)
Theorem orgMap_is_made_of_accepted_rows fuel (w : W) :
  let o := migrateOrganizations fuel w in
  let orgMap := OrgFrame.orgMap (frame o) in
  orgMap = map_after ∅ (trace o) /\
  (forall key value,
     orgMap !! key = Some value ->
     exists org createdAt updatedAt created,
       EvCreate (organization_args org createdAt updatedAt) (Resolved created) ∈ trace o /\
       Organization.id org = key /\ Created.id created = value) /\
  (forall args created,
     EvCreate args (Resolved created) ∈ trace o ->
     exists d, CreateArgs.data args = OrganizationRow d /\
               is_Some (orgMap !! OrganizationData.id d)) /\
  size orgMap <= OrgFrame.migratedOrgs (frame o) /\
  (forall returned, res o = Ok returned -> returned = orgMap).
Proof.
  cbv zeta. split; [apply orgMap_replay |]. split; [| split; [| split]].
  - intros key value Hget. apply orgMap_entry_origin. exact Hget.
  - intros args created Hin.
    destruct (org_phase_rows _ _ _ _ Hin) as (org & c1 & c2 & ->).
    eexists. split; [reflexivity |]. rewrite orgMap_replay.
    eapply map_after_dom; [exact Hin | reflexivity].
  - pose proof (runs_migrateOrganizations grows fuel w) as Hg.
    unfold grows in Hg. cbn in Hg. rewrite map_size_empty in Hg.
    assert (Hp : runs (W:=W) grows organizations_page).
    { apply runs_organizations_page; try apply _; try (intros; unfold grows; cbn; lia).
      apply grows_migrate_organization. }
    specialize (Hg Hp). lia.
  - intros returned Hres. rewrite migrateOrganizations_run in Hres |- *.
    cbv zeta in *. cbn [res frame] in *.
    destruct (res (while _ _ _ _ _)); congruence.
Qed.

End OrganizationProperties.

(** ** The user phase: reading the [Map] *)

#[global] Instance follows_map_composable : Composable follows_map.
Proof.
  split.
  - intros f. split; [reflexivity | constructor].
  - intros f t1 f1 t2 f2 [H1 H2] [H3 H4]. split; [congruence |].
    apply Forall_app. split; [exact H2 |]. rewrite <- H1. exact H4.
Qed.

Section MapUse.
Context {W : Type} `{!Env W}.

Lemma follows_map_migrate_membership createdUser membership :
  runs (W:=W) follows_map (migrate_membership createdUser membership).
Proof.
  intros f w. unfold migrate_membership.
  rewrite trace_bind, frame_bind. cbn [gets res frame world trace app].
  rewrite trace_bind, frame_bind. cbn [emit res frame world trace app].
  match goal with |- follows_map _ (_ :: trace (?m f w)) _ =>
    assert (Hm : emits (Forall (uses_map (UserFrame.orgMap f))) m /\ keeps eq m) end.
  { destruct (UserFrame.orgMap f !! Membership.organizationId membership) as [orgId|] eqn:Hget.
    - destruct (truthy orgId) eqn:Htruthy.
      + split; [| unfold role_of; repeat keeps_step].
        unfold role_of. repeat emits_step; (constructor; [| constructor]); simpl.
        * eauto.
        * intros d [= <-]. simpl. eauto.
      + split; [apply (emits_ret _) | apply (keeps_ret _)].
    - split; [apply (emits_ret _) | apply (keeps_ret _)]. }
  destruct Hm as [Hemits Hkeeps]. split.
  - symmetry. f_equal. apply Hkeeps.
  - constructor; [reflexivity | apply Hemits].
Qed.

Lemma follows_map_users_page : runs (W:=W) follows_map users_page.
Proof.
  unfold users_page, migrate_user, process_user, after_user_row, create_credentials_account,
    create_oauth_account, create_memberships, migrate_factor.
  repeat runs_step;
    try apply follows_map_migrate_membership;
    try (split; [reflexivity |]; constructor; [| constructor]; simpl;
         first [exact I | intros d' Hd; discriminate Hd]);
    (split; [reflexivity | constructor]).
Qed.

End MapUse.

Section MembershipProperties.
Context {W : Type} `{!Env W}.

(** X3.  The user phase reads the [Map] of the organization phase and
    nothing else to place a user in an organization: in a run, every
    [orgMap.get] answers what that map holds, an organization is looked up
    at the source only when the map sends its id to a non-empty destination
    id, and the [organizationId] of every member row is such a destination
    id, that is, the id the adapter returned for an organization row it
    accepted in the same run. *)
Theorem memberships_follow_the_map fuel (w : W) :
  let o := migrateFromWorkOS fuel w in
  Forall (uses_map (UserFrame.orgMap (frame o))) (trace o) /\
  (forall args r d,
     EvCreate args r ∈ trace o -> CreateArgs.data args = MemberRow d ->
     exists org createdAt updatedAt created,
       EvCreate (organization_args org createdAt updatedAt) (Resolved created) ∈ trace o /\
       Created.id created = MemberData.organizationId d).
Proof.
  cbv zeta.
  assert (Horg : forall m, Forall (uses_map m) (trace (migrateOrganizations fuel w))).
  { intros m. apply (emits_migrateOrganizations (Forall _)).
    apply emits_organizations_page; [apply _ | |].
    - intros options r. constructor; [exact I | constructor].
    - intros org ev Hev. constructor; [| constructor].
      destruct ev; simpl in *; try contradiction; try exact I.
      destruct Hev as (c1 & c2 & ->). intros d Hd. discriminate Hd. }
  assert (Hall : Forall (uses_map (UserFrame.orgMap (frame (migrateFromWorkOS fuel w))))
                        (trace (migrateFromWorkOS fuel w)) /\
                 (UserFrame.orgMap (frame (migrateFromWorkOS fuel w)) =
                  OrgFrame.orgMap (frame (migrateOrganizations fuel w))
                  \/ UserFrame.orgMap (frame (migrateFromWorkOS fuel w)) = ∅)).
  { unfold migrateFromWorkOS.
    destruct (res (migrateOrganizations fuel w)) as [orgMap| |] eqn:Hres; cbn [frame trace].
    - destruct (runs_while follows_map fuel UserFrame.hasMoreUsers users_page
                  follows_map_users_page (UserFrame.init orgMap)
                  (world (migrateOrganizations fuel w))) as [Hmap Hev].
      unfold migrateUsers. rewrite Hmap. cbn [UserFrame.orgMap UserFrame.init].
      split; [apply Forall_app; split; [apply Horg | exact Hev] |].
      left. rewrite migrateOrganizations_run in Hres |- *. cbv zeta in *.
      cbn [res frame] in *. destruct (res (while _ _ _ _ _)); congruence.
    - split; [apply Horg | right; reflexivity].
    - split; [apply Horg | right; reflexivity]. }
  destruct Hall as [Hall Hmap]. split; [exact Hall |].
  intros args r d Hin Hd. rewrite Forall_forall in Hall.
  destruct (Hall _ Hin d Hd) as (_ & key & Hget).
  destruct Hmap as [Hmap|Hmap]; rewrite Hmap in Hget;
    [| rewrite lookup_empty in Hget; discriminate Hget].
  destruct (orgMap_entry_origin _ _ _ _ Hget) as (org & c1 & c2 & created & Ho & _ & Hv).
  exists org, c1, c2, created. split; [| exact Hv].
  rewrite trace_migrateFromWorkOS. apply elem_of_app. left. exact Ho.
Qed.

End MembershipProperties.

(** ** Pagination: the cursor *)

Section CursorLoop.
Context {W F : Type}.
Variables (hasMore : F -> bool) (before : F -> option jsstring).
Variable request : Event -> option (ListOptions.t * option (option jsstring)).
Variable page : M W F Completion.
Hypothesis Hpage : cursor_spec before request page.

Lemma while_cursor_chain fuel f w :
  cursor_chain (before f) (omap request (trace (while fuel hasMore page f w))).
Proof using Hpage.
  revert f w. induction fuel as [|fuel IH]; intros f w; simpl.
  - destruct (hasMore f); exact I.
  - destruct (hasMore f); [| exact I].
    destruct (Hpage f w) as (ev & t & next & Htrace & Ht & Hev & Hnext).
    rewrite trace_bind, omap_app, Htrace, omap_cons', Hev, Ht. cbn [app cursor_chain].
    split; [reflexivity |].
    destruct next as [before'|].
    + destruct (res (page f w)) as [[|]| |]; try exact I. rewrite <- Hnext. apply IH.
    + rewrite Hnext. reflexivity.
Qed.

End CursorLoop.

Section Cursor.
Context {W : Type} `{!Env W}.

Lemma organizations_page_cursor :
  cursor_spec (W:=W) OrgFrame.before org_request organizations_page.
Proof.
  intros f w o. subst o. pose proof (organizations_page_run f w) as Hrun. cbv zeta in Hrun.
  destruct (listOrganizations _ w).1 as [response|e] eqn:E; rewrite Hrun; clear Hrun;
    eexists _, _, _; (split; [reflexivity |]); cbn [res frame trace org_request].
  - split; [| split; [reflexivity |]].
    + apply omap_nil_Forall. apply (emits_for_of (Forall (fun ev => org_request ev = None))).
      intros org _. apply emits_migrate_organization; [apply _ |].
      intros ev Hev. constructor; [| constructor].
      destruct ev; simpl in *; try contradiction; reflexivity.
    + match goal with |- context [for_of ?l _ ?f1 ?w1] =>
        destruct (for_of_migrate_organization l f1 w1) as (_ & _ & _ & H3) end.
      rewrite H3. reflexivity.
  - split; [reflexivity |]. split; reflexivity.
Qed.

Lemma users_page_cursor :
  cursor_spec (W:=W) UserFrame.before user_request users_page.
Proof.
  intros f w o. subst o. pose proof (users_page_run f w) as Hrun. cbv zeta in Hrun.
  destruct (listUsers _ w).1 as [response|e] eqn:E; rewrite Hrun; clear Hrun;
    eexists _, _, _; (split; [reflexivity |]); cbn [res frame trace user_request].
  - split; [| split; [reflexivity |]].
    + apply omap_nil_Forall. apply (emits_for_of (Forall (fun ev => user_request ev = None))).
      intros u _. apply emits_migrate_user; [apply _ |].
      intros ev Hev. constructor; [| constructor].
      destruct ev; simpl in *; try contradiction; reflexivity.
    + match goal with |- context [for_of ?l _ ?f1 ?w1] =>
        destruct (for_of_migrate_user l f1 w1) as (_ & (_ & _ & H3 & _) & _) end.
      rewrite H3. reflexivity.
  - split; [reflexivity |]. split; reflexivity.
Qed.

(** X4.  Both pagination loops thread the cursor: the first request of a
    phase asks for 100 records with no cursor, every later request asks for
    100 records before the cursor that the answer to the previous request
    gave ([listMetadata.before], or no cursor when it is absent, null or
    empty), and no request follows a rejected one. *)
Theorem cursor_is_threaded fuel (w : W) :
  cursor_chain None (omap org_request (trace (migrateOrganizations fuel w))) /\
  cursor_chain None (omap user_request (trace (migrateFromWorkOS fuel w))).
Proof.
  split.
  - rewrite migrateOrganizations_run. cbn [trace].
    apply (while_cursor_chain _ _ _ _ organizations_page_cursor fuel OrgFrame.init w).
  - rewrite trace_migrateFromWorkOS, omap_app.
    assert (Horg : omap user_request (trace (migrateOrganizations fuel w)) = []).
    { apply omap_nil_Forall. apply (emits_migrateOrganizations (Forall _)).
      apply emits_organizations_page; [apply _ | |].
      - intros options r. constructor; [reflexivity | constructor].
      - intros org ev Hev. constructor; [| constructor].
        destruct ev; simpl in *; try contradiction; reflexivity. }
    rewrite Horg, app_nil_l.
    destruct (res (migrateOrganizations fuel w)) as [orgMap| |]; try exact I.
    apply (while_cursor_chain _ _ _ _ users_page_cursor fuel (UserFrame.init orgMap)).
Qed.

End Cursor.

(** ** Pagination: when the loop goes on *)

Section FullPages.
Context {W F : Type}.
Variables (hasMore : F -> bool) (total : F -> nat) (fetch : Event -> option (option nat)).
Variable page : M W F Completion.
Hypothesis Hpage : page_spec hasMore total fetch page.
Hypothesis Hfull : forall f w ev t, trace (page f w) = ev :: t -> fetch ev = Some (Some limit).

(** A loop that is only ever given full pages uses up any bound on its
    iterations. *)
Lemma while_full_pages fuel f w :
  hasMore f = true ->
  let o := while fuel hasMore page f w in
  res o = OutOfFuel /\ omap fetch (trace o) = replicate fuel (Some limit) /\
  total (frame o) = total f + fuel * limit.
Proof using Hpage Hfull.
  cbv zeta. revert f w. induction fuel as [|fuel IH]; intros f w Hmore; simpl; rewrite Hmore.
  - split; [reflexivity |]. split; [reflexivity |]. cbn [frame]. lia.
  - destruct (Hpage f w) as (ev & t & Htrace & Ht & Hev).
    rewrite (Hfull f w ev t Htrace) in Hev. destruct Hev as (Hres & Hmore' & Htotal).
    rewrite Nat.eqb_refl in Hmore'.
    destruct (IH (frame (page f w)) (world (page f w)) Hmore') as (H1 & H2 & H3).
    unfold bind. rewrite Hres. cbn [res frame trace].
    split; [exact H1 |]. split.
    + rewrite omap_app, Htrace, omap_cons', (Hfull f w ev t Htrace), Ht, H2. reflexivity.
    + rewrite H3, Htotal. unfold limit. lia.
Qed.

End FullPages.

Section PageLoopExits.
Context {W F : Type}.
Variables (hasMore : F -> bool) (total : F -> nat) (fetch : Event -> option (option nat)).
Variable page : M W F Completion.
Hypothesis Hpage : page_spec hasMore total fetch page.

(** The page request is the only request of an iteration. *)
Lemma page_request_first f w t1 ev t2 x :
  trace (page f w) = t1 ++ ev :: t2 -> fetch ev = Some x ->
  t1 = [] /\ omap fetch t2 = [].
Proof using Hpage.
  intros Htr Hev. destruct (Hpage f w) as (ev0 & t & Htrace & Ht & _).
  rewrite Htrace in Htr. destruct t1 as [|ev1 t1]; simpl in Htr.
  - injection Htr as _ <-. auto.
  - exfalso. injection Htr as _ ->. apply omap_nil_inv in Ht.
    apply Forall_app in Ht as [_ Ht]. apply Forall_cons in Ht as [Ht _]. congruence.
Qed.

(** A page whose length is not the page size is the last request of the
    loop, which ends normally. *)
Lemma while_other_page fuel f w t1 ev t2 n :
  trace (while fuel hasMore page f w) = t1 ++ ev :: t2 ->
  fetch ev = Some (Some n) -> n <> limit ->
  omap fetch t2 = [] /\ res (while fuel hasMore page f w) = Ok tt.
Proof using Hpage.
  revert f w t1. induction fuel as [|fuel IH]; intros f w t1 Htr Hev Hn.
  - simpl in Htr. destruct (hasMore f); simpl in Htr; destruct t1; discriminate.
  - simpl in *. destruct (hasMore f) eqn:Hmore; [| destruct t1; discriminate].
    rewrite trace_bind in Htr. unfold bind.
    destruct (Hpage f w) as (ev0 & t & Htrace & Ht & Hspec).
    apply app_cons_split in Htr as [(t2' & Ha & ->)|(t1' & Hb & _)].
    + destruct (page_request_first _ _ _ _ _ _ Ha Hev) as [-> Ht2].
      rewrite Htrace in Ha. injection Ha as -> ->.
      rewrite Hev in Hspec. destruct Hspec as (Hres & Hmore' & _).
      rewrite Hres in *. cbn [res].
      apply Nat.eqb_neq in Hn. rewrite Hn in Hmore'.
      rewrite while_stop by exact Hmore'. cbn [trace res].
      rewrite app_nil_r. auto.
    + destruct (res (page f w)) as [[|]| |]; try (destruct t1'; discriminate Hb).
      cbn [res]. exact (IH _ _ _ Hb Hev Hn).
Qed.

(** After a page of exactly the page size the loop asks again, unless it
    has used up its iterations. *)
Lemma while_full_page fuel f w t1 ev t2 :
  trace (while fuel hasMore page f w) = t1 ++ ev :: t2 ->
  fetch ev = Some (Some limit) ->
  omap fetch t2 <> [] \/ res (while fuel hasMore page f w) = OutOfFuel.
Proof using Hpage.
  revert f w t1. induction fuel as [|fuel IH]; intros f w t1 Htr Hev.
  - simpl in Htr. destruct (hasMore f); simpl in Htr; destruct t1; discriminate.
  - simpl in *. destruct (hasMore f) eqn:Hmore; [| destruct t1; discriminate].
    rewrite trace_bind in Htr. unfold bind.
    destruct (Hpage f w) as (ev0 & t & Htrace & Ht & Hspec).
    apply app_cons_split in Htr as [(t2' & Ha & ->)|(t1' & Hb & _)].
    + destruct (page_request_first _ _ _ _ _ _ Ha Hev) as [-> Ht2].
      rewrite Htrace in Ha. injection Ha as -> ->.
      rewrite Hev in Hspec. destruct Hspec as (Hres & Hmore' & _).
      rewrite Hres in *. cbn [res]. rewrite Nat.eqb_refl in Hmore'.
      destruct fuel as [|fuel]; simpl; rewrite Hmore'; [right; reflexivity |].
      left. rewrite trace_bind.
      destruct (Hpage (frame (page f w)) (world (page f w))) as (ev1 & t' & -> & _ & Hspec1).
      rewrite omap_app, Ht2, app_nil_l. cbn [app]. rewrite omap_cons'.
      destruct (fetch ev1); [discriminate | contradiction].
    + destruct (res (page f w)) as [[|]| |]; try (destruct t1'; discriminate Hb).
      cbn [res]. exact (IH _ _ _ Hb Hev).
Qed.

End PageLoopExits.

Section Endless.
Context {W : Type} `{!Env W}.

Lemma org_phase_has_no_user_request fuel (w : W) options r :
  EvListUsers options r ∉ trace (migrateOrganizations fuel w).
Proof.
  intros Hin. pose proof (org_phase_has_no_user_fetch fuel w) as Hno.
  apply omap_nil_inv in Hno. rewrite Forall_forall in Hno. specialize (Hno _ Hin).
  destruct r; discriminate Hno.
Qed.

(** The place of a page request of users in a run: after the organization
    phase, which ended normally. *)
Lemma user_request_in_run fuel (w : W) t1 options r t2 :
  trace (migrateFromWorkOS fuel w) = t1 ++ EvListUsers options r :: t2 ->
  exists orgMap t1',
    res (migrateOrganizations fuel w) = Ok orgMap /\
    trace (migrateUsers fuel (UserFrame.init orgMap) (world (migrateOrganizations fuel w)))
    = t1' ++ EvListUsers options r :: t2 /\
    res (migrateFromWorkOS fuel w)
    = res (migrateUsers fuel (UserFrame.init orgMap) (world (migrateOrganizations fuel w))).
Proof.
  intros Htr. rewrite trace_migrateFromWorkOS in Htr.
  apply app_cons_split in Htr as [(t2' & Ha & _)|(t1' & Hb & _)].
  - exfalso. apply (org_phase_has_no_user_request fuel w options r).
    rewrite Ha. apply elem_of_app. right. left.
  - unfold migrateFromWorkOS.
    destruct (res (migrateOrganizations fuel w)) as [orgMap| |];
      [| destruct t1'; discriminate Hb | destruct t1'; discriminate Hb].
    exists orgMap, t1'. auto.
Qed.

(** X5.  A pagination loop goes on after a request exactly when the answer
    has exactly 100 records ([length === limit]).  After an answer of any
    other length, shorter or longer, no request follows and the loop ends
    normally; after an answer of exactly 100 records another request
    follows, unless the bound on the iterations is reached.  So against a
    source that answers every request with exactly 100 records, the loop
    makes as many requests as it is allowed iterations and does not return,
    whatever that number, and it counts 100 records for each. *)
Theorem only_full_pages_continue :
  (forall fuel (w : W) t1 options response t2,
     let o := migrateOrganizations fuel w in
     trace o = t1 ++ EvListOrganizations options (Resolved response) :: t2 ->
     (length (ListResponse.data response) <> 100 ->
      org_fetches t2 = [] /\ res o = Ok (OrgFrame.orgMap (frame o))) /\
     (length (ListResponse.data response) = 100 ->
      org_fetches t2 <> [] \/ res o = OutOfFuel))
  /\
  (forall fuel (w : W) t1 options response t2,
     let o := migrateFromWorkOS fuel w in
     trace o = t1 ++ EvListUsers options (Resolved response) :: t2 ->
     (length (ListResponse.data response) <> 100 ->
      user_fetches t2 = [] /\ res o = Ok tt) /\
     (length (ListResponse.data response) = 100 ->
      user_fetches t2 <> [] \/ res o = OutOfFuel))
  /\
  ((forall options (w : W),
      exists response,
        (listOrganizations options w).1 = Resolved response /\
        length (ListResponse.data response) = 100) ->
   forall fuel (w : W),
     let o := migrateOrganizations fuel w in
     res o = OutOfFuel /\ org_fetches (trace o) = replicate fuel (Some 100) /\
     OrgFrame.totalOrgs (frame o) = fuel * 100)
  /\
  ((forall options (w : W),
      exists response,
        (listUsers options w).1 = Resolved response /\
        length (ListResponse.data response) = 100) ->
   forall fuel orgMap (w : W),
     let o := migrateUsers fuel (UserFrame.init orgMap) w in
     res o = OutOfFuel /\ user_fetches (trace o) = replicate fuel (Some 100) /\
     UserFrame.totalUsers (frame o) = fuel * 100).
Proof.
  split; [| split; [| split]].
  - intros fuel w t1 options response t2 o Htr. subst o.
    rewrite migrateOrganizations_run in *. cbv zeta in *. cbn [res frame trace] in *. split.
    + intros Hlen.
      destruct (while_other_page _ _ _ _ organizations_page_spec _ _ _ _ _ _ _ Htr eq_refl Hlen)
        as [Hno ->].
      auto.
    + intros Hlen.
      destruct (while_full_page _ _ _ _ organizations_page_spec fuel OrgFrame.init w t1
                  (EvListOrganizations options (Resolved response)) t2 Htr) as [Hmore | ->];
        [simpl; rewrite Hlen; reflexivity | left; exact Hmore | right; reflexivity].
  - intros fuel w t1 options response t2 o Htr. subst o.
    destruct (user_request_in_run _ _ _ _ _ _ Htr) as (orgMap & t1' & _ & Hu & ->). split.
    + intros Hlen.
      exact (while_other_page _ _ _ _ users_page_spec _ _ _ _ _ _ _ Hu eq_refl Hlen).
    + intros Hlen.
      apply (while_full_page _ _ _ _ users_page_spec _ _ _ _ _ _ Hu).
      simpl. rewrite Hlen. reflexivity.
  - intros Hsource fuel w. cbv zeta. rewrite migrateOrganizations_run. cbv zeta.
    destruct (while_full_pages _ _ _ _ organizations_page_spec) with (fuel := fuel)
      (f := OrgFrame.init) (w := w) as (H1 & H2 & H3); [| reflexivity |].
    + intros f w' ev t Htrace.
      pose proof (organizations_page_run f w') as Hrun. cbv zeta in Hrun.
      destruct (Hsource {| ListOptions.limit := limit; ListOptions.before := OrgFrame.before f |}
                  w') as (response & Hr & Hlen).
      rewrite Hr in Hrun. rewrite Hrun in Htrace. injection Htrace as <- _.
      simpl. rewrite Hlen. reflexivity.
    + cbn [res frame trace]. rewrite H1. split; [reflexivity |]. split; [exact H2 | exact H3].
  - intros Hsource fuel orgMap w.
    apply (while_full_pages _ _ _ _ users_page_spec); [| reflexivity].
    intros f w' ev t Htrace.
    pose proof (users_page_run f w') as Hrun. cbv zeta in Hrun.
    destruct (Hsource {| ListOptions.limit := limit; ListOptions.before := UserFrame.before f |}
                w') as (response & Hr & Hlen).
    rewrite Hr in Hrun. rewrite Hrun in Htrace. injection Htrace as <- _.
    simpl. rewrite Hlen. reflexivity.
Qed.

End Endless.

(** ** Fields of the user row *)

Lemma trim_start_spec s :
  exists pre,
    s = pre ++ trim_start s /\ Forall (fun c => is_white_space c = true) pre /\
    forall c, head (trim_start s) = Some c -> is_white_space c = false.
Proof.
  induction s as [|c s (pre & Hs & Hpre & Hhead)]; simpl.
  - exists []. split; [reflexivity |]. split; [constructor | discriminate].
  - destruct (is_white_space c) eqn:Hc.
    + exists (c :: pre). split; [simpl; congruence |]. split; [constructor; assumption | exact Hhead].
    + exists []. split; [reflexivity |]. split; [constructor |].
      simpl. intros c' [= <-]. exact Hc.
Qed.

(** [trim] removes white space at both ends and nothing else. *)
Lemma trim_spec s :
  exists pre post,
    s = pre ++ trim s ++ post /\
    Forall (fun c => is_white_space c = true) pre /\
    Forall (fun c => is_white_space c = true) post /\
    (forall c, head (trim s) = Some c -> is_white_space c = false) /\
    (forall c, last (trim s) = Some c -> is_white_space c = false).
Proof.
  destruct (trim_start_spec s) as (pre & Hs & Hpre & Hhead).
  destruct (trim_start_spec (reverse (trim_start s))) as (post' & Hr & Hpost & Hlast).
  exists pre, (reverse post'). unfold trim.
  assert (Ha : trim_start s = reverse (trim_start (reverse (trim_start s))) ++ reverse post').
  { rewrite <- reverse_app, <- Hr, reverse_involutive. reflexivity. }
  split; [rewrite <- Ha; exact Hs |]. split; [exact Hpre |].
  split; [apply Forall_reverse; exact Hpost |]. split.
  - intros c Hc. apply Hhead. rewrite Ha.
    destruct (reverse (trim_start (reverse (trim_start s)))); [discriminate Hc | exact Hc].
  - intros c Hc. apply Hlast. rewrite last_reverse in Hc. exact Hc.
Qed.

Section Fields.
Context {W : Type} `{!Env W}.

(** X6.  The phone number of a user row is that of the first of the fetched
    factors of type "sms", and [phoneNumberVerified] is set exactly when
    there is such a factor: when the first one carries no number, the row
    has a verified phone number that is undefined, even if a later factor of
    type "sms" has one; without a factor of type "sms" there is neither. *)
Theorem phone_number_of_first_sms_factor fuel (w : W) t1 args r t2 :
  trace (migrateFromWorkOS fuel w) = t1 ++ EvCreate args r :: t2 ->
  CreateArgs.model args = user ->
  exists t0 response d,
    t1 = t0 ++ [EvListAuthFactors (UserData.id d) (Resolved response)] /\
    CreateArgs.data args = UserRow d /\
    let authFactors := ListResponse.data response in
    (UserData.phoneNumberVerified d = true <->
     exists factor, factor ∈ authFactors /\ WorkOSAuthFactor.type factor = js "sms") /\
    (forall earlier factor later,
       authFactors = earlier ++ factor :: later ->
       WorkOSAuthFactor.type factor = js "sms" ->
       Forall (fun g => WorkOSAuthFactor.type g <> js "sms") earlier ->
       UserData.phoneNumber d =
       optional_chain (WorkOSAuthFactor.sms_configuration factor) SmsConfiguration.phoneNumber) /\
    (UserData.phoneNumberVerified d = false -> UserData.phoneNumber d = None).
Proof.
  intros Htr Hmodel.
  destruct (user_rows_of_run fuel w t1 args r t2 Htr Hmodel)
    as (u & response & c1 & c2 & options & page & ta & tb & -> & -> & Hin).
  eexists (ta ++ EvListUsers options (Resolved page) :: tb), response, _.
  split; [| split; [reflexivity |]]; [rewrite <- app_assoc; reflexivity |].
  cbn. pose proof (find_first (has_type "sms") (ListResponse.data response)) as Hfind.
  split; [| split].
  - rewrite bool_decide_eq_true. split.
    + intros [factor Hf]. rewrite Hf in Hfind.
      destruct Hfind as (l1 & l2 & -> & Hp & _). exists factor.
      split; [apply elem_of_app; right; left | apply (has_type_spec "sms"), Hp].
    + intros (factor & Hf & Ht).
      destruct (List.find (has_type "sms") (ListResponse.data response)); [eauto |].
      rewrite Forall_forall in Hfind. apply (has_type_spec "sms") in Ht.
      rewrite (Hfind _ Hf) in Ht. discriminate Ht.
  - intros earlier factor later -> Ht Hearlier.
    rewrite find_first_unique; [reflexivity | apply (has_type_spec "sms"), Ht |].
    eapply Forall_impl; [exact Hearlier |]. intros g Hg. simpl in Hg.
    destruct (has_type "sms" g) eqn:E; [| reflexivity].
    apply (has_type_spec "sms") in E. contradiction.
  - rewrite bool_decide_eq_false. intros Hnone.
    destruct (List.find (has_type "sms") (ListResponse.data response)); [| reflexivity].
    exfalso. apply Hnone. eauto.
Qed.

End Fields.

(** X7.  The name of a user row is the string "firstName lastName", each
    part empty when it is absent, null or empty, without the white space at
    its ends; when nothing is left, that is, when both parts are missing or
    blank, the name is the email. *)
Theorem user_name_is_trimmed_or_email workosUser :
  let full := or_else (WorkOSUser.firstName workosUser) []
              ++ js " " ++ or_else (WorkOSUser.lastName workosUser) [] in
  let name := user_name workosUser in
  (Forall (fun c => is_white_space c = true) full -> name = WorkOSUser.email workosUser) /\
  (Exists (fun c => is_white_space c = false) full ->
   name <> [] /\
   (forall c, head name = Some c -> is_white_space c = false) /\
   (forall c, last name = Some c -> is_white_space c = false) /\
   exists pre post,
     full = pre ++ name ++ post /\
     Forall (fun c => is_white_space c = true) pre /\
     Forall (fun c => is_white_space c = true) post).
Proof.
  cbv zeta. unfold user_name.
  set (full := or_else (WorkOSUser.firstName workosUser) []
               ++ js " " ++ or_else (WorkOSUser.lastName workosUser) []).
  destruct (trim_spec full) as (pre & post & Hfull & Hpre & Hpost & Hhead & Hlast).
  split.
  - intros Hblank. rewrite Hfull in Hblank.
    apply Forall_app in Hblank as [_ Hblank]. apply Forall_app in Hblank as [Hblank _].
    destruct (trim full) as [|c s]; [reflexivity |]. exfalso.
    apply Forall_cons in Hblank as [Hc _]. rewrite (Hhead c eq_refl) in Hc. discriminate Hc.
  - intros Hsome.
    assert (Hne : trim full <> []).
    { intros Hnil. rewrite Hnil, app_nil_l in Hfull. rewrite Hfull in Hsome.
      apply Exists_exists in Hsome as (c & Hin & Hc).
      assert (Hall : Forall (fun c => is_white_space c = true) (pre ++ post))
        by (apply Forall_app; auto).
      rewrite Forall_forall in Hall. rewrite (Hall c Hin) in Hc. discriminate Hc. }
    destruct (trim full) as [|c s] eqn:Htrim; [contradiction |]. cbn [truthy].
    split; [discriminate |]. split; [exact Hhead |]. split; [exact Hlast |].
    exists pre, post. auto.
Qed.

(** ** What makes a user fail *)

Section FatalProperties.
Context {W : Type} `{!Env W}.

(** X8.  What makes a user fail.  The [try] block of a user throws exactly
    when one of these calls is rejected: the fetch of the factors, the
    creation of the user row, of the credentials account or of a two-factor
    row, the encryption of backup codes.  That call is then the last one
    made for the user, [failedUsers] is incremented and [migratedUsers] is
    not.  No other rejected call (the lookup of the SSO connection, the
    OAuth account, the list of memberships, the lookup of an organization,
    a member row) makes the user fail: the user is then counted as
    migrated. *)
Theorem user_fails_exactly_on_fatal workosUser (f : UserFrame.t) (w : W) :
  let p := process_user workosUser f w in
  let o := migrate_user workosUser f w in
  (res p = Ok tt <-> existsb fatal (trace p) = false) /\
  (forall t1 ev t2, trace p = t1 ++ ev :: t2 -> fatal ev = true -> t2 = []) /\
  (existsb fatal (trace o) = true <->
   UserFrame.failedUsers (frame o) = S (UserFrame.failedUsers f) /\
   UserFrame.migratedUsers (frame o) = UserFrame.migratedUsers f) /\
  (existsb fatal (trace o) = false <->
   UserFrame.migratedUsers (frame o) = S (UserFrame.migratedUsers f) /\
   UserFrame.failedUsers (frame o) = UserFrame.failedUsers f).
Proof.
  cbv zeta. pose proof (ends_at_fatal_process_user workosUser f w) as Hp.
  assert (Hres : match res (process_user workosUser f w) with
                 | Ok _ => existsb fatal (trace (process_user workosUser f w)) = false
                 | Throw _ => existsb fatal (trace (process_user workosUser f w)) = true
                 | OutOfFuel => False
                 end).
  { unfold stops_at_fatal in Hp.
    destruct (res (process_user workosUser f w)) as [[]|e|]; [| | exact Hp].
    - apply not_true_is_false. intros H. apply existsb_exists in H as (ev & Hin & Hev).
      rewrite Forall_forall in Hp. apply list_elem_of_In in Hin.
      rewrite (Hp _ Hin) in Hev. discriminate Hev.
    - destruct Hp as (t & ev & -> & Hev & _). apply existsb_exists. exists ev.
      split; [| exact Hev]. apply list_elem_of_In, elem_of_app. right. left. }
  destruct (migrate_user_run workosUser f w) as (_ & Htrace & _ & Hframe).
  rewrite Htrace. split; [| split; [| split]].
  - destruct (res (process_user workosUser f w)) as [[]|e|]; [| | contradiction].
    + split; auto.
    + rewrite Hres. split; discriminate.
  - intros t1 ev t2 Htr Hev. eapply stops_at_fatal_last; eassumption.
  - destruct (res (process_user workosUser f w)) as [[]|e|]; [| | contradiction];
      rewrite Hres, Hframe; cbn.
    + split; [discriminate | lia].
    + split; auto.
  - destruct (res (process_user workosUser f w)) as [[]|e|]; [| | contradiction];
      rewrite Hres, Hframe; cbn.
    + split; auto.
    + split; [discriminate | lia].
Qed.

End FatalProperties.

(** ** Two-factor rows *)

Section TwoFactor.
Context {W : Type} `{!Env W}.




End TwoFactor.

(** ** Accounts *)

Section Accounts.
Context {W : Type} `{!Env W}.

(** X10.  The block that creates the OAuth account of a user never throws
    and leaves the local variables alone.  It looks up the SSO connection
    under the id of the user; when the lookup answers a connection, it asks
    the adapter for one account row of type "oauth", with the lowercased
    type of the connection as provider, the id of the connection as
    provider account id and no password; when the lookup is rejected or
    answers nothing, it asks for no row.  A rejected row is dropped
    silently. *)
Theorem oauth_account_is_best_effort workosUser createdUser (f : UserFrame.t) (w : W) :
  let r := (getConnection (WorkOSUser.id workosUser) w).1 in
  let o := create_oauth_account workosUser createdUser f w in
  res o = Ok tt /\ frame o = f /\
  match r with
  | Resolved (Some connection) =>
      exists createdAt updatedAt r',
        trace o =
        [EvGetConnection (WorkOSUser.id workosUser) r;
         EvCreate (account_args createdUser (js "oauth") (toLowerCase (Connection.type connection))
                     (Connection.id connection) None createdAt updatedAt) r']
  | _ => trace o = [EvGetConnection (WorkOSUser.id workosUser) r]
  end.
Proof.
  cbv zeta. split; [apply create_oauth_account_ok |].
  split; [symmetry; apply keeps_create_oauth_account |].
  unfold create_oauth_account. rewrite trace_try_catch.
  destruct (getConnection (WorkOSUser.id workosUser) w) as [[[connection|]|e] w1] eqn:E;
    cbn [fst snd].
  - erewrite bind_run by (apply await_resolved; exact E). cbn [res frame world trace app].
    match goal with |- context [bind (safeDateConversion ?d) _ ?f0 ?w0] =>
      destruct (safeDateConversion_ok d f0 w0) as (createdAt & w2 & E1) end.
    erewrite bind_run by exact E1. cbn [res frame world trace app].
    match goal with |- context [bind (safeDateConversion ?d) _ ?f0 ?w0] =>
      destruct (safeDateConversion_ok d f0 w0) as (updatedAt & w3 & E2) end.
    erewrite bind_run by exact E2. cbn [res frame world trace app].
    exists createdAt, updatedAt. unfold create, account_args.
    match goal with |- context [await (adapter_create ?a) _] =>
      destruct (adapter_create a w3) as [[created|e] w4] eqn:Ec end.
    + erewrite bind_run by (apply await_resolved; exact Ec). eexists. reflexivity.
    + erewrite bind_run_throw by (apply await_rejected; exact Ec). eexists. reflexivity.
  - erewrite bind_run by (apply await_resolved; exact E). reflexivity.
  - erewrite bind_run_throw by (apply await_rejected; exact E). reflexivity.
Qed.

(** X11.  The credentials account of a user comes from the first of the
    fetched factors of type "email" that carries its configuration: one
    account row of type and provider "credentials", with the id of the
    source user as provider account id and the hashed password of that
    factor, absent when the factor has none.  No [try] surrounds the
    request: a rejected row is an exception of the user's block.  Without
    such a factor no call is made. *)
Theorem credentials_account_of_first_email_factor workosUser authFactors createdUser
    (f : UserFrame.t) (w : W) :
  let o := create_credentials_account workosUser authFactors createdUser f w in
  (Forall (fun factor => has_email_configuration factor = false) authFactors ->
   o = MkRun (Ok tt) f w [])
  /\
  (forall earlier factor later email_configuration,
     authFactors = earlier ++ factor :: later ->
     WorkOSAuthFactor.type factor = js "email" ->
     WorkOSAuthFactor.email_configuration factor = Some email_configuration ->
     Forall (fun g => has_email_configuration g = false) earlier ->
     exists createdAt updatedAt r,
       trace o =
       [EvCreate (account_args createdUser (js "credentials") (js "credentials")
                    (WorkOSUser.id workosUser)
                    (EmailConfiguration.hashedPassword email_configuration)
                    createdAt updatedAt) r] /\
       frame o = f /\
       res o = match r with
               | Resolved _ => Ok tt
               | Rejected e => Throw e
               end).
Proof.
  cbv zeta. unfold create_credentials_account. fold has_email_configuration. split.
  - intros Hnone.
    pose proof (find_first has_email_configuration authFactors) as Hfind.
    destruct (List.find has_email_configuration authFactors) as [ef|]; [| reflexivity].
    destruct Hfind as (l1 & l2 & -> & Hp & _).
    apply Forall_app in Hnone as [_ Hnone]. apply Forall_cons in Hnone as [Hnone _].
    congruence.
  - intros earlier factor later conf -> Htype Hconf Hearlier.
    rewrite find_first_unique; [| | exact Hearlier].
    2:{ unfold has_email_configuration. rewrite Hconf.
        rewrite (proj2 (has_type_spec "email" factor) Htype).
        rewrite bool_decide_eq_true_2 by eauto. reflexivity. }
    rewrite Hconf. cbn [member_of]. run_ok. cbn [ret frame world].
    match goal with |- context [bind (safeDateConversion ?d) _ ?f0 ?w0] =>
      destruct (safeDateConversion_ok d f0 w0) as (createdAt & w2 & E1) end.
    erewrite bind_run by exact E1. cbn [res frame world trace app].
    match goal with |- context [bind (safeDateConversion ?d) _ ?f0 ?w0] =>
      destruct (safeDateConversion_ok d f0 w0) as (updatedAt & w3 & E2) end.
    erewrite bind_run by exact E2. cbn [res frame world trace app].
    exists createdAt, updatedAt. unfold create, account_args.
    match goal with |- context [await (adapter_create ?a) _] =>
      destruct (adapter_create a w3) as [[created|e] w4] eqn:Ec end.
    + erewrite bind_run by (apply await_resolved; exact Ec).
      eexists. split; [reflexivity |]. split; reflexivity.
    + erewrite bind_run_throw by (apply await_rejected; exact Ec).
      eexists. split; [reflexivity |]. split; reflexivity.
Qed.

End Accounts.

(** ** Rows that belong to a user *)

Section Associations.
Context {W : Type} `{!Env W}.

Lemma emits_after_user_row_of workosUser authFactors createdUser :
  emits (W:=W) (Forall (association_event_of createdUser))
        (after_user_row workosUser authFactors createdUser).
Proof.
  unfold after_user_row, create_credentials_account, create_oauth_account,
    create_memberships, migrate_membership, migrate_factor, role_of.
  repeat emits_step; (constructor; [| constructor]); simpl; unfold is_association_row; auto.
Qed.

(** The trace of the [try] block of a user, with what the associations owe
    to the answer of the adapter for the user row. *)
Lemma process_user_trace_of workosUser (f : UserFrame.t) (w : W) :
  let r := (listAuthFactors (WorkOSUser.id workosUser) w).1 in
  exists t,
    trace (process_user workosUser f w) = EvListAuthFactors (WorkOSUser.id workosUser) r :: t /\
    match r with
    | Rejected _ => t = []
    | Resolved response =>
        exists createdAt updatedAt r' t',
          t = EvCreate (user_args workosUser (ListResponse.data response) createdAt updatedAt) r'
              :: t' /\
          match r' with
          | Resolved createdUser => Forall (association_event_of createdUser) t'
          | Rejected _ => t' = []
          end
    end.
Proof.
  intros r. unfold process_user.
  rewrite trace_bind. cbn [await res frame world trace app]. fold r.
  eexists. split; [reflexivity |].
  destruct r as [response|e]; cbn [of_reply]; [| reflexivity].
  match goal with |- context [bind (safeDateConversion ?d) _ ?f0 ?w0] =>
    destruct (safeDateConversion_ok d f0 w0) as (createdAt & w1 & E1) end.
  erewrite bind_run by exact E1. cbn [res frame world trace app].
  match goal with |- context [bind (safeDateConversion ?d) _ ?f0 ?w0] =>
    destruct (safeDateConversion_ok d f0 w0) as (updatedAt & w2 & E2) end.
  erewrite bind_run by exact E2. cbn [res frame world trace app].
  rewrite trace_bind. unfold create at 1. cbn [await res frame world trace app].
  eexists createdAt, updatedAt, _, _. split; [reflexivity |].
  unfold create. cbn [await res frame world].
  destruct (adapter_create _ w2).1; cbn [of_reply]; [| reflexivity].
  apply emits_after_user_row_of.
Qed.

Lemma association_row_in_run_later t0 t1 args :
  association_row_in_run t1 args -> association_row_in_run (t0 ++ t1) args.
Proof.
  intros (u & fs & c1 & c2 & cu & ta & tb & -> & Htb & Hid & Hforce).
  exists u, fs, c1, c2, cu, (t0 ++ ta), tb. rewrite app_assoc. auto.
Qed.

Lemma migrate_user_association_rows workosUser :
  emits (W:=W) (rows_justified is_association_row association_row_in_run)
        (migrate_user workosUser).
Proof.
  intros f w. destruct (migrate_user_run workosUser f w) as (_ & -> & _).
  destruct (process_user_trace_of workosUser f w) as (t & -> & Ht).
  intros t1 args r t2 Heq Hrow.
  destruct t1 as [|ev1 t1]; [discriminate |]. injection Heq as <- ->.
  destruct (listAuthFactors (WorkOSUser.id workosUser) w).1 as [response|e];
    [| destruct t1; discriminate].
  destruct Ht as (createdAt & updatedAt & r' & t' & Ht & Hassoc).
  destruct t1 as [|ev2 t1]; simpl in Ht.
  - injection Ht as -> -> ->. exfalso.
    destruct Hrow as [H|[H|H]]; discriminate H.
  - injection Ht as -> <-.
    destruct r' as [createdUser|e]; [| destruct t1; discriminate Hassoc].
    apply Forall_app in Hassoc as [Hbefore Hthis]. apply Forall_cons in Hthis as [Hthis _].
    destruct Hthis as (_ & Hforce & Hid).
    eexists workosUser, _, createdAt, updatedAt, createdUser, [_], t1.
    split; [reflexivity |]. split; [| auto].
    eapply Forall_impl; [exact Hbefore |]. intros ev Hev a r0 ->.
    destruct Hev as ([H|[H|H]] & _); unfold is_user_row; rewrite H; discriminate.
Qed.

Lemma users_page_association_rows :
  emits (W:=W) (rows_justified is_association_row association_row_in_run) users_page.
Proof.
  pose proof (rows_justified_monoidal is_association_row association_row_in_run
                association_row_in_run_later) as Hmon.
  unfold users_page. repeat emits_step; try apply migrate_user_association_rows.
  apply rows_justified_other. constructor; [discriminate | constructor].
Qed.

Lemma organizations_page_no_association_rows :
  emits (W:=W) (rows_justified is_association_row association_row_in_run) organizations_page.
Proof.
  eapply emits_weaken; [apply rows_justified_other |].
  apply emits_organizations_page; [apply _ | |].
  - intros options r. constructor; [discriminate | constructor].
  - intros org ev Hev. constructor; [| constructor].
    intros args r ->. destruct Hev as (c1 & c2 & ->).
    intros [H|[H|H]]; discriminate H.
Qed.

(** X12.  Every account, member and two-factor row that a run asks the
    adapter to create belongs to the user whose row was requested last: that
    row was accepted, the association row carries as [userId] the id that
    the adapter returned for it, and [forceAllowId] is set.  So a user whose
    row is rejected gets no account, no membership and no two-factor row. *)
Theorem association_rows_follow_the_user_row fuel (w : W) t1 args r t2 :
  trace (migrateFromWorkOS fuel w) = t1 ++ EvCreate args r :: t2 ->
  CreateArgs.model args = account \/ CreateArgs.model args = member
  \/ CreateArgs.model args = twoFactor ->
  exists workosUser authFactors createdAt updatedAt createdUser ta tb,
    t1 = ta ++ EvCreate (user_args workosUser authFactors createdAt updatedAt)
                        (Resolved createdUser) :: tb /\
    Forall (fun ev => forall a r, ev = EvCreate a r -> CreateArgs.model a <> user) tb /\
    row_userId (CreateArgs.data args) = Some (Created.id createdUser) /\
    CreateArgs.forceAllowId args = true.
Proof.
  intros Htr Hrow.
  exact (emits_migrateFromWorkOS _
           (Monoidal0 := rows_justified_monoidal _ _ association_row_in_run_later)
           fuel w organizations_page_no_association_rows users_page_association_rows
           t1 args r t2 Htr Hrow).
Qed.

End Associations.

(** ** The earlier version of the script *)

Section EarlierFacts.
Context {W : Type} `{!Env W}.

(** Every user of a page has its factors fetched. *)
Lemma for_of_migrate_user_fetches workosUsers (f : UserFrame.t) (w : W) :
  Forall (fun workosUser =>
            exists r, EvListAuthFactors (WorkOSUser.id workosUser) r
                        ∈ trace (for_of workosUsers migrate_user f w))
         workosUsers.
Proof.
  revert f w. induction workosUsers as [|u us IH]; intros f w; [constructor |].
  cbn [for_of]. rewrite trace_bind.
  destruct (migrate_user_run u f w) as (-> & Htr & _). constructor.
  - destruct (process_user_trace u f w) as (t & Ht & _).
    eexists. apply elem_of_app. left. rewrite Htr, Ht. left.
  - eapply Forall_impl; [apply IH |]. intros u' [r Hr]. exists r.
    apply elem_of_app. right. exact Hr.
Qed.

Lemma earlier_process_user_post workosUser f (w : W) :
  let o := Earlier.process_user workosUser f w in
  earlier_try_post f (res o) (frame o).
Proof.
  revert f w. unfold Earlier.process_user.
  apply bind_steady; [apply (keeps_await eq) | intros response | reflexivity].
  apply bind_steady; [apply (keeps_safeDateConversion eq) | intros createdAt | reflexivity].
  apply bind_steady; [apply (keeps_safeDateConversion eq) | intros updatedAt | reflexivity].
  apply bind_steady; [apply (keeps_await eq) | intros createdUser | reflexivity].
  apply bind_steady; [| intros _ | reflexivity].
  - unfold Earlier.migrate_factor. repeat keeps_step.
  - intros f w. reflexivity.
Qed.

(** One user: the exception is caught, and exactly one counter moves. *)
Lemma earlier_migrate_user_run workosUser f (w : W) :
  let p := Earlier.process_user workosUser f w in
  let o := Earlier.migrate_user workosUser f w in
  res o = Ok tt /\ trace o = trace p /\ world o = world p /\
  match res p with
  | Ok _ => frame o = EarlierFrame.set_migratedUsers (S (EarlierFrame.migratedUsers f)) f
  | Throw _ => frame o = EarlierFrame.set_failedUsers (S (EarlierFrame.failedUsers f)) f
  | OutOfFuel => False
  end.
Proof.
  intros p o. pose proof (earlier_process_user_post workosUser f w) as Hp.
  subst o. unfold Earlier.migrate_user, try_catch. fold p. simpl in Hp. fold p in Hp.
  destruct (res p) as [[]|e|] eqn:E; simpl in *.
  - rewrite E. auto.
  - rewrite Hp, app_nil_r. auto.
  - contradiction.
Qed.

Lemma earlier_for_of_migrate_user workosUsers f (w : W) :
  let o := for_of workosUsers Earlier.migrate_user f w in
  res o = Ok tt /\ earlier_same_page f (frame o) /\
  EarlierFrame.migratedUsers (frame o) + EarlierFrame.failedUsers (frame o) =
  EarlierFrame.migratedUsers f + EarlierFrame.failedUsers f + length workosUsers.
Proof.
  revert f w. induction workosUsers as [|u us IH]; intros f w; simpl.
  - split; [reflexivity |]. split; [repeat split | lia].
  - destruct (earlier_migrate_user_run u f w) as (Hres & _ & _ & Hframe).
    unfold bind. rewrite Hres. simpl.
    destruct (IH (frame (Earlier.migrate_user u f w)) (world (Earlier.migrate_user u f w)))
      as (H1 & (T1 & T2 & T3) & H3).
    split; [exact H1 |].
    destruct (res (Earlier.process_user u f w)); [| | contradiction];
      rewrite Hframe in *; simpl in *; (split; [repeat split; congruence | lia]).
Qed.

(** One page, by the answer of the source. *)
Lemma earlier_users_page_run (f : EarlierFrame.t) (w : W) :
  let options := {| ListOptions.limit := limit; ListOptions.before := EarlierFrame.before f |} in
  let r := (listUsers options w).1 in
  Earlier.users_page f w =
  match r with
  | Rejected e => MkRun (Ok Break) f (listUsers options w).2 [EvListUsers options r]
  | Resolved response =>
      match ListResponse.listMetadata response with
      | None => MkRun (Ok Break) f (listUsers options w).2 [EvListUsers options r]
      | Some listMetadata =>
          let workosUsers := ListResponse.data response in
          let f1 :=
            EarlierFrame.set_totalUsers (EarlierFrame.totalUsers f + length workosUsers)
              (EarlierFrame.set_hasMoreUsers (length workosUsers =? limit)
                 (EarlierFrame.set_before (or_undefined (ListMetadata.before listMetadata)) f)) in
          let l := for_of workosUsers Earlier.migrate_user f1 (listUsers options w).2 in
          MkRun (Ok Normal) (frame l) (world l) (EvListUsers options r :: trace l)
      end
  end.
Proof.
  intros options. cbv zeta.
  destruct (listUsers options w) as [[response|e] w1] eqn:E; cbn [fst snd];
    unfold Earlier.users_page.
  - destruct (ListResponse.listMetadata response) as [listMetadata|] eqn:Hmeta.
    + apply try_catch_run_ok. run_ok. fold options.
      erewrite bind_run by (apply await_resolved; exact E). cbn [res frame world trace app].
      unfold Earlier.next_before. rewrite Hmeta. cbn [member_of].
      erewrite bind_run by reflexivity. cbn [res frame world trace app].
      do 4 run_ok.
      erewrite bind_run by (apply run_ok_eta, earlier_for_of_migrate_user).
      cbn [res frame world trace app ret]. rewrite app_nil_r. reflexivity.
    + erewrite try_catch_run_throw.
      2:{ run_ok. fold options.
          erewrite bind_run by (apply await_resolved; exact E). cbn [res frame world trace app].
          unfold Earlier.next_before. rewrite Hmeta. cbn [member_of].
          erewrite bind_run_throw by reflexivity. reflexivity. }
      reflexivity.
  - erewrite try_catch_run_throw
      by (run_ok; fold options;
          erewrite bind_run_throw by (apply await_rejected; exact E); reflexivity).
    reflexivity.
Qed.

Lemma earlier_users_page_counts (f : EarlierFrame.t) (w : W) :
  EarlierFrame.totalUsers f = EarlierFrame.migratedUsers f + EarlierFrame.failedUsers f ->
  let f' := frame (Earlier.users_page f w) in
  EarlierFrame.totalUsers f' = EarlierFrame.migratedUsers f' + EarlierFrame.failedUsers f'.
Proof.
  intros Hf. cbv zeta. rewrite earlier_users_page_run. cbv zeta.
  destruct (listUsers _ w).1 as [page|e]; cbn [frame]; [| exact Hf].
  destruct (ListResponse.listMetadata page); cbn [frame]; [| exact Hf].
  match goal with |- context [for_of ?l _ ?f1 ?w1] =>
    destruct (earlier_for_of_migrate_user l f1 w1) as (_ & (H1 & _) & H2) end.
  rewrite H1. simpl in *. lia.
Qed.

Lemma emits_earlier_users_page :
  emits (W:=W) (Forall earlier_event) Earlier.users_page.
Proof.
  unfold Earlier.users_page, Earlier.next_before, Earlier.migrate_user, Earlier.process_user,
    Earlier.migrate_factor.
  repeat emits_step; (constructor; [| constructor]); simpl; auto.
Qed.

End EarlierFacts.

Section EarlierProperties.
Context {W : Type} `{!Env W}.

(** X13.  In the earlier version of the script too, a failure on one user
    is caught at that user and moves [failedUsers] alone, every user of a
    page moves exactly one of the two counters, and in the summary
    [totalUsers] is the sum of [migratedUsers] and [failedUsers]. *)
Theorem earlier_user_failures_are_isolated :
  (forall workosUser (f : EarlierFrame.t) (w : W),
     let o := Earlier.migrate_user workosUser f w in
     res o = Ok tt /\
     match res (Earlier.process_user workosUser f w) with
     | Ok _ =>
         EarlierFrame.migratedUsers (frame o) = S (EarlierFrame.migratedUsers f) /\
         EarlierFrame.failedUsers (frame o) = EarlierFrame.failedUsers f
     | Throw _ =>
         EarlierFrame.failedUsers (frame o) = S (EarlierFrame.failedUsers f) /\
         EarlierFrame.migratedUsers (frame o) = EarlierFrame.migratedUsers f
     | OutOfFuel => False
     end)
  /\
  (forall workosUsers (f : EarlierFrame.t) (w : W),
     let o := for_of workosUsers Earlier.migrate_user f w in
     res o = Ok tt /\
     EarlierFrame.migratedUsers (frame o) + EarlierFrame.failedUsers (frame o) =
       EarlierFrame.migratedUsers f + EarlierFrame.failedUsers f + length workosUsers)
  /\
  (forall fuel (w : W),
     let o := Earlier.migrateFromWorkOS fuel w in
     EarlierFrame.totalUsers (frame o) =
     EarlierFrame.migratedUsers (frame o) + EarlierFrame.failedUsers (frame o)).
Proof.
  split; [| split].
  - intros u f w. cbv zeta.
    destruct (earlier_migrate_user_run u f w) as (Hres & _ & _ & Hframe).
    split; [exact Hres |].
    destruct (res (Earlier.process_user u f w)); [| | contradiction]; rewrite Hframe; auto.
  - intros us f w. cbv zeta.
    destruct (earlier_for_of_migrate_user us f w) as (H1 & _ & H2). auto.
  - intros fuel w. cbv zeta. unfold Earlier.migrateFromWorkOS.
    apply (while_invariant
             (fun f => EarlierFrame.totalUsers f =
                       EarlierFrame.migratedUsers f + EarlierFrame.failedUsers f)).
    + intros f w' Hf. apply earlier_users_page_counts. exact Hf.
    + reflexivity.
Qed.

(** X14.  The two versions differ on an answer of [listUsers] that has no
    [listMetadata].  The earlier version reads [listMetadata.before]
    unguarded: the exception is caught as a failed fetch, so the loop ends
    there, and the users of that page are neither processed nor counted.
    The current version reads [listMetadata?.before]: it counts the page and
    processes its users, with no cursor for the next request. *)
Theorem missing_listMetadata_ends_the_earlier_loop :
  (forall (f : EarlierFrame.t) (w : W) response,
     let options := {| ListOptions.limit := limit; ListOptions.before := EarlierFrame.before f |} in
     (listUsers options w).1 = Resolved response ->
     ListResponse.listMetadata response = None ->
     Earlier.users_page f w =
     MkRun (Ok Break) f (listUsers options w).2 [EvListUsers options (Resolved response)])
  /\
  (forall (f : UserFrame.t) (w : W) response,
     let options := {| ListOptions.limit := limit; ListOptions.before := UserFrame.before f |} in
     let o := users_page f w in
     (listUsers options w).1 = Resolved response ->
     ListResponse.listMetadata response = None ->
     res o = Ok Normal /\
     UserFrame.totalUsers (frame o) = UserFrame.totalUsers f + length (ListResponse.data response) /\
     UserFrame.before (frame o) = None /\
     Forall (fun workosUser =>
               exists r, EvListAuthFactors (WorkOSUser.id workosUser) r ∈ trace o)
            (ListResponse.data response)).
Proof.
  split.
  - intros f w response options Hr Hmeta.
    rewrite earlier_users_page_run. cbv zeta. fold options. rewrite Hr, Hmeta. reflexivity.
  - intros f w response options o Hr Hmeta. subst o.
    pose proof (users_page_run f w) as Hrun. cbv zeta in Hrun. fold options in Hrun.
    rewrite Hr in Hrun. rewrite Hrun. cbn [res frame trace].
    match goal with |- context [for_of ?l _ ?f1 ?w1] =>
      destruct (for_of_migrate_user l f1 w1) as (_ & (H1 & _ & H3 & _) & _);
      pose proof (for_of_migrate_user_fetches l f1 w1) as H4 end.
    split; [reflexivity |]. split; [rewrite H1; reflexivity |]. split.
    + rewrite H3. unfold next_before. rewrite Hmeta. reflexivity.
    + eapply Forall_impl; [exact H4 |]. intros u [r Hin]. exists r. right. exact Hin.
Qed.

(** X15.  The earlier version talks to the source only to list users, 100
    at a time, and their authentication factors, and asks the adapter for
    user rows and two-factor rows only, all with [forceAllowId]: it looks up
    no organization, connection or membership and creates no organization,
    account or member row. *)
Theorem earlier_version_migrates_users_only fuel (w : W) :
  Forall earlier_event (trace (Earlier.migrateFromWorkOS fuel w)).
Proof.
  unfold Earlier.migrateFromWorkOS.
  apply (emits_while (Forall earlier_event)), emits_earlier_users_page.
Qed.

End EarlierProperties.

(** ** The summary, and the order of the steps *)

Lemma rejected_rows_app m t1 t2 :
  rejected_rows m (t1 ++ t2) = rejected_rows m t1 ++ rejected_rows m t2.
Proof. apply omap_app. Qed.

#[global] Instance counts_org_rows_composable : Composable counts_org_rows.
Proof.
  split.
  - intros f. split; simpl; lia.
  - intros f t1 f1 t2 f2 [H1 H2] [H3 H4]. unfold counts_org_rows.
    rewrite created_rows_app, rejected_rows_app, !length_app. lia.
Qed.

#[global] Instance bounds_user_rows_composable : Composable bounds_user_rows.
Proof.
  split.
  - intros f. split; simpl; lia.
  - intros f t1 f1 t2 f2 [H1 H2] [H3 H4]. unfold bounds_user_rows.
    rewrite created_rows_app, !length_app. lia.
Qed.

Lemma res_bind {W F A B} (m : M W F A) (k : A -> M W F B) f w :
  res (bind m k f w) =
  match res (m f w) with
  | Ok a => res (k a (frame (m f w)) (world (m f w)))
  | Throw e => Throw e
  | OutOfFuel => OutOfFuel
  end.
Proof. unfold bind. destruct (res (m f w)); reflexivity. Qed.

Section Summary.
Context {W : Type} `{!Env W}.

Lemma counts_org_rows_migrate_organization org :
  runs (W:=W) counts_org_rows (migrate_organization org).
Proof.
  intros f w. destruct (migrate_organization_run org f w) as (c1 & c2 & w1 & Hrun).
  cbv zeta in Hrun. rewrite Hrun.
  destruct (adapter_create _ w1).1 as [created|e]; split; cbn;
    rewrite ?bool_decide_eq_true_2 by reflexivity; simpl; lia.
Qed.

Lemma association_events_no_user_row createdUser t :
  Forall (association_event_of createdUser) t -> created_rows user t = [].
Proof.
  intros Hall. apply omap_nil_Forall. eapply Forall_impl; [exact Hall |].
  intros ev Hev. destruct ev as [| | | | | |args [created|e]| | |]; try reflexivity.
  destruct Hev as ([H|[H|H]] & _); simpl; rewrite H; reflexivity.
Qed.

Lemma bounds_user_rows_migrate_user workosUser :
  runs (W:=W) bounds_user_rows (migrate_user workosUser).
Proof.
  intros f w. destruct (migrate_user_run workosUser f w) as (_ & Htr & _ & Hframe).
  rewrite Htr.
  pose proof (ends_at_fatal_process_user workosUser f w) as Hfatal.
  destruct (process_user_trace_of workosUser f w) as (t & Ht & Hrest).
  unfold stops_at_fatal in Hfatal. rewrite Ht in *.
  destruct (listAuthFactors (WorkOSUser.id workosUser) w).1 as [response|e].
  - destruct Hrest as (c1 & c2 & r' & t' & -> & Hassoc).
    destruct r' as [createdUser|e].
    + unfold bounds_user_rows, created_rows. rewrite !omap_cons'. cbn [created_row user_args
        CreateArgs.model]. rewrite bool_decide_eq_true_2 by reflexivity.
      fold (created_rows user t'). rewrite (association_events_no_user_row _ _ Hassoc).
      destruct (res (process_user workosUser f w)) as [[]|e|]; [| | contradiction];
        rewrite Hframe; cbn; lia.
    + subst t'.
      destruct (res (process_user workosUser f w)) as [[]|e'|]; [| | contradiction].
      * apply Forall_cons in Hfatal as [_ Hfatal]. apply Forall_cons in Hfatal as [Hfatal _].
        discriminate Hfatal.
      * rewrite Hframe. split; cbn; lia.
  - subst t.
    destruct (res (process_user workosUser f w)) as [[]|e'|]; [| | contradiction].
    + apply Forall_cons in Hfatal as [Hfatal _]. discriminate Hfatal.
    + rewrite Hframe. split; cbn; lia.
Qed.

Lemma bounds_user_rows_users_page : runs (W:=W) bounds_user_rows users_page.
Proof.
  unfold users_page. repeat runs_step; try apply bounds_user_rows_migrate_user;
    split; cbn; lia.
Qed.

(** X16.  What the counters count.  In [migrateOrganizations],
    [migratedOrgs] is the number of organization rows that the adapter
    accepted and [failedOrgs] the number it rejected.  In
    [migrateFromWorkOS], [migratedUsers] is at most the number of accepted
    user rows, which is at most [totalUsers]: a user whose row was accepted
    is counted as failed when a later step of its block throws, and the row
    stays. *)
Theorem summary_counts_rows fuel (w : W) :
  let p := migrateOrganizations fuel w in
  let o := migrateFromWorkOS fuel w in
  OrgFrame.migratedOrgs (frame p) = length (created_rows organization (trace p)) /\
  OrgFrame.failedOrgs (frame p) = length (rejected_rows organization (trace p)) /\
  UserFrame.migratedUsers (frame o) <= length (created_rows user (trace o)) /\
  length (created_rows user (trace o)) <= UserFrame.totalUsers (frame o).
Proof.
  cbv zeta.
  assert (Horg : counts_org_rows OrgFrame.init (trace (migrateOrganizations fuel w))
                   (frame (migrateOrganizations fuel w))).
  { apply (runs_migrateOrganizations counts_org_rows).
    apply runs_organizations_page; try apply _; try (intros; split; cbn; lia).
    apply counts_org_rows_migrate_organization. }
  destruct Horg as [H1 H2]. split; [exact H1 |]. split; [exact H2 |].
  assert (Hnone : created_rows user (trace (migrateOrganizations fuel w)) = []).
  { apply omap_nil_Forall. apply (emits_migrateOrganizations (Forall _)).
    apply emits_organizations_page; [apply _ | |].
    - intros options r. constructor; [reflexivity | constructor].
    - intros org ev Hev. constructor; [| constructor].
      destruct ev as [| | | | | |args [created|e]| | |]; try reflexivity.
      destruct Hev as (c1 & c2 & ->). reflexivity. }
  rewrite trace_migrateFromWorkOS, created_rows_app, Hnone, app_nil_l.
  unfold migrateFromWorkOS.
  destruct (res (migrateOrganizations fuel w)) as [orgMap| |]; cbn [frame];
    [| simpl; lia | simpl; lia].
  destruct (runs_while bounds_user_rows fuel UserFrame.hasMoreUsers users_page
              bounds_user_rows_users_page (UserFrame.init orgMap)
              (world (migrateOrganizations fuel w))) as [H3 H4].
  assert (Htotal : let f := frame (migrateUsers fuel (UserFrame.init orgMap)
                                     (world (migrateOrganizations fuel w))) in
                   UserFrame.totalUsers f = UserFrame.migratedUsers f + UserFrame.failedUsers f).
  { apply (while_invariant
             (fun f => UserFrame.totalUsers f =
                       UserFrame.migratedUsers f + UserFrame.failedUsers f)).
    - intros f w' Hf. apply users_page_counts. exact Hf.
    - reflexivity. }
  cbv zeta in Htotal. unfold migrateUsers in *. cbn in H3, H4. lia.
Qed.

(** X17.  The steps that follow the user row run in a fixed order: the
    credentials account, the OAuth account, the memberships, the two-factor
    rows.  Only the first and the last can end the block: once the
    credentials step is over, the SSO connection is looked up, then the
    memberships are listed, then the loop over the factors runs, whatever
    the two steps in between met, and the block ends as that loop ends.  If
    the credentials step throws, nothing follows it. *)
Theorem association_steps_run_in_order workosUser authFactors createdUser
    (f : UserFrame.t) (w : W) :
  let o := after_user_row workosUser authFactors createdUser f w in
  let c := create_credentials_account workosUser authFactors createdUser f w in
  let s := create_oauth_account workosUser createdUser f (world c) in
  let m := create_memberships workosUser createdUser f (world s) in
  let t := for_of authFactors (migrate_factor createdUser) f (world m) in
  match res c with
  | Ok _ =>
      trace o = trace c ++ trace s ++ trace m ++ trace t /\
      (exists r t', trace s = EvGetConnection (WorkOSUser.id workosUser) r :: t') /\
      (exists r t', trace m = EvListOrganizationMemberships (WorkOSUser.id workosUser) r :: t') /\
      match res t with
      | Ok _ => res o = Ok tt
      | Throw e => res o = Throw e
      | OutOfFuel => False
      end
  | Throw e => res o = Throw e /\ trace o = trace c
  | OutOfFuel => False
  end.
Proof.
  cbv zeta. unfold after_user_row.
  destruct (keeps_create_credentials_account workosUser authFactors createdUser f w)
    as [Hfc Hnc].
  rewrite trace_bind, res_bind.
  destruct (res (create_credentials_account workosUser authFactors createdUser f w))
    as [[]|e|] eqn:Hc; [| split; [reflexivity | apply app_nil_r] | congruence].
  rewrite <- Hfc.
  set (w1 := world (create_credentials_account workosUser authFactors createdUser f w)).
  destruct (keeps_create_oauth_account workosUser createdUser f w1) as [Hfs _].
  pose proof (create_oauth_account_ok workosUser createdUser f w1) as Hs.
  rewrite trace_bind, res_bind, Hs, <- Hfs.
  set (w2 := world (create_oauth_account workosUser createdUser f w1)).
  destruct (keeps_create_memberships workosUser createdUser f w2) as [Hfm _].
  pose proof (create_memberships_ok workosUser createdUser f w2) as Hm.
  rewrite trace_bind, res_bind, Hm, <- Hfm.
  set (w3 := world (create_memberships workosUser createdUser f w2)).
  destruct (keeps_migrate_factors authFactors createdUser f w3) as [Hft Hnt].
  rewrite trace_bind, res_bind.
  split; [| split; [| split]].
  - destruct (res (for_of authFactors (migrate_factor createdUser) f w3)) as [[]|e|];
      cbn [trace]; rewrite ?app_nil_r; reflexivity.
  - unfold create_oauth_account. rewrite trace_try_catch, trace_bind.
    cbn [await trace app]. eauto.
  - unfold create_memberships. rewrite trace_try_catch, trace_bind.
    cbn [await trace app]. eauto.
  - destruct (res (for_of authFactors (migrate_factor createdUser) f w3)) as [[]|e|];
      [reflexivity | reflexivity | congruence].
Qed.

End Summary.

(** ** How a run ends, and slugs that collide *)

Section PageLoopEnds.
Context {W F : Type}.
Variables (hasMore : F -> bool) (total : F -> nat) (fetch : Event -> option (option nat)).
Variable page : M W F Completion.
Hypothesis Hpage : page_spec hasMore total fetch page.

Lemma while_never_throws fuel f w :
  res (while fuel hasMore page f w) = Ok tt \/ res (while fuel hasMore page f w) = OutOfFuel.
Proof using Hpage.
  revert f w. induction fuel as [|fuel IH]; intros f w; simpl.
  - destruct (hasMore f); auto.
  - destruct (hasMore f); [| auto]. rewrite res_bind.
    destruct (page_spec_ok _ _ _ _ Hpage f w) as [[|] ->]; [apply IH | auto].
Qed.

End PageLoopEnds.

Section Ends.
Context {W : Type} `{!Env W}.

(** X18.  No exception leaves [migrateOrganizations] or
    [migrateFromWorkOS]: whatever the source and the adapter answer, a run
    that ends, ends normally.  In particular, when the first request of each
    phase is rejected, the run ends normally after these two calls, with
    nothing created and every counter at 0. *)
Theorem run_never_throws :
  (forall fuel (w : W),
     let p := migrateOrganizations fuel w in
     let o := migrateFromWorkOS fuel w in
     (res p = Ok (OrgFrame.orgMap (frame p)) \/ res p = OutOfFuel) /\
     (res o = Ok tt \/ res o = OutOfFuel))
  /\
  (forall fuel (w : W) e e',
     let options := {| ListOptions.limit := 100; ListOptions.before := None |} in
     let w1 := (listOrganizations options w).2 in
     (listOrganizations options w).1 = Rejected e ->
     (listUsers options w1).1 = Rejected e' ->
     migrateFromWorkOS (S fuel) w =
     MkRun (Ok tt) (UserFrame.init ∅) (listUsers options w1).2
           [EvListOrganizations options (Rejected e); EvListUsers options (Rejected e')]).
Proof.
  split.
  - intros fuel w. cbv zeta.
    assert (Hp : res (migrateOrganizations fuel w)
                 = Ok (OrgFrame.orgMap (frame (migrateOrganizations fuel w)))
                 \/ res (migrateOrganizations fuel w) = OutOfFuel).
    { rewrite migrateOrganizations_run. cbv zeta. cbn [res frame].
      destruct (while_never_throws _ _ _ _ organizations_page_spec fuel OrgFrame.init w)
        as [-> | ->]; auto. }
    split; [exact Hp |]. unfold migrateFromWorkOS.
    destruct Hp as [-> | ->]; cbn [res]; [| auto].
    apply (while_never_throws _ _ _ _ users_page_spec).
  - intros fuel w e e' options w1 Ho Hu.
    assert (Hp : migrateOrganizations (S fuel) w =
                 MkRun (Ok ∅) OrgFrame.init w1 [EvListOrganizations options (Rejected e)]).
    { rewrite migrateOrganizations_run. cbv zeta. cbn [while OrgFrame.hasMoreOrgs OrgFrame.init].
      pose proof (organizations_page_run OrgFrame.init w) as Hrun. cbv zeta in Hrun.
      change {| ListOptions.limit := limit; ListOptions.before := OrgFrame.before OrgFrame.init |}
        with options in Hrun.
      rewrite Ho in Hrun. fold OrgFrame.init.
      erewrite bind_run by exact Hrun. reflexivity. }
    unfold migrateFromWorkOS. rewrite Hp. cbn [res frame world trace].
    unfold migrateUsers. cbn [while UserFrame.hasMoreUsers UserFrame.init].
    pose proof (users_page_run (UserFrame.init ∅) w1) as Hrun. cbv zeta in Hrun.
    change {| ListOptions.limit := limit;
              ListOptions.before := UserFrame.before (UserFrame.init ∅) |}
      with options in Hrun.
    rewrite Hu in Hrun. fold (UserFrame.init ∅).
    erewrite bind_run by exact Hrun. reflexivity.
Qed.

(** X19.  The slug keeps no trace of the code units outside [[a-z0-9]]:
    two organizations get the same slug exactly when their lowercased names
    have the same length and, at every position, the same code unit or two
    code units outside [[a-z0-9]].  Names whose lowercased forms differ only
    in such code units (punctuation, spaces) collide. *)
Theorem slug_collisions (name1 name2 : jsstring) :
  slug_of_name name1 = slug_of_name name2 <->
  Forall2 same_in_slug (toLowerCase name1) (toLowerCase name2).
Proof.
  unfold slug_of_name. rewrite !(replace_outside_single in_a_z0_9 hyphen).
  generalize (toLowerCase name1) (toLowerCase name2). clear name1 name2.
  assert (Hhyphen : in_a_z0_9 hyphen = false) by reflexivity.
  intros l1. induction l1 as [|c1 l1 IH]; intros [|c2 l2]; simpl.
  - split; [constructor | reflexivity].
  - split; [discriminate | inversion 1].
  - split; [discriminate | inversion 1].
  - split.
    + intros [= Hc Hl]. constructor; [| apply IH, Hl].
      unfold same_in_slug.
      destruct (in_a_z0_9 c1) eqn:E1, (in_a_z0_9 c2) eqn:E2; subst; auto; congruence.
    + intros H. apply Forall2_cons in H as [Hc Hl]. f_equal; [| apply IH, Hl].
      destruct Hc as [->|[-> ->]]; reflexivity.
Qed.

End Ends.

(** * The further properties on the scripted environment *)

(** The requests of two pages of users: the second one asks for the records
    before the cursor of the first answer. *)
Example chained_requests :
  omap user_request (trace (Demo.run Demo.chained)) =
  [({| ListOptions.limit := 100; ListOptions.before := None |}, Some (Some (js "user_00")));
   ({| ListOptions.limit := 100; ListOptions.before := Some (js "user_00") |}, Some None)].
Proof. vm_compute. reflexivity. Qed.

(** The second answer has no [listMetadata]: the earlier version stops
    there and counts 100 users, the current one counts 101. *)
Example chained_versions :
  EarlierFrame.totalUsers
    (frame (Earlier.migrateFromWorkOS (Env0 := Demo.env Demo.chained) 5 Demo.start)) = 100 /\
  UserFrame.totalUsers (frame (Demo.run Demo.chained)) = 101.
Proof. vm_compute. split; reflexivity. Qed.

(** A first SMS factor without its configuration hides the number of the
    second one; a TOTP factor without its configuration sets
    [twoFactorEnabled]. *)
Example first_sms_factor_wins :
  match CreateArgs.data
          (user_args Demo.ada [Demo.factor_of "sms"; Demo.sms_factor; Demo.factor_of "totp"]
             InvalidDate InvalidDate) with
  | UserRow d =>
      UserData.phoneNumberVerified d = true /\ UserData.phoneNumber d = None /\
      UserData.twoFactorEnabled d = true
  | _ => False
  end.
Proof. vm_compute. repeat split; reflexivity. Qed.

(** A page of 101 users ends the loop like a short one: one request, 101
    users counted. *)
Example overfull_users :
  let o := Demo.run Demo.overfull in
  (res o, UserFrame.totalUsers (frame o), user_fetches (trace o)) = (Ok tt, 101, [Some 101]).
Proof. vm_compute. reflexivity. Qed.

(** X2 on the two organizations of [sunny]. *)
Lemma orgMap_witness :
  let o := Demo.org_run Demo.sunny in
  exists org createdAt updatedAt created,
    EvCreate (organization_args (Env0 := Demo.env Demo.sunny) org createdAt updatedAt)
             (Resolved created) ∈ trace o /\
    Organization.id org = js "org_02" /\ Created.id created = js "org_02".
Proof.
  apply (proj1 (proj2 (orgMap_is_made_of_accepted_rows (Env0 := Demo.env Demo.sunny)
                         5 Demo.start))).
  vm_compute. reflexivity.
Defined.

(** X3 on the member row of Ada in the first organization, in [sunny]. *)
Lemma memberships_witness :
  exists org createdAt updatedAt created,
    EvCreate (organization_args (Env0 := Demo.env Demo.sunny) org createdAt updatedAt)
             (Resolved created) ∈ trace (Demo.run Demo.sunny) /\
    Created.id created = js "org_01".
Proof.
  apply (proj2 (memberships_follow_the_map (Env0 := Demo.env Demo.sunny) 5 Demo.start)
           Demo.ada_member_args (Resolved {| Created.id := js "generated" |})
           {| MemberData.userId := js "user_01"; MemberData.organizationId := js "org_01";
              MemberData.role := js "admin"; MemberData.createdAt := ValidDate 1010;
              MemberData.updatedAt := ValidDate 1011 |}).
  - apply list_elem_of_In. vm_compute. tauto.
  - reflexivity.
Defined.

(** X5 on a single page of 101 users, after which the loop ends, and on a
    source that never runs out of users, with a bound of seven
    iterations. *)
Lemma only_full_pages_witness :
  (let o := Demo.run Demo.overfull in
   user_fetches (drop 2 (trace o)) = [] /\ res o = Ok tt)
  /\
  (let o := migrateUsers (Env0 := Demo.endless) 7 (UserFrame.init ∅) Demo.start in
   res o = OutOfFuel /\ user_fetches (trace o) = replicate 7 (Some 100) /\
   UserFrame.totalUsers (frame o) = 7 * 100).
Proof.
  split.
  - apply (proj1 (proj1 (proj2 (only_full_pages_continue (Env0 := Demo.env Demo.overfull))) 5 Demo.start
                   (take 1 (trace (Demo.run Demo.overfull)))
                   {| ListOptions.limit := 100; ListOptions.before := None |}
                   {| ListResponse.data := replicate 101 Demo.bob;
                      ListResponse.listMetadata := None |}
                   (drop 2 (trace (Demo.run Demo.overfull)))
                   ltac:(vm_compute; reflexivity))).
    vm_compute. discriminate.
  - apply (proj2 (proj2 (proj2 (only_full_pages_continue (Env0 := Demo.endless))))).
    intros options w. eexists. split; reflexivity.
Defined.

(** X6 on Ada's user row in [sunny]. *)
Lemma phone_number_witness :
  exists t0 response d,
    take 7 (trace (Demo.run Demo.sunny)) =
      t0 ++ [EvListAuthFactors (UserData.id d) (Resolved response)] /\
    CreateArgs.data Demo.ada_args = UserRow d /\
    let authFactors := ListResponse.data response in
    (UserData.phoneNumberVerified d = true <->
     exists factor, factor ∈ authFactors /\ WorkOSAuthFactor.type factor = js "sms") /\
    (forall earlier factor later,
       authFactors = earlier ++ factor :: later ->
       WorkOSAuthFactor.type factor = js "sms" ->
       Forall (fun g => WorkOSAuthFactor.type g <> js "sms") earlier ->
       UserData.phoneNumber d =
       optional_chain (WorkOSAuthFactor.sms_configuration factor) SmsConfiguration.phoneNumber) /\
    (UserData.phoneNumberVerified d = false -> UserData.phoneNumber d = None).
Proof.
  apply (phone_number_of_first_sms_factor (Env0 := Demo.env Demo.sunny) 5 Demo.start
           (take 7 (trace (Demo.run Demo.sunny))) Demo.ada_args
           (Resolved Demo.created_ada) (drop 8 (trace (Demo.run Demo.sunny)))).
  - vm_compute. reflexivity.
  - reflexivity.
Defined.

(** X7 on Ada, who has both names. *)
Lemma user_name_witness :
  user_name Demo.ada <> [] /\
  (forall c, head (user_name Demo.ada) = Some c -> is_white_space c = false) /\
  (forall c, last (user_name Demo.ada) = Some c -> is_white_space c = false) /\
  exists pre post,
    js "Ada Lovelace" = pre ++ user_name Demo.ada ++ post /\
    Forall (fun c => is_white_space c = true) pre /\
    Forall (fun c => is_white_space c = true) post.
Proof.
  apply (proj2 (user_name_is_trimmed_or_email Demo.ada)).
  apply Exists_cons_hd. reflexivity.
Defined.

(** X8 on Ada in [stormy], whose user row the adapter rejects. *)
Lemma user_fails_witness :
  let o := migrate_user (Env0 := Demo.env Demo.stormy) Demo.ada (UserFrame.init ∅) Demo.start in
  UserFrame.failedUsers (frame o) = 1 /\ UserFrame.migratedUsers (frame o) = 0.
Proof.
  apply (proj1 (proj1 (proj2 (proj2
           (user_fails_exactly_on_fatal (Env0 := Demo.env Demo.stormy)
              Demo.ada (UserFrame.init ∅) Demo.start))))).
  vm_compute. reflexivity.
Defined.


(** X11 on Ada with a TOTP factor and an email factor. *)
Lemma credentials_witness :
  let o := create_credentials_account (Env0 := Demo.env Demo.sunny) Demo.ada
             [Demo.totp_factor; Demo.email_factor] Demo.created_ada
             (UserFrame.init ∅) Demo.start in
  exists createdAt updatedAt r,
    trace o =
    [EvCreate (account_args Demo.created_ada (js "credentials") (js "credentials")
                 (js "user_01") (Some (js "$2b$10$hash")) createdAt updatedAt) r] /\
    frame o = UserFrame.init ∅ /\
    res o = match r with
            | Resolved _ => Ok tt
            | Rejected e => Throw e
            end.
Proof.
  apply (proj2 (credentials_account_of_first_email_factor (Env0 := Demo.env Demo.sunny)
                  Demo.ada [Demo.totp_factor; Demo.email_factor] Demo.created_ada
                  (UserFrame.init ∅) Demo.start)
           [Demo.totp_factor] Demo.email_factor [] Demo.ada_email_configuration).
  - reflexivity.
  - reflexivity.
  - reflexivity.
  - repeat constructor.
Defined.

(** X12 on the member row of Ada in the first organization, in [sunny]. *)
Lemma association_rows_witness :
  exists workosUser authFactors createdAt updatedAt createdUser ta tb,
    take 12 (trace (Demo.run Demo.sunny)) =
      ta ++ EvCreate (user_args workosUser authFactors createdAt updatedAt)
                     (Resolved createdUser) :: tb /\
    Forall (fun ev => forall a r, ev = EvCreate a r -> CreateArgs.model a <> user) tb /\
    row_userId (CreateArgs.data Demo.ada_member_args) = Some (Created.id createdUser) /\
    CreateArgs.forceAllowId Demo.ada_member_args = true.
Proof.
  apply (association_rows_follow_the_user_row (Env0 := Demo.env Demo.sunny) 5 Demo.start
           (take 12 (trace (Demo.run Demo.sunny))) Demo.ada_member_args
           (Resolved {| Created.id := js "generated" |})
           (drop 13 (trace (Demo.run Demo.sunny)))).
  - vm_compute. reflexivity.
  - right. left. reflexivity.
Defined.

(** X14 on the first page of [sunny], which has no [listMetadata]. *)
Lemma missing_listMetadata_witness :
  let options := {| ListOptions.limit := 100; ListOptions.before := None |} in
  Earlier.users_page (Env0 := Demo.env Demo.sunny) EarlierFrame.init Demo.start =
  MkRun (Ok Break) EarlierFrame.init
        (listUsers (Env := Demo.env Demo.sunny) options Demo.start).2
        [EvListUsers options (Demo.page [Demo.ada; Demo.bob])].
Proof.
  apply (proj1 (missing_listMetadata_ends_the_earlier_loop (Env0 := Demo.env Demo.sunny))
           EarlierFrame.init Demo.start
           {| ListResponse.data := [Demo.ada; Demo.bob]; ListResponse.listMetadata := None |}).
  - reflexivity.
  - reflexivity.
Defined.

(** X18 on a source that is down. *)
Lemma source_down_witness :
  let options := {| ListOptions.limit := 100; ListOptions.before := None |} in
  let w1 := (listOrganizations (Env := Demo.env Demo.down) options Demo.start).2 in
  migrateFromWorkOS (Env0 := Demo.env Demo.down) 5 Demo.start =
  MkRun (Ok tt) (UserFrame.init ∅) (listUsers (Env := Demo.env Demo.down) options w1).2
        [EvListOrganizations options (Rejected (ExternalError (js "unavailable")));
         EvListUsers options (Rejected (ExternalError (js "unavailable")))].
Proof.
  apply (proj2 (run_never_throws (Env0 := Demo.env Demo.down)) 4 Demo.start
           (ExternalError (js "unavailable")) (ExternalError (js "unavailable"))).
  - reflexivity.
  - reflexivity.
Defined.

(** X19 on two names that differ in case and punctuation. *)
Lemma slug_collisions_witness :
  slug_of_name (Env0 := Demo.env Demo.sunny) (js "Acme Inc.")
  = slug_of_name (Env0 := Demo.env Demo.sunny) (js "ACME-inc!").
Proof.
  apply (proj2 (slug_collisions (Env0 := Demo.env Demo.sunny) (js "Acme Inc.") (js "ACME-inc!"))).
  repeat (apply Forall2_cons_2; [first [left; reflexivity | right; split; reflexivity] |]).
  apply Forall2_nil_2.
Defined.
